(** * oav: live operation validation and traffic coverage

    A shallow embedding of
      - the operation validator: the content-type gate
        [validateContentType], the issue classifier
        [schemaValidateIssueToLiveValidationIssue], the long-running-operation
        checker [validateLroOperation] / [validateLroHeader], the header
        normalization [transformLiveHeader] and the response orchestrator
        [validateSwaggerLiveResponse]; and
      - [TrafficValidator.validate] of
        [lib/swaggerValidator/trafficValidator.ts] with its two
        [findSwaggerBy...] helpers,
    together with the properties stated about them.

    Conventions of the embedding.
      - A JavaScript string is a [string]: a sequence of code units below 256;
        [<] on strings is the lexicographic order on code units.
      - A JavaScript object used as a dictionary ([StringMap], the [responses]
        table, normalized headers) is a finite map of its own properties;
        header values are strings, as their type says. Such an object is a
        plain object: where the code reads or writes a property under a name
        it does not choose, the properties inherited from [Object.prototype]
        ([Js.inherited], [Js.assign]) are taken into account.
      - A [Map] that is only read with [get] and written with [set] is a
        [gmap]; the [Map] that is iterated ([operationSpecMapper]) is an
        association list in insertion order, whose keys are distinct.
      - The classifier updates each raw issue in place; the issues of one
        input array are distinct objects, so the update is a function from
        the raw issue to the issue pushed.
      - A call that may throw returns a [Completion]; a loop that may be
        left by an exception returns the state reached and the thrown value.
      - Functions of modules that are imported by the two files are fields
        of the classes [Imports] and [TrafficValidator.Host]. *)

From Stdlib Require Import ZArith QArith String Ascii List Sorted Permutation Lia.
From stdpp Require Import base gmap strings list.

Local Open Scope string_scope.
Local Open Scope list_scope.

(** ** JavaScript primitives used by the two files *)

Module Js.

(** [s.startsWith(p)] *)
Fixpoint startsWith (s p : string) : bool :=
  match p with
  | EmptyString => true
  | String c p' =>
      match s with
      | EmptyString => false
      | String d s' => Ascii.eqb d c && startsWith s' p'
      end
  end.

(** [s.includes(sub)] *)
Fixpoint includes (s sub : string) : bool :=
  startsWith s sub ||
  match s with
  | EmptyString => false
  | String _ s' => includes s' sub
  end.

(** [s.substr(n)] for a non-negative [n]. *)
Fixpoint substr (n : nat) (s : string) : string :=
  match n, s with
  | O, _ => s
  | S _, EmptyString => EmptyString
  | S n', String _ s' => substr n' s'
  end.

(** [s.split(sep)] for a separator of one code unit. *)
Fixpoint split (sep : ascii) (s : string) : list string :=
  match s with
  | EmptyString => [EmptyString]
  | String c s' =>
      if Ascii.eqb c sep then EmptyString :: split sep s'
      else match split sep s' with
           | h :: t => String c h :: t
           | [] => [String c EmptyString]
           end
  end.

(** No code unit of [s] is the separator. *)
Fixpoint avoids (sep : ascii) (s : string) : Prop :=
  match s with
  | EmptyString => True
  | String c s' => c <> sep /\ avoids sep s'
  end.

(** [l.join(sep)] *)
Definition join (sep : string) (l : list string) : string := String.concat sep l.

(** [s.toLowerCase()] on code units below 256. *)
Definition toLowerChar (c : ascii) : ascii :=
  let n := N_of_ascii c in
  if ((65 <=? n) && (n <=? 90)
      || (192 <=? n) && (n <=? 222) && negb (n =? 215))%N
  then ascii_of_N (n + 32) else c.

Fixpoint toLowerCase (s : string) : string :=
  match s with
  | EmptyString => EmptyString
  | String c s' => String (toLowerChar c) (toLowerCase s')
  end.

(** White space and line terminators skipped by [parseInt]. *)
Definition isWhiteSpace (c : ascii) : bool :=
  let n := N_of_ascii c in
  ((9 <=? n) && (n <=? 13) || (n =? 32) || (n =? 160))%N.

Fixpoint trimStart (s : string) : string :=
  match s with
  | String c s' => if isWhiteSpace c then trimStart s' else s
  | EmptyString => s
  end.

Definition digitValue (c : ascii) : option Z :=
  let n := N_of_ascii c in
  if ((48 <=? n) && (n <=? 57))%N then Some (Z.of_N n - 48)%Z else None.

(** Value of the longest prefix of decimal digits, from accumulator [acc]. *)
Fixpoint digitsPrefix (acc : Z) (s : string) : Z :=
  match s with
  | String c s' =>
      match digitValue c with
      | Some d => digitsPrefix (10 * acc + d)%Z s'
      | None => acc
      end
  | EmptyString => acc
  end.

Definition startsWithDigit (s : string) : bool :=
  match s with
  | String c _ => match digitValue c with Some _ => true | None => false end
  | EmptyString => false
  end.

(** [parseInt(s, 10)]; [None] is [NaN]. *)
Definition parseInt (s : string) : option Z :=
  let t := trimStart s in
  let '(sign, body) :=
    match t with
    | String "-"%char r => ((-1)%Z, r)
    | String "+"%char r => (1%Z, r)
    | _ => (1%Z, t)
    end in
  if startsWithDigit body then Some (sign * digitsPrefix 0 body)%Z else None.

(** [a < b] and [a > b] on strings. *)
Definition lt (a b : string) : bool := String.ltb a b.
Definition gt (a b : string) : bool := String.ltb b a.

(** [arr.sort(cmp)]: for a comparator that is a total preorder the result
    is the stable sorted arrangement; it is computed here by insertion. *)
Section Sort.
Context {A : Type} (cmp : A -> A -> Z).

Fixpoint insertSorted (x : A) (l : list A) : list A :=
  match l with
  | [] => [x]
  | y :: t => if (0 <? cmp x y)%Z then y :: insertSorted x t else x :: l
  end.

Fixpoint sort (l : list A) : list A :=
  match l with
  | [] => []
  | x :: t => insertSorted x (sort t)
  end.
End Sort.

(** An array index: the canonical decimal spelling of an integer in
    [0, 2^32 - 2]. Such keys come first, in numeric order, when the own
    properties of an object are enumerated. *)
Fixpoint allDigits (s : string) : bool :=
  match s with
  | EmptyString => true
  | String c s' => match digitValue c with Some _ => allDigits s' | None => false end
  end.

Definition arrayIndex (s : string) : option Z :=
  match s with
  | EmptyString => None
  | String c r =>
      if allDigits s && (negb (Ascii.eqb c "0"%char) || String.eqb r "")
      then let v := digitsPrefix 0 s in
           if (v <=? 4294967294)%Z then Some v else None
      else None
  end.

(** [Object.values(o)] for an object whose own properties were created in
    the order of [props]: array-index keys first, by ascending index, then
    the other keys in creation order. *)
Definition indexedProps {V : Type} (props : list (string * V)) : list (Z * V) :=
  flat_map (fun kv => match arrayIndex (fst kv) with
                      | Some n => [(n, snd kv)]
                      | None => []
                      end) props.

Definition namedProps {V : Type} (props : list (string * V)) : list (string * V) :=
  List.filter (fun kv => match arrayIndex (fst kv) with
                         | Some _ => false
                         | None => true
                         end) props.

Definition objectValues {V : Type} (props : list (string * V)) : list V :=
  map snd (sort (fun a b => (fst a - fst b)%Z) (indexedProps props))
  ++ map snd (namedProps props).

(** [arr.includes(x)] on an array of strings. *)
Definition arrayIncludes (l : list string) (x : string) : bool :=
  existsb (String.eqb x) l.

(** [arr.indexOf(x)]; [None] is [-1]. *)
Fixpoint indexOf (l : list string) (x : string) : option nat :=
  match l with
  | [] => None
  | y :: t => if String.eqb y x then Some O else option_map S (indexOf t x)
  end.

(** The properties that a plain object inherits from [Object.prototype]. A
    read [obj[name]] of such a name on an object without an own property
    [name] gives the inherited value: a function, or for [__proto__] the
    prototype itself. None of these values is [undefined]. *)
Definition objectPrototypeProperties : list string :=
  ["constructor"; "__defineGetter__"; "__defineSetter__"; "hasOwnProperty";
   "__lookupGetter__"; "__lookupSetter__"; "isPrototypeOf"; "propertyIsEnumerable";
   "toString"; "valueOf"; "__proto__"; "toLocaleString"].

Definition inherited (name : string) : bool :=
  arrayIncludes objectPrototypeProperties name.

(** [obj[name] = value] for a string [value], on a plain object built by
    such assignments only: the assignment to [__proto__] reaches the
    inherited setter, which ignores a value that is not an object, so no
    property is created. *)
Definition assign (name value : string) (obj : gmap string string) : gmap string string :=
  if String.eqb name "__proto__" then obj else <[name := value]> obj.

(** A thrown value, as the [catch] block reads it. *)
Record Error := { errMessage : option string; errStack : option string }.

(** A value interpolated in a template literal. *)
Definition interpolate (v : option string) : string :=
  match v with Some s => s | None => "undefined" end.

End Js.

(** Outcome of a call that may throw. *)
Inductive Completion (A : Type) : Type :=
| Normal (a : A)
| Throw (e : Js.Error).
Arguments Normal {A} a.
Arguments Throw {A} e.

(** ** The operation validator *)

Definition Severity := nat.

Record ErrorMetadata := { severity : Severity; docUrl : string }.

Record SourceLocation := {
  url : string;
  jsonRef : option string;
  position : option (Z * Z)
}.

(** The argument object of a message template: property names and values. *)
Definition MessageParams := list (string * option string).

Module SchemaValidator.

Record SchemaValidateIssue := {
  code : string;
  message : string;
  schemaPath : string;
  jsonPathsInPayload : list string;
  source : SourceLocation;
  params : list string
}.

Record SchemaValidateContext := {
  isResponse : bool;
  includeErrors : option (list string);
  statusCode : option string;
  httpMethod : option string
}.

End SchemaValidator.
Import SchemaValidator (SchemaValidateIssue, SchemaValidateContext).

Record LiveValidationIssue := {
  code : string;
  severity_ : Severity;
  message : string;
  jsonPathsInPayload : list string;
  pathsInPayload : list string;
  schemaPath : string;
  source : SourceLocation;
  documentationUrl : string;
  params : list string
}.

(** Bodies are JSON values. *)
#[warnings="-register-all"]
Inductive Json :=
| JNull
| JBool (b : bool)
| JNum (q : Q)
| JStr (s : string)
| JArr (l : list Json)
| JObj (l : list (string * Json)).

Definition TransformFn := string -> string.

Record ValidatePayload := {
  payloadHeaders : gmap string string;
  payloadBody : option Json
}.

Definition Validator := SchemaValidateContext -> ValidatePayload -> list SchemaValidateIssue.

Record Response := {
  schema : option Json;
  rsp_headerTransform : option (list (string * TransformFn));
  rsp_validate : option Validator
}.

(** [_filePath] is [operation._path._spec._filePath]. *)
Record Operation := {
  x_ms_long_running_operation : option bool;
  _method : string;
  responses : gmap string Response;
  consumes : list string;
  produces : list string;
  _filePath : string
}.

Record OperationMatch := {
  pathMatch : list string;
  operation : Operation
}.

Record ValidationRequest := {
  providerNamespace : string;
  resourceType : string;
  requestMethod : string;
  requestUrl : string
}.

Record OperationContext := {
  operationId : string;
  apiVersion : string;
  operationMatch : option OperationMatch;
  validationRequest : option ValidationRequest
}.

(** A header object, as [Object.keys] enumerates it. *)
Definition RawHeaders := list (string * string).

Record LiveResponse := {
  statusCode : string;
  headers : option RawHeaders;
  body : option Json
}.

Record LiveValidatorLoader := {
  getResponseValidator : Response -> Validator
}.

(** The modules this file imports: the error-code table and message
    templates ([util/validationError], [swaggerValidator/schemaValidator]),
    the JSON-path conversion ([util/jsonUtils]) and the source-map lookup
    [sourceMapInfoToSourceLocation (getInfo relatedSchema)]. *)
Class Imports := {
  errorCodeToErrorMetadata : string -> ErrorMetadata;
  getValidateErrorMessage : string -> MessageParams -> string;
  jsonPathToPointer : string -> string;
  schemaSourceLocation : option (gmap string Response) -> SourceLocation
}.

Section OperationValidator.
Context `{Imports}.

Definition issueFromErrorCode (code : string) (param : MessageParams)
    (relatedSchema : option (gmap string Response)) : LiveValidationIssue :=
  let meta := errorCodeToErrorMetadata code in
  {| code := code;
     severity_ := severity meta;
     message := getValidateErrorMessage code param;
     jsonPathsInPayload := [];
     pathsInPayload := [];
     schemaPath := "";
     source := schemaSourceLocation relatedSchema;
     documentationUrl := docUrl meta;
     params := [] |}.

(** [v === undefined || v === ""] *)
Definition undefinedOrEmpty (v : option string) : bool :=
  match v with
  | None => true
  | Some s => String.eqb s ""
  end.

Definition validateLroHeader (operation : Operation) (headers : gmap string string)
    (result : list LiveValidationIssue) : list LiveValidationIssue :=
  if undefinedOrEmpty (headers !! "location")
     && undefinedOrEmpty (headers !! "azure-AsyncOperation")
     && undefinedOrEmpty (headers !! "azure-asyncoperation")
  then result ++ [issueFromErrorCode "LRO_RESPONSE_HEADER"
                    [("header", Some "location or azure-AsyncOperation")]
                    (Some (responses operation))]
  else result.

Definition lroResponseCode (operation : Operation) (statusCode : string)
    : LiveValidationIssue :=
  issueFromErrorCode "LRO_RESPONSE_CODE" [("statusCode", Some statusCode)]
    (Some (responses operation)).

Definition validateLroOperation (operation : Operation) (statusCode : string)
    (headers : gmap string string) (result : list LiveValidationIssue)
    : list LiveValidationIssue :=
  match x_ms_long_running_operation operation with
  | Some true =>
      if String.eqb (_method operation) "patch" || String.eqb (_method operation) "post" then
        if negb (String.eqb statusCode "202") && negb (String.eqb statusCode "201")
        then result ++ [lroResponseCode operation statusCode]
        else validateLroHeader operation headers result
      else if String.eqb (_method operation) "delete" then
        let result1 :=
          if negb (String.eqb statusCode "202") && negb (String.eqb statusCode "204")
          then result ++ [lroResponseCode operation statusCode]
          else result in
        if String.eqb statusCode "202"
        then validateLroHeader operation headers result1
        else result1
      else if String.eqb (_method operation) "put" then
        if String.eqb statusCode "202" || String.eqb statusCode "201"
        then validateLroHeader operation headers result
        else if negb (String.eqb statusCode "200")
             then result ++ [lroResponseCode operation statusCode]
             else result
      else result
  | _ => result
  end.

(** Lines 166-182, on a map whose values are all strings. *)
Definition transformMapValue (data : gmap string string)
    (transforms : option (list (string * TransformFn))) : gmap string string :=
  match transforms with
  | None => data
  | Some ts =>
      fold_left
        (fun d kt =>
           match d !! fst kt with
           | Some val => <[fst kt := snd kt val]> d
           | None => d
           end)
        ts data
  end.

(** Lines 154-164. *)
Definition transformLiveHeader (headers : RawHeaders)
    (transforms : option (list (string * TransformFn))) : gmap string string :=
  let result :=
    fold_left (fun r kv => Js.assign (Js.toLowerCase (fst kv)) (snd kv) r) headers ∅ in
  transformMapValue result transforms.

(** [headers["content-type"]?.split(";")[0] || (isRequest ? undefined : "application/octet-stream")] *)
Definition effectiveContentType (headers : gmap string string) (isRequest : bool)
    : option string :=
  let fallback := if isRequest then None else Some "application/octet-stream" in
  match headers !! "content-type" with
  | None => fallback
  | Some v =>
      match Js.split ";"%char v with
      | first :: _ => if String.eqb first "" then fallback else Some first
      | [] => fallback
      end
  end.

Definition invalidContentType (allowedContentTypes : list string) (contentType : string)
    : LiveValidationIssue :=
  issueFromErrorCode "INVALID_CONTENT_TYPE"
    [("contentType", Some contentType);
     ("supported", Some (Js.join ", " allowedContentTypes))]
    None.

Definition validateContentType (allowedContentTypes : list string)
    (headers : gmap string string) (isRequest : bool)
    (result : list LiveValidationIssue) : list LiveValidationIssue :=
  match effectiveContentType headers isRequest with
  | Some contentType =>
      if negb (Js.arrayIncludes allowedContentTypes contentType)
      then result ++ [invalidContentType allowedContentTypes contentType]
      else result
  | None => result
  end.

(** *** The issue classifier *)

Definition setCode (c : string) (i : LiveValidationIssue) : LiveValidationIssue :=
  {| code := c; severity_ := severity_ i; message := message i;
     jsonPathsInPayload := jsonPathsInPayload i; pathsInPayload := pathsInPayload i;
     schemaPath := schemaPath i; source := source i;
     documentationUrl := documentationUrl i; params := params i |}.

Definition setSeverityMessage (sv : Severity) (msg : string) (i : LiveValidationIssue)
    : LiveValidationIssue :=
  {| code := code i; severity_ := sv; message := msg;
     jsonPathsInPayload := jsonPathsInPayload i; pathsInPayload := pathsInPayload i;
     schemaPath := schemaPath i; source := source i;
     documentationUrl := documentationUrl i; params := params i |}.

Definition setPaths (jsonPaths pointers : list string) (i : LiveValidationIssue)
    : LiveValidationIssue :=
  {| code := code i; severity_ := severity_ i; message := message i;
     jsonPathsInPayload := jsonPaths; pathsInPayload := pointers;
     schemaPath := schemaPath i; source := source i;
     documentationUrl := documentationUrl i; params := params i |}.

(** Lines 209-218: the raw issue seen as a [LiveValidationIssue], with its
    metadata attached and its source url defaulted. *)
Definition attachMetadata (i : SchemaValidateIssue) (operation : Operation)
    : LiveValidationIssue :=
  let meta := errorCodeToErrorMetadata (SchemaValidator.code i) in
  let src := SchemaValidator.source i in
  {| code := SchemaValidator.code i;
     severity_ := severity meta;
     message := SchemaValidator.message i;
     jsonPathsInPayload := SchemaValidator.jsonPathsInPayload i;
     pathsInPayload := [];
     schemaPath := SchemaValidator.schemaPath i;
     source := if String.eqb (url src) ""
               then {| url := _filePath operation; jsonRef := jsonRef src;
                       position := position src |}
               else src;
     documentationUrl := docUrl meta;
     params := SchemaValidator.params i |}.

Definition isLongRunningAccepted (operation : Operation) (ctx : SchemaValidateContext)
    : bool :=
  match x_ms_long_running_operation operation with
  | Some true =>
      match SchemaValidator.statusCode ctx with
      | Some sc => String.eqb sc "201" || String.eqb sc "202"
      | None => false
      end
  | _ => false
  end.

(** One call of the [map] callback of lines 221-255, on the issue and the
    [skipIssue] flag as they stand; returns them updated, with the entry
    left in [jsonPathsInPayload] at this index and the pointer returned. *)
Definition classifyPath (operation : Operation) (ctx : SchemaValidateContext)
    (st : LiveValidationIssue * bool) (path : string)
    : (LiveValidationIssue * bool) * (string * string) :=
  let '(issue, skipIssue) := st in
  let isMissingRequiredProperty := String.eqb (code issue) "OBJECT_MISSING_REQUIRED_PROPERTY" in
  let isBodyIssue := Js.startsWith path ".body" in
  if isBodyIssue && ((5 <? String.length path)%nat || negb isMissingRequiredProperty) then
    let path' := "$" +:+ Js.substr 5 path in
    (st, (path', jsonPathToPointer path'))
  else if isMissingRequiredProperty then
    let '(issue1, skip1) :=
      if SchemaValidator.isResponse ctx then
        if isBodyIssue then
          (setCode "INVALID_RESPONSE_BODY" issue,
           if isLongRunningAccepted operation ctx then true else skipIssue)
        else if Js.startsWith path ".headers" then
          (setCode "INVALID_RESPONSE_HEADER" issue, skipIssue)
        else (issue, skipIssue)
      else (setCode "MISSING_REQUIRED_PARAMETER" issue, skipIssue) in
    let issue2 :=
      setSeverityMessage
        (severity (errorCodeToErrorMetadata (code issue1)))
        (getValidateErrorMessage (code issue1)
           [("missingProperty", head (params issue1))])
        issue1 in
    ((issue2, skip1), (path, jsonPathToPointer path))
  else (st, (path, jsonPathToPointer path)).

Fixpoint classifyPaths (operation : Operation) (ctx : SchemaValidateContext)
    (st : LiveValidationIssue * bool) (paths : list string)
    : (LiveValidationIssue * bool) * list (string * string) :=
  match paths with
  | [] => (st, [])
  | path :: rest =>
      let '(st1, entry) := classifyPath operation ctx st path in
      let '(st2, entries) := classifyPaths operation ctx st1 rest in
      (st2, entry :: entries)
  end.

(** The body of the [for] loop: the issue as pushed, and [skipIssue]. *)
Definition classifyIssue (operation : Operation) (ctx : SchemaValidateContext)
    (i : SchemaValidateIssue) : LiveValidationIssue * bool :=
  let issue := attachMetadata i operation in
  let '((issue', skipIssue), entries) :=
    classifyPaths operation ctx (issue, false) (jsonPathsInPayload issue) in
  (setPaths (map fst entries) (map snd entries) issue', skipIssue).

Fixpoint schemaValidateIssueToLiveValidationIssue (input : list SchemaValidateIssue)
    (operation : Operation) (ctx : SchemaValidateContext)
    (output : list LiveValidationIssue) : list LiveValidationIssue :=
  match input with
  | [] => output
  | i :: rest =>
      let '(issue, skipIssue) := classifyIssue operation ctx i in
      schemaValidateIssueToLiveValidationIssue rest operation ctx
        (if skipIssue then output else output ++ [issue])
  end.

(** *** The response orchestrator *)

Definition inRange (lo hi : Z) (n : option Z) : bool :=
  match n with
  | Some v => (lo <=? v)%Z && (v <=? hi)%Z
  | None => false
  end.

(** What [rspDef[name]] reads from [Object.prototype]: a value with none
    of the properties of a response definition. *)
Definition inheritedValue : Response :=
  {| schema := None; rsp_headerTransform := None; rsp_validate := None |}.

(** [rspDef[name]] on the [responses] table, a plain object: the own
    property, else the inherited one, else [undefined]. *)
Definition getResponse (rspDef : gmap string Response) (name : string) : option Response :=
  match rspDef !! name with
  | Some rsp => Some rsp
  | None => if Js.inherited name then Some inheritedValue else None
  end.

(** Lines 109-113. *)
Definition resolveResponse (rspDef : gmap string Response) (statusCode : string)
    : option Response :=
  match getResponse rspDef statusCode with
  | Some rsp => Some rsp
  | None =>
      if inRange 400 599 (Js.parseInt statusCode) then getResponse rspDef "default" else None
  end.

Definition noLoader : Js.Error :=
  {| Js.errMessage := Some "Loader is undefined but request validator isn't built yet";
     Js.errStack := None |}.

Definition noOperationMatch : Js.Error :=
  {| Js.errMessage := Some "Cannot destructure property 'operation' of 'info.operationMatch' as it is undefined.";
     Js.errStack := None |}.

(** Lines 119-147: the checks of a response against the value [rsp] that
    the status code resolved to. *)
Definition validateAgainst (response : LiveResponse) (operation : Operation)
    (rsp : Response) (loader : option LiveValidatorLoader)
    (includeErrors : option (list string)) (isArmCall : option bool)
    : Completion (list LiveValidationIssue) :=
  let result : list LiveValidationIssue := [] in
  let realCode := Js.parseInt (statusCode response) in
  let validator :=
    match rsp_validate rsp with
    | Some v => Normal v
    | None =>
        match loader with
        | None => Throw noLoader
        | Some ld => Normal (getResponseValidator ld rsp)
        end
    end in
  match validator with
  | Throw e => Throw e
  | Normal validate =>
      let headers :=
        transformLiveHeader (default [] (headers response)) (rsp_headerTransform rsp) in
      let result1 :=
        match schema rsp with
        | Some _ =>
            let r := validateContentType (produces operation) headers false result in
            if bool_decide (isArmCall = Some true)
               && inRange 200 299 realCode
            then validateLroOperation operation (statusCode response) headers r
            else r
        | None => result
        end in
      let ctx :=
        {| SchemaValidator.isResponse := true;
           SchemaValidator.includeErrors := includeErrors;
           SchemaValidator.statusCode := Some (statusCode response);
           SchemaValidator.httpMethod := Some (_method operation) |} in
      let errors :=
        validate ctx {| payloadHeaders := headers; payloadBody := body response |} in
      Normal (schemaValidateIssueToLiveValidationIssue errors operation ctx result1)
  end.

(** Lines 97-148. *)
Definition validateSwaggerLiveResponse (response : LiveResponse) (info : OperationContext)
    (loader : option LiveValidatorLoader) (includeErrors : option (list string))
    (isArmCall : option bool) : Completion (list LiveValidationIssue) :=
  match operationMatch info with
  | None => Throw noOperationMatch
  | Some om =>
      let operation := operation om in
      let rspDef := responses operation in
      let result : list LiveValidationIssue := [] in
      match resolveResponse rspDef (statusCode response) with
      | None =>
          Normal (result ++ [issueFromErrorCode "INVALID_RESPONSE_CODE"
                               [("statusCode", Some (statusCode response))] (Some rspDef)])
      | Some rsp => validateAgainst response operation rsp loader includeErrors isArmCall
      end
  end.

End OperationValidator.

(** ** The traffic validator *)

Module TrafficValidator.

Definition FilePosition := (Z * Z)%type.

Record RuntimeException := {
  code : string;
  message : string;
  spec : option (list string)
}.

Record LiveValidationIssueWithSource := {
  issue : LiveValidationIssue;
  issueSource : option string
}.

(** The [position] property that line 260 assigns on the shared
    [operationInfo] object is not part of the record modelled here. *)
Record TrafficValidationIssue := {
  payloadFilePath : option string;
  payloadFilePathPosition : option FilePosition;
  specFilePath : option string;
  errors : option (list LiveValidationIssueWithSource);
  runtimeExceptions : option (list (option RuntimeException));
  operationInfo : option OperationContext
}.

Record OperationMeta := { meta_operationId : string }.

Record unCoveredOperationsFormatInner := {
  key : string;
  inner_operationId : string
}.

Record unCoveredOperationsFormat := {
  operationIdList : list unCoveredOperationsFormatInner
}.

(** [coverageRate] is a JavaScript number; it is kept as the rational of
    which the number is the nearest double. *)
Record OperationCoverageInfo := {
  cov_spec : string;
  cov_apiVersion : string;
  coveredOperations : nat;
  coveredOperationsList : list OperationMeta;
  cov_validationFailOperations : nat;
  unCoveredOperations : Z;
  unCoveredOperationsList : list unCoveredOperationsFormatInner;
  unCoveredOperationsListGen : list unCoveredOperationsFormat;
  totalOperations : nat;
  coverageRate : Q
}.

(** What [liveValidator.validateLiveRequestResponse] returns. *)
Record ValidationResult := {
  isSuccessful : option bool;
  vr_operationInfo : option OperationContext;
  vr_errors : list LiveValidationIssue;
  vr_runtimeException : option RuntimeException
}.

Record RequestResponseLiveValidationResult := {
  requestValidationResult : ValidationResult;
  responseValidationResult : ValidationResult;
  runtimeException : option RuntimeException
}.

(** What lines 183-222 obtain for one traffic file from the live
    validator, the swagger loader and the JSON utilities. *)
Record Sample := {
  liveRequestUrl : string;
  validationResult : RequestResponseLiveValidationResult;
  opInfo : OperationContext;
  liveRequestResponsePosition : option FilePosition
}.

(** The collaborators of [validate]. [readSample] stands for lines 183-222:
    it throws when [require], the live validator, the loader or a JSON
    utility throws on that file. [swaggerLoad] is [swaggerLoader.load] on a
    specification file, and [operationIdPositionIn] stands for lines
    257-259 on the loaded document. [circularStructure info] is the
    [TypeError] that [JSON.stringify] throws on an operation context that
    carries an operation match: the matched operation refers to its path,
    whose operations refer back to it. *)
Class Host := {
  readSample : string -> Completion Sample;
  swaggerLoad : string -> Completion Json;
  operationIdPositionIn : Json -> string -> Completion (option FilePosition);
  getApiVersionFromFilePath : string -> string;
  localeCompare : string -> string -> Z;
  circularStructure : OperationContext -> Js.Error;
  RUNTIME_ERROR : string
}.

Record State := {
  trafficValidationResult : list TrafficValidationIssue;
  trafficFiles : list string;
  trafficOperation : gmap string (list string);
  validationFailOperations : gmap string (list string);
  coverageData : gmap string Q;
  operationSpecMapper : list (string * list string);
  operationCoverageResult : list OperationCoverageInfo;
  operationUndefinedResult : nat
}.

Definition pushResult (r : TrafficValidationIssue) (st : State) : State :=
  {| trafficValidationResult := trafficValidationResult st ++ [r];
     trafficFiles := trafficFiles st;
     trafficOperation := trafficOperation st;
     validationFailOperations := validationFailOperations st;
     coverageData := coverageData st;
     operationSpecMapper := operationSpecMapper st;
     operationCoverageResult := operationCoverageResult st;
     operationUndefinedResult := operationUndefinedResult st |}.

Definition setTrafficOperation (m : gmap string (list string)) (st : State) : State :=
  {| trafficValidationResult := trafficValidationResult st;
     trafficFiles := trafficFiles st;
     trafficOperation := m;
     validationFailOperations := validationFailOperations st;
     coverageData := coverageData st;
     operationSpecMapper := operationSpecMapper st;
     operationCoverageResult := operationCoverageResult st;
     operationUndefinedResult := operationUndefinedResult st |}.

Definition setValidationFailOperations (m : gmap string (list string)) (st : State) : State :=
  {| trafficValidationResult := trafficValidationResult st;
     trafficFiles := trafficFiles st;
     trafficOperation := trafficOperation st;
     validationFailOperations := m;
     coverageData := coverageData st;
     operationSpecMapper := operationSpecMapper st;
     operationCoverageResult := operationCoverageResult st;
     operationUndefinedResult := operationUndefinedResult st |}.

Definition setCoverageData (k : string) (rate : Q) (st : State) : State :=
  {| trafficValidationResult := trafficValidationResult st;
     trafficFiles := trafficFiles st;
     trafficOperation := trafficOperation st;
     validationFailOperations := validationFailOperations st;
     coverageData := <[k := rate]> (coverageData st);
     operationSpecMapper := operationSpecMapper st;
     operationCoverageResult := operationCoverageResult st;
     operationUndefinedResult := operationUndefinedResult st |}.

Definition pushCoverage (r : OperationCoverageInfo) (st : State) : State :=
  {| trafficValidationResult := trafficValidationResult st;
     trafficFiles := trafficFiles st;
     trafficOperation := trafficOperation st;
     validationFailOperations := validationFailOperations st;
     coverageData := coverageData st;
     operationSpecMapper := operationSpecMapper st;
     operationCoverageResult := operationCoverageResult st ++ [r];
     operationUndefinedResult := operationUndefinedResult st |}.

Definition countUndefined (st : State) : State :=
  {| trafficValidationResult := trafficValidationResult st;
     trafficFiles := trafficFiles st;
     trafficOperation := trafficOperation st;
     validationFailOperations := validationFailOperations st;
     coverageData := coverageData st;
     operationSpecMapper := operationSpecMapper st;
     operationCoverageResult := operationCoverageResult st;
     operationUndefinedResult := S (operationUndefinedResult st) |}.

(** [Map.prototype.get] on the iterated map. *)
Fixpoint mapGet {V : Type} (m : list (string * V)) (k : string) : option V :=
  match m with
  | [] => None
  | (k', v) :: t => if String.eqb k' k then Some v else mapGet t k
  end.

Section Validate.
Context `{Host}.

(** Lines 412-430. *)
Definition findSwaggerByOperationInfo (mapper : list (string * list string))
    (operationInfo : OperationContext) : list string :=
  match validationRequest operationInfo with
  | None => []
  | Some vreq =>
      List.filter
        (fun key =>
           match mapGet mapper key with
           | Some value =>
               Js.includes (Js.toLowerCase key) (providerNamespace vreq)
               && (Js.includes key (apiVersion operationInfo)
                   || Js.includes (Js.toLowerCase key) (apiVersion operationInfo))
               && Js.arrayIncludes value (operationId operationInfo)
           | None => false
           end)
        (map fst mapper)
  end.

(** Lines 432-445. *)
Definition findSwaggerByOperationId (mapper : list (string * list string))
    (operationInfo : OperationContext) : list string :=
  List.filter
    (fun key =>
       match mapGet mapper key with
       | Some value =>
           Js.arrayIncludes value (operationId operationInfo)
           && (Js.includes key (apiVersion operationInfo)
               || Js.includes (Js.toLowerCase key) (apiVersion operationInfo))
       | None => false
       end)
    (map fst mapper).

(** Lines 235-240 and 248-255: create the entry when it is missing, then
    push the identifier unless the entry includes it. *)
Definition recordOperation (m : gmap string (list string)) (swaggerFile opId : string)
    : gmap string (list string) :=
  let m1 := match m !! swaggerFile with
            | None => <[swaggerFile := []]> m
            | Some _ => m
            end in
  match m1 !! swaggerFile with
  | Some ids =>
      if Js.arrayIncludes ids opId then m1 else <[swaggerFile := ids ++ [opId]]> m1
  | None => m1
  end.

(** The condition of lines 241-247. *)
Definition hasFailure (vr : RequestResponseLiveValidationResult) : bool :=
  bool_decide (isSuccessful (requestValidationResult vr) = Some false)
  || bool_decide (isSuccessful (requestValidationResult vr) = None)
  || bool_decide (isSuccessful (responseValidationResult vr) = Some false)
  || bool_decide (isSuccessful (responseValidationResult vr) = None)
  || match runtimeException vr with Some _ => true | None => false end.

Definition withSource (src : string) (e : LiveValidationIssue)
    : LiveValidationIssueWithSource :=
  {| issue := e; issueSource := Some src |}.

(** Lines 189-211. *)
Definition collectErrors (vr : RequestResponseLiveValidationResult)
    : list LiveValidationIssueWithSource :=
  (match isSuccessful (requestValidationResult vr) with
   | Some false => map (withSource "request") (vr_errors (requestValidationResult vr))
   | _ => []
   end)
  ++ (match isSuccessful (responseValidationResult vr) with
      | Some false => map (withSource "response") (vr_errors (responseValidationResult vr))
      | _ => []
      end).

Definition collectRuntimeExceptions (vr : RequestResponseLiveValidationResult)
    : list (option RuntimeException) :=
  (match isSuccessful (requestValidationResult vr) with
   | None => [vr_runtimeException (requestValidationResult vr)]
   | Some _ => []
   end)
  ++ (match isSuccessful (responseValidationResult vr) with
      | None => [vr_runtimeException (responseValidationResult vr)]
      | Some _ => []
      end).

Definition undefinedOperationInfo : Js.Error :=
  {| Js.errMessage := Some "Cannot read properties of undefined (reading 'operationId')";
     Js.errStack := None |}.

(** Lines 256-259: the position of the operation in the specification
    file. Reading [operationInfo.operationId] throws when the request
    result carries no operation. *)
Definition locateOperation (swaggerFile : string) (operationInfo : option OperationContext)
    : Completion (option FilePosition) :=
  match (if String.eqb swaggerFile "" then Normal (JStr "") else swaggerLoad swaggerFile) with
  | Throw e => Throw e
  | Normal doc =>
      match operationInfo with
      | None => Throw undefinedOperationInfo
      | Some oi => operationIdPositionIn doc (operationId oi)
      end
  end.

(** One round of the loop of lines 234-270. *)
Definition visitSwaggerFile (trafficFile : string) (s : Sample) (st : State)
    (swaggerFile : string) : State * option Js.Error :=
  let opId := operationId (opInfo s) in
  let st1 := setTrafficOperation (recordOperation (trafficOperation st) swaggerFile opId) st in
  if hasFailure (validationResult s) then
    let st2 :=
      setValidationFailOperations
        (recordOperation (validationFailOperations st1) swaggerFile opId) st1 in
    let operationInfo := vr_operationInfo (requestValidationResult (validationResult s)) in
    match locateOperation swaggerFile operationInfo with
    | Throw e => (st2, Some e)
    | Normal _ =>
        (pushResult
           {| specFilePath := Some swaggerFile;
              payloadFilePath := Some trafficFile;
              payloadFilePathPosition := liveRequestResponsePosition s;
              errors := Some (collectErrors (validationResult s));
              runtimeExceptions := Some (collectRuntimeExceptions (validationResult s));
              operationInfo := operationInfo |} st2,
         None)
    end
  else (st1, None).

Fixpoint visitSwaggerFiles (trafficFile : string) (s : Sample) (st : State)
    (swaggerFiles : list string) : State * option Js.Error :=
  match swaggerFiles with
  | [] => (st, None)
  | swaggerFile :: rest =>
      match visitSwaggerFile trafficFile s st swaggerFile with
      | (st1, None) => visitSwaggerFiles trafficFile s st1 rest
      | (st1, Some e) => (st1, Some e)
      end
  end.

(** Lines 224-231. *)
Definition matchingSwaggerFiles (mapper : list (string * list string)) (s : Sample)
    : list string :=
  if Js.includes (liveRequestUrl s) "provider"
  then findSwaggerByOperationInfo mapper (opInfo s)
  else findSwaggerByOperationId mapper (opInfo s).

(** Lines 272-273. The message of line 272 is built first, with
    [JSON.stringify(opInfo.info)]: on a context that carries an operation
    match this throws, and the counter is not reached. *)
Definition reportUndefined (st : State) (s : Sample) : State * option Js.Error :=
  match operationMatch (opInfo s) with
  | Some _ => (st, Some (circularStructure (opInfo s)))
  | None => (countUndefined st, None)
  end.

(** The body of the loop of lines 181-275 for one traffic file: the
    state it leaves, and the value it throws if it throws. *)
Definition processSample (st : State) (trafficFile : string) : State * option Js.Error :=
  match readSample trafficFile with
  | Throw e => (st, Some e)
  | Normal s =>
      match matchingSwaggerFiles (operationSpecMapper st) s with
      | [] => reportUndefined st s
      | swaggerFiles => visitSwaggerFiles trafficFile s st swaggerFiles
      end
  end.

(** The [for] loop inside [try]: it stops at the first file whose
    processing throws, and reports that file with the thrown value. *)
Fixpoint processFiles (st : State) (files : list string)
    : State * option (string * Js.Error) :=
  match files with
  | [] => (st, None)
  | trafficFile :: rest =>
      match processSample st trafficFile with
      | (st1, None) => processFiles st1 rest
      | (st1, Some e) => (st1, Some (trafficFile, e))
      end
  end.

(** The record pushed by the [catch] block, lines 276-289. *)
Definition exceptionRecord (payloadFilePath : string) (err : Js.Error)
    : TrafficValidationIssue :=
  let msg := "Detail error message:" +:+ Js.interpolate (Js.errMessage err)
             +:+ ". ErrorStack:" +:+ Js.interpolate (Js.errStack err) in
  {| payloadFilePath := Some payloadFilePath;
     payloadFilePathPosition := None;
     specFilePath := None;
     errors := None;
     runtimeExceptions :=
       Some [Some {| code := RUNTIME_ERROR; message := msg; spec := None |}];
     operationInfo := None |}.

(** Lines 180-289. *)
Definition validateSamples (st : State) : State :=
  match processFiles st (trafficFiles st) with
  | (st1, None) => st1
  | (st1, Some (payloadFilePath, err)) => pushResult (exceptionRecord payloadFilePath err) st1
  end.

(** *** The coverage rollup, lines 296-408 *)

(** [arr.splice(arr.indexOf(element), 1)]: an index of [-1] removes the
    last element. *)
Definition spliceIndexOf (arr : list string) (element : string) : list string :=
  match Js.indexOf arr element with
  | Some i => take i arr ++ drop (S i) arr
  | None => removelast arr
  end.

(** [element.split("_")[0]] *)
Definition groupKey (element : string) : string :=
  match Js.split "_"%char element with
  | first :: _ => first
  | [] => ""
  end.

Definition uncovered (element : string) : unCoveredOperationsFormatInner :=
  {| key := groupKey element; inner_operationId := element |}.

(** [res[item.key].push(item)] when [res] has the own property
    [item.key], [res[item.key] = [item]] when it has not; the properties of
    [res] are kept in creation order. *)
Fixpoint pushItem (res : list (string * list unCoveredOperationsFormatInner))
    (item : unCoveredOperationsFormatInner)
    : list (string * list unCoveredOperationsFormatInner) :=
  match res with
  | [] => [(key item, [item])]
  | (k, items) :: rest =>
      if String.eqb k (key item) then (k, items ++ [item]) :: rest
      else (k, items) :: pushItem rest item
  end.

Definition notAFunction : Js.Error :=
  {| Js.errMessage := Some "res[item.key].push is not a function"; Js.errStack := None |}.

(** The reducer of lines 325-330. [res] starts as [{}], a plain object:
    for a key that names an inherited property and is not yet an own
    property, [res[item.key]] is the inherited value, which is not
    [undefined] and has no [push], so the call throws. *)
Definition groupPush (res : list (string * list unCoveredOperationsFormatInner))
    (item : unCoveredOperationsFormatInner)
    : Completion (list (string * list unCoveredOperationsFormatInner)) :=
  if Js.inherited (key item) && negb (Js.arrayIncludes (map fst res) (key item))
  then Throw notAFunction
  else Normal (pushItem res item).

(** [items.reduce(reducer, res)] *)
Fixpoint groupItems (items : list unCoveredOperationsFormatInner)
    (res : list (string * list unCoveredOperationsFormatInner))
    : Completion (list (string * list unCoveredOperationsFormatInner)) :=
  match items with
  | [] => Normal res
  | item :: rest =>
      match groupPush res item with
      | Throw e => Throw e
      | Normal res1 => groupItems rest res1
      end
  end.

(** The comparator of lines 351-361 and 363-373. *)
Definition compareOperationId (opId1 opId2 : string) : Z :=
  if Js.lt opId1 opId2 then (-1)%Z
  else if Js.gt opId1 opId2 then 1%Z
  else 0%Z.

(** [batch.operationIdList[0].key]; every batch built by the reducer has
    a first element. *)
Definition batchKey (batch : unCoveredOperationsFormat) : string :=
  match operationIdList batch with
  | first :: _ => key first
  | [] => ""
  end.

(** The inner loop of lines 382-392, for [j] from [0] below [bound]. *)
Fixpoint bubblePass (bound : nat) (batches : list unCoveredOperationsFormat)
    : list unCoveredOperationsFormat :=
  match bound with
  | O => batches
  | S bound' =>
      match batches with
      | b1 :: b2 :: rest =>
          if (0 <? localeCompare (batchKey b1) (batchKey b2))%Z
          then b2 :: bubblePass bound' (b1 :: rest)
          else b1 :: bubblePass bound' (b2 :: rest)
      | _ => batches
      end
  end.

(** The outer loop of lines 381-393; [remaining] is [length - 1 - i]. *)
Fixpoint bubbleLoop (remaining : nat) (batches : list unCoveredOperationsFormat)
    : list unCoveredOperationsFormat :=
  match remaining with
  | O => batches
  | S remaining' => bubbleLoop remaining' (bubblePass remaining batches)
  end.

Definition bubbleSort (batches : list unCoveredOperationsFormat)
    : list unCoveredOperationsFormat :=
  bubbleLoop (length batches - 1) batches.

(** [coveredOperations / value.length], where the divisor is not zero. *)
Definition rate (coveredOperations total : nat) : Q :=
  (inject_Z (Z.of_nat coveredOperations) / inject_Z (Z.of_nat total))%Q.

(** The operations of [value] that are left when the recorded ones are
    spliced out, lines 312-316. *)
Definition unValidated (value validatedOperations : list string) : list string :=
  fold_left spliceIndexOf validatedOperations value.

(** The record of lines 396-407, from the entry [key], [value] of
    [operationSpecMapper], the operations recorded for [key], the number of
    those that failed, and the object [res] that the reducer returned. *)
Definition coverageRecord (key : string) (value validatedOperations : list string)
    (validationFailOperations : nat)
    (res : list (string * list unCoveredOperationsFormatInner)) : OperationCoverageInfo :=
  let coveredOperations := length validatedOperations in
  let coveredOperationsList :=
    map (fun element => {| meta_operationId := element |}) validatedOperations in
  let unCoveredOperationsList := map uncovered (unValidated value validatedOperations) in
  let unCoveredOperationsInnerList := Js.objectValues res in
  let unCoveredOperationsListFormat :=
    map (fun element => {| operationIdList := element |}) unCoveredOperationsInnerList in
  {| cov_spec := key;
     cov_apiVersion := getApiVersionFromFilePath key;
     coveredOperations := coveredOperations;
     coverageRate := rate coveredOperations (length value);
     unCoveredOperations := (Z.of_nat (length value) - Z.of_nat coveredOperations)%Z;
     totalOperations := length value;
     cov_validationFailOperations := validationFailOperations;
     coveredOperationsList :=
       Js.sort (fun op1 op2 =>
                  compareOperationId (meta_operationId op1) (meta_operationId op2))
         coveredOperationsList;
     unCoveredOperationsList :=
       Js.sort (fun op1 op2 =>
                  compareOperationId (inner_operationId op1) (inner_operationId op2))
         unCoveredOperationsList;
     unCoveredOperationsListGen := bubbleSort unCoveredOperationsListFormat |}.

(** Lines 308-407 for an entry that was matched and declares an operation:
    the record pushed, unless the reducer throws. *)
Definition coverageInfo (key : string) (value validatedOperations : list string)
    (validationFailOperations : nat) : Completion OperationCoverageInfo :=
  match groupItems (map uncovered (unValidated value validatedOperations)) [] with
  | Throw e => Throw e
  | Normal res =>
      Normal (coverageRecord key value validatedOperations validationFailOperations res)
  end.

(** The callback of [operationSpecMapper.forEach]: the state it leaves, and
    the value it throws if it throws. *)
Definition rollupSpec (st : State) (entry : string * list string)
    : State * option Js.Error :=
  let '(key, value) := entry in
  match trafficOperation st !! key with
  | None => (setCoverageData key 0%Q st, None)
  | Some validatedOperations =>
      if negb (length value =? 0)%nat then
        let st1 :=
          setCoverageData key (rate (length validatedOperations) (length value)) st in
        let validationFailOperations :=
          match validationFailOperations st1 !! key with
          | None => O
          | Some failed => length failed
          end in
        match coverageInfo key value validatedOperations validationFailOperations with
        | Throw e => (st1, Some e)
        | Normal r => (pushCoverage r st1, None)
        end
      else (setCoverageData key 0%Q st, None)
  end.

(** [operationSpecMapper.forEach(callback)], lines 296-408, which are not
    inside the [try]: the loop is left at the first entry whose callback
    throws. *)
Fixpoint rollup (mapper : list (string * list string)) (st : State)
    : State * option Js.Error :=
  match mapper with
  | [] => (st, None)
  | entry :: rest =>
      match rollupSpec st entry with
      | (st1, None) => rollup rest st1
      | (st1, Some e) => (st1, Some e)
      end
  end.

(** One call of [TrafficValidator.validate]: the state it leaves the
    instance in, and the value it throws if the rollup throws. *)
Definition run (st : State) : State * option Js.Error :=
  let st1 := validateSamples st in
  rollup (operationSpecMapper st1) st1.

(** [TrafficValidator.validate]: the state it leaves. The promise resolves
    to [trafficValidationResult] of that state, unless the rollup throws
    ([validateThrows]): then it is rejected with the thrown value. *)
Definition validate (st : State) : State := fst (run st).

Definition validateThrows (st : State) : option Js.Error := snd (run st).

(** The instance after [initialize], before any call of [validate]. *)
Definition initialized (files : list string) (mapper : list (string * list string))
    : State :=
  {| trafficValidationResult := [];
     trafficFiles := files;
     trafficOperation := ∅;
     validationFailOperations := ∅;
     coverageData := ∅;
     operationSpecMapper := mapper;
     operationCoverageResult := [];
     operationUndefinedResult := O |}.

(** A batch is a group: it is not empty and its items carry the key of
    the batch, which is the part of their identifier before the first
    underscore. *)
Definition isGroup (batch : unCoveredOperationsFormat) : Prop :=
  operationIdList batch <> []
  /\ Forall (fun item => key item = batchKey batch
                          /\ key item = groupKey (inner_operationId item))
       (operationIdList batch).

(** [localeCompare] orders strings: it is transitive and total. *)
Definition LocaleOrder : Prop :=
  (forall a b c : string,
      (localeCompare a b <= 0)%Z -> (localeCompare b c <= 0)%Z ->
      (localeCompare a c <= 0)%Z)
  /\ (forall a b : string, (0 < localeCompare a b)%Z -> (localeCompare b a <= 0)%Z).

(** The batch [b1] may stand before [b2]: the loop of lines 381-393
    would not swap them. *)
Definition batchLe (b1 b2 : unCoveredOperationsFormat) : Prop :=
  (localeCompare (batchKey b1) (batchKey b2) <= 0)%Z.

(** [opId1 <= opId2] in the order of [<] on strings. *)
Definition operationIdLe (opId1 opId2 : string) : Prop :=
  String.leb opId1 opId2 = true.

(** Every property of [res] holds a group of items that satisfy [P]. *)
Definition groupsOf (P : unCoveredOperationsFormatInner -> Prop)
    (res : list (string * list unCoveredOperationsFormatInner)) : Prop :=
  Forall (fun kv => snd kv <> []
                    /\ Forall (fun item => key item = fst kv /\ P item) (snd kv)) res.

(** What the [forEach] of lines 296-408 adds to the report. *)
Definition reported (st : State) (mapper : list (string * list string))
    (r : OperationCoverageInfo) : Prop :=
  exists specKey value validatedOperations n,
    In (specKey, value) mapper
    /\ trafficOperation st !! specKey = Some validatedOperations
    /\ value <> []
    /\ coverageInfo specKey value validatedOperations n = Normal r.

(** The operation is in the set recorded for the specification file. *)
Definition recorded (m : gmap string (list string)) (swaggerFile opId : string) : Prop :=
  exists ids, m !! swaggerFile = Some ids /\ In opId ids.

(** The record belongs to a traffic file of [files] whose sample was
    read and has a failing validation or a runtime exception. *)
Definition fromFailedSample (files : list string) (r : TrafficValidationIssue) : Prop :=
  exists trafficFile s,
    In trafficFile files
    /\ readSample trafficFile = Normal s
    /\ hasFailure (validationResult s) = true
    /\ payloadFilePath r = Some trafficFile.

(** The record is the one the [catch] block pushes for a file of [files]. *)
Definition fromException (files : list string) (r : TrafficValidationIssue) : Prop :=
  exists trafficFile err, In trafficFile files /\ r = exceptionRecord trafficFile err.

(** The bookkeeping invariant of [trafficOperation]: the identifiers
    recorded for a specification file are distinct, are declared by that
    file, and the file was matched by a sample of [files]. *)
Definition Consistent (files : list string) (mapper : list (string * list string))
    (m : gmap string (list string)) : Prop :=
  forall swaggerFile ids,
    m !! swaggerFile = Some ids ->
    List.NoDup ids
    /\ (exists value, mapGet mapper swaggerFile = Some value /\ incl ids value)
    /\ (exists trafficFile s,
          In trafficFile files
          /\ readSample trafficFile = Normal s
          /\ In swaggerFile (matchingSwaggerFiles mapper s)).

(** How the body of the loop takes the state [st] to [st'] on the file
    [trafficFile]: it touches neither the specification map nor the
    report, records the operation of the sample for some of the matching
    specification files, and pushes records of that file only. *)
Definition stepsTo (trafficFile : string) (st st' : State) : Prop :=
  operationSpecMapper st' = operationSpecMapper st
  /\ operationCoverageResult st' = operationCoverageResult st
  /\ trafficFiles st' = trafficFiles st
  /\ (exists added,
        trafficValidationResult st' = trafficValidationResult st ++ added
        /\ Forall (fromFailedSample [trafficFile]) added)
  /\ (trafficOperation st' = trafficOperation st
      \/ exists s visited,
           readSample trafficFile = Normal s
           /\ incl visited (matchingSwaggerFiles (operationSpecMapper st) s)
           /\ trafficOperation st'
              = fold_left (fun m swaggerFile =>
                             recordOperation m swaggerFile (operationId (opInfo s)))
                  visited (trafficOperation st)).

(** The three lists of a coverage record are in order, and its batches are
    groups with distinct keys. *)
Definition listsSorted (r : OperationCoverageInfo) : Prop :=
  Sorted operationIdLe (map meta_operationId (coveredOperationsList r))
  /\ Sorted operationIdLe (map inner_operationId (unCoveredOperationsList r))
  /\ StronglySorted batchLe (unCoveredOperationsListGen r)
  /\ Forall isGroup (unCoveredOperationsListGen r)
  /\ List.NoDup (map batchKey (unCoveredOperationsListGen r)).

End Validate.

End TrafficValidator.

(** ** The rules as the specification words them *)

Module Spec.



(** One of the three polling headers is present and not empty. *)
Definition hasPollingHeader (headers : gmap string string) : Prop :=
  exists name value,
    In name ["location"; "azure-AsyncOperation"; "azure-asyncoperation"]
    /\ headers !! name = Some value /\ value <> "".

(** A path strictly below the body root. *)
Definition belowBodyRoot (path : string) : bool :=
  Js.startsWith path ".body" && (5 <? String.length path)%nat.

Section Table.
Context `{Imports}.


Definition lroResponseHeader (operation : Operation) : LiveValidationIssue :=
  issueFromErrorCode "LRO_RESPONSE_HEADER"
    [("header", Some "location or azure-AsyncOperation")]
    (Some (responses operation)).

(** The issue carries [newCode], the message generated from it with
    the missing property as argument, and its severity. *)
Definition regenerated (issue : LiveValidationIssue) (missing : option string)
    (newCode : string) : Prop :=
  code issue = newCode
  /\ message issue = getValidateErrorMessage newCode [("missingProperty", missing)]
  /\ severity_ issue = severity (errorCodeToErrorMetadata newCode).

End Table.

End Spec.

(** ** Example data *)

Module Fixture.

Definition severityOf (code : string) : Severity :=
  if String.eqb code "INVALID_RESPONSE_CODE" then 0%nat
  else if String.eqb code "OBJECT_MISSING_REQUIRED_PROPERTY" then 0%nat
  else if String.eqb code "INVALID_CONTENT_TYPE" then 2%nat
  else 1%nat.

Definition renderParam (p : string * option string) : string :=
  fst p +:+ "=" +:+ Js.interpolate (snd p).

#[export] Instance imports : Imports := {|
  errorCodeToErrorMetadata code :=
    {| severity := severityOf code; docUrl := "docs/" +:+ code |};
  getValidateErrorMessage code param :=
    code +:+ ": " +:+ Js.join ", " (map renderParam param);
  jsonPathToPointer path := path;
  schemaSourceLocation _ := {| url := ""; jsonRef := None; position := None |}
|}.

Definition okResponse : Response :=
  {| schema := Some (JObj []); rsp_headerTransform := None;
     rsp_validate := Some (fun _ _ => []) |}.

Definition errorResponse : Response :=
  {| schema := None; rsp_headerTransform := None;
     rsp_validate := Some (fun _ _ => []) |}.

(** An operation that declares only [200] and [default]. *)
Definition operationOf (method : string) (lro : option bool) : Operation :=
  {| x_ms_long_running_operation := lro;
     _method := method;
     responses := <["200" := okResponse]> (<["default" := errorResponse]> ∅);
     consumes := ["application/json"];
     produces := ["application/json"];
     _filePath := "specification/compute/2020-06-01/compute.json" |}.

Definition contextOf (op : Operation) : OperationContext :=
  {| operationId := "VirtualMachines_Delete";
     apiVersion := "2020-06-01";
     operationMatch := Some {| pathMatch := []; operation := op |};
     validationRequest := None |}.

Definition responseOf (status : string) (hs : RawHeaders) : LiveResponse :=
  {| statusCode := status; headers := Some hs; body := None |}.

Definition requestContext : SchemaValidateContext :=
  {| SchemaValidator.isResponse := false;
     SchemaValidator.includeErrors := None;
     SchemaValidator.statusCode := None;
     SchemaValidator.httpMethod := None |}.

Definition responseContext (status method : string) : SchemaValidateContext :=
  {| SchemaValidator.isResponse := true;
     SchemaValidator.includeErrors := None;
     SchemaValidator.statusCode := Some status;
     SchemaValidator.httpMethod := Some method |}.

Definition missingProperty (path property : string) : SchemaValidateIssue :=
  {| SchemaValidator.code := "OBJECT_MISSING_REQUIRED_PROPERTY";
     SchemaValidator.message := "Missing required property: " +:+ property;
     SchemaValidator.schemaPath := "required";
     SchemaValidator.jsonPathsInPayload := [path];
     SchemaValidator.source := {| url := ""; jsonRef := None; position := None |};
     SchemaValidator.params := [property] |}.

Definition invalidType (path : string) : SchemaValidateIssue :=
  {| SchemaValidator.code := "INVALID_TYPE";
     SchemaValidator.message := "Expected type string but found type integer";
     SchemaValidator.schemaPath := "type";
     SchemaValidator.jsonPathsInPayload := [path];
     SchemaValidator.source := {| url := ""; jsonRef := None; position := None |};
     SchemaValidator.params := ["string"; "integer"] |}.

Definition pollingHeaders : gmap string string :=
  {[ "location" := "https://management.azure.com/operations/1" ]}.

Definition deleteLro : Operation := operationOf "delete" (Some true).

End Fixture.

Module TrafficFixture.
Import TrafficValidator.

Definition computeSpec : string :=
  "specification/compute/resource-manager/Microsoft.Compute/stable/2020-06-01/compute.json".

Definition emptySpec : string :=
  "specification/compute/resource-manager/Microsoft.Compute/stable/2020-06-01/empty.json".

Definition mapper : list (string * list string) :=
  [(computeSpec, ["VirtualMachines_Get"; "VirtualMachines_Delete"; "Disks_Get";
                  "Disks_List"; "Images_Get"]);
   (emptySpec, [])].

(** What the operation search returns for a request it matches. *)
Definition matchedOperation : OperationMatch :=
  {| pathMatch := ["/providers/Microsoft.Compute/virtualMachines/vm1"; "vm1"];
     operation := Fixture.operationOf "get" None |}.

Definition operationContext (opId : string) : OperationContext :=
  {| operationId := opId;
     apiVersion := "2020-06-01";
     operationMatch := Some matchedOperation;
     validationRequest :=
       Some {| providerNamespace := "microsoft.compute";
               resourceType := "virtualMachines";
               requestMethod := "get";
               requestUrl := "https://management.azure.com/providers/Microsoft.Compute" |} |}.

Definition passed (opId : string) : ValidationResult :=
  {| isSuccessful := Some true; vr_operationInfo := Some (operationContext opId);
     vr_errors := []; vr_runtimeException := None |}.

Definition failed (opId : string) : ValidationResult :=
  {| isSuccessful := Some false; vr_operationInfo := Some (operationContext opId);
     vr_errors := [@issueFromErrorCode Fixture.imports "INVALID_RESPONSE_CODE"
                     [("statusCode", Some "301")] None];
     vr_runtimeException := None |}.

Definition sampleOf (opId : string) (response : ValidationResult) : Sample :=
  {| liveRequestUrl := "https://management.azure.com/providers/Microsoft.Compute";
     validationResult :=
       {| requestValidationResult := passed opId;
          responseValidationResult := response;
          runtimeException := None |};
     opInfo := operationContext opId;
     liveRequestResponsePosition := Some (2%Z, 3%Z) |}.

(** The context of a request that the operation search does not match:
    it carries no operation match. *)
Definition unknownContext : OperationContext :=
  {| operationId := "unknownOperationId";
     apiVersion := "unknown-api-version";
     operationMatch := None;
     validationRequest := None |}.

Definition notFound : ValidationResult :=
  {| isSuccessful := None; vr_operationInfo := Some unknownContext;
     vr_errors := [];
     vr_runtimeException :=
       Some {| code := "OPERATION_NOT_FOUND_IN_CACHE";
               message := "Could not find operation";
               spec := None |} |}.

Definition unknownSample : Sample :=
  {| liveRequestUrl := "https://management.azure.com/providers/Microsoft.Unknown";
     validationResult :=
       {| requestValidationResult := notFound;
          responseValidationResult := notFound;
          runtimeException := None |};
     opInfo := unknownContext;
     liveRequestResponsePosition := Some (2%Z, 3%Z) |}.

Definition corrupt : Js.Error :=
  {| Js.errMessage := Some "Unexpected token } in JSON at position 42";
     Js.errStack := None |}.

Definition circular : Js.Error :=
  {| Js.errMessage := Some "Converting circular structure to JSON";
     Js.errStack := None |}.

Definition compareStrings (a b : string) : Z :=
  match String.compare a b with
  | Lt => (-1)%Z
  | Eq => 0%Z
  | Gt => 1%Z
  end.

(** A comparison that ignores case, as the collation of [localeCompare]
    does before anything else: it puts [alpha] before [Zeta]. *)
Definition collate (a b : string) : Z :=
  compareStrings (Js.toLowerCase a) (Js.toLowerCase b).

#[export] Instance host : Host := {|
  readSample file :=
    if String.eqb file "a.json" then Normal (sampleOf "VirtualMachines_Get" (failed "VirtualMachines_Get"))
    else if String.eqb file "c.json" then Normal (sampleOf "VirtualMachines_Delete" (failed "VirtualMachines_Delete"))
    else if String.eqb file "ok.json" then Normal (sampleOf "Disks_Get" (passed "Disks_Get"))
    else if String.eqb file "new.json" then Normal (sampleOf "Snapshots_Get" (passed "Snapshots_Get"))
    else if String.eqb file "unknown1.json" then Normal unknownSample
    else if String.eqb file "unknown2.json" then Normal unknownSample
    else Throw corrupt;
  swaggerLoad _ := Normal (JObj []);
  operationIdPositionIn _ _ := Normal (Some (1%Z, 1%Z));
  getApiVersionFromFilePath _ := "2020-06-01";
  localeCompare := collate;
  circularStructure _ := circular;
  RUNTIME_ERROR := "RUNTIME_ERROR"
|}.


(** A run over three files that are all read. *)
Definition complete : State := initialized ["a.json"; "ok.json"; "c.json"] mapper.


(** A specification whose uncovered operations differ in the case of their
    first letter. *)
Definition mixedCase : State :=
  initialized ["a.json"]
    [(computeSpec, ["VirtualMachines_Get"; "Zeta_Get"; "alpha_List"])].

(** A specification with an uncovered operation whose identifier starts
    with the name of a property of [Object.prototype]. *)
Definition inheritedKey : State :=
  initialized ["a.json"]
    [(computeSpec, ["VirtualMachines_Get"; "constructor_Get"]); (emptySpec, ["Disks_Get"])].

End TrafficFixture.


(** ** The request orchestrator *)

Module Request.

(** A value of a parsed query string. *)
Inductive QueryValue :=
| QString (s : string)
| QArray (l : list string).

Record ValidatePayload := {
  path : gmap string string;
  body : option Json;
  headers : gmap string string;
  query : option (gmap string QueryValue)
}.

Definition Validator := SchemaValidateContext -> ValidatePayload -> list SchemaValidateIssue.

(** The fields of an operation that request validation reads beside those
    of [Operation], which [shared] holds. *)
Record RequestOperation := {
  shared : Operation;
  _validate : option Validator;
  _queryTransform : option (list (string * TransformFn));
  _headerTransform : option (list (string * TransformFn));
  _bodyTransform : option (option Json -> option Json)
}.

(** [info.operationMatch] of a request: [_keys] is [pathRegex._keys]. *)
Record OperationMatch := {
  _keys : list (option string);
  pathMatch : list string;
  matched : RequestOperation
}.

Record LiveRequest := {
  liveQuery : option (gmap string QueryValue);
  url : string;
  method : string;
  liveHeaders : option RawHeaders;
  liveBody : option Json
}.

Record Loader := {
  getRequestValidator : RequestOperation -> Validator
}.

(** [decodeURIComponent] throws on a malformed escape sequence. *)
Class Builtins := {
  decodeURIComponent : string -> Completion string
}.

Section Orchestrator.
Context `{Imports} `{Builtins}.

(** Lines 166-182 on a parsed query: a string is transformed, an array is
    transformed element by element, an absent key is left absent. *)
Definition transformQuery (data : option (gmap string QueryValue))
    (transforms : option (list (string * TransformFn)))
    : option (gmap string QueryValue) :=
  match transforms, data with
  | Some ts, Some d =>
      Some (fold_left
              (fun d kt =>
                 match d !! fst kt with
                 | Some (QString val) => <[fst kt := QString (snd kt val)]> d
                 | Some (QArray val) => <[fst kt := QArray (map (snd kt) val)]> d
                 | None => d
                 end)
              ts d)
  | _, _ => data
  end.

(** Lines 150-152. *)
Definition transformBodyValue (body : option Json) (operation : RequestOperation)
    : option Json :=
  match _bodyTransform operation with
  | None => body
  | Some transform => transform body
  end.

(** The loop of lines 75-79 from index [idx], over the captures that are
    left. *)
Fixpoint pathParamsFrom (keys : list (option string)) (idx : nat) (captures : list string)
    (pathParam : gmap string string) : Completion (gmap string string) :=
  match captures with
  | [] => Normal pathParam
  | capture :: rest =>
      match keys !! idx with
      | Some (Some name) =>
          match decodeURIComponent capture with
          | Throw e => Throw e
          | Normal value => pathParamsFrom keys (S idx) rest (Js.assign name value pathParam)
          end
      | _ => pathParamsFrom keys (S idx) rest pathParam
      end
  end.

(** Lines 73-79: the loop starts at index 1. *)
Definition extractPathParams (keys : list (option string)) (pathMatch : list string)
    : Completion (gmap string string) :=
  pathParamsFrom keys 1 (drop 1 pathMatch) ∅.

Definition noRequestMatch : Js.Error :=
  {| Js.errMessage := Some "Cannot destructure property 'pathRegex' of 'info.operationMatch' as it is undefined.";
     Js.errStack := None |}.

(** Lines 64-70. *)
Definition requestValidator (operation : RequestOperation) (loader : option Loader)
    : Completion Validator :=
  match _validate operation with
  | Some validate => Normal validate
  | None =>
      match loader with
      | None => Throw noLoader
      | Some ld => Normal (getRequestValidator ld operation)
      end
  end.

Definition requestContext (includeErrors : option (list string)) : SchemaValidateContext :=
  {| SchemaValidator.isResponse := false;
     SchemaValidator.includeErrors := includeErrors;
     SchemaValidator.statusCode := None;
     SchemaValidator.httpMethod := None |}.

(** Lines 54-95; [operationMatch] is [info.operationMatch]. *)
Definition validateSwaggerLiveRequest (request : LiveRequest)
    (operationMatch : option OperationMatch) (loader : option Loader)
    (includeErrors : option (list string)) : Completion (list LiveValidationIssue) :=
  match operationMatch with
  | None => Throw noRequestMatch
  | Some om =>
      let operation := matched om in
      let result : list LiveValidationIssue := [] in
      match requestValidator operation loader with
      | Throw e => Throw e
      | Normal validate =>
          match extractPathParams (_keys om) (pathMatch om) with
          | Throw e => Throw e
          | Normal pathParam =>
              let query := transformQuery (liveQuery request) (_queryTransform operation) in
              let headers :=
                transformLiveHeader (default [] (liveHeaders request))
                  (_headerTransform operation) in
              let result1 :=
                validateContentType (consumes (shared operation)) headers true result in
              let ctx := requestContext includeErrors in
              let errors :=
                validate ctx {| path := pathParam;
                                body := transformBodyValue (liveBody request) operation;
                                headers := headers;
                                query := query |} in
              Normal (schemaValidateIssueToLiveValidationIssue errors (shared operation)
                        ctx result1)
          end
      end
  end.

End Orchestrator.

End Request.

(** ** The specification map built by [initialize] *)

Module Initialize.
Import TrafficValidator.

(** [loader.load(pathResolve(swaggerPath))] on a specification path, and the
    [operationId] of every operation that [traverseSwagger] visits in the
    loaded document, in the order of the visit. *)
Class SpecLoader := {
  load : string -> Completion Json;
  visitedOperationIds : Json -> list (option string)
}.

(** [Map.prototype.set] on the iterated map: an existing key keeps its
    place. *)
Fixpoint mapSet {V : Type} (m : list (string * V)) (k : string) (v : V)
    : list (string * V) :=
  match m with
  | [] => [(k, v)]
  | (k', v') :: rest =>
      if String.eqb k' k then (k, v) :: rest else (k', v') :: mapSet rest k v
  end.

Section Mapper.
Context `{SpecLoader}.

(** The [onOperation] callback of lines 160-167 on the array that the map
    holds for the specification. *)
Definition onOperation (ids : list string) (operationId : option string) : list string :=
  match operationId with
  | Some id => if Js.arrayIncludes ids id then ids else ids ++ [id]
  | None => ids
  end.

(** One round of the loop of lines 142-170. A specification that fails to
    load is reported on the console and skipped. *)
Definition registerSpec (mapper : list (string * list string)) (swaggerPath : string)
    : list (string * list string) :=
  match load swaggerPath with
  | Throw _ => mapper
  | Normal doc =>
      let ids := match mapGet mapper swaggerPath with
                 | None => []
                 | Some ids => ids
                 end in
      mapSet mapper swaggerPath (fold_left onOperation (visitedOperationIds doc) ids)
  end.

(** [operationSpecMapper] after the loop over [swaggerList]. *)
Definition buildOperationSpecMapper (swaggerList : list string)
    (mapper : list (string * list string)) : list (string * list string) :=
  fold_left registerSpec swaggerList mapper.

End Mapper.

End Initialize.

(** ** Notions used to state further properties *)

Module Rules.

(** A path under the body, anchored at the root of the body: [.body]
    becomes [$]. Other paths are left as they are. *)
Definition rootAnchored (path : string) : string :=
  if Js.startsWith path ".body" then "$" +:+ Js.substr 5 path else path.

(** The entry that the classifier leaves for the raw path [raw]. *)
Definition entryOf (raw entry : string) : Prop :=
  entry = raw \/ (Js.startsWith raw ".body" = true /\ entry = "$" +:+ Js.substr 5 raw).

(** The code of an issue that the long-running-operation check emits. *)
Definition isLroCode (c : string) : Prop :=
  c = "LRO_RESPONSE_CODE" \/ c = "LRO_RESPONSE_HEADER".

(** The code of an issue that the orchestrators emit before the schema
    issues. *)
Definition isProtocolCode (c : string) : Prop :=
  c = "INVALID_CONTENT_TYPE" \/ isLroCode c.

(** The names of the declared transforms are distinct, as the keys of an
    object are. *)
Definition distinctNames (transforms : option (list (string * TransformFn))) : Prop :=
  match transforms with
  | Some ts => List.NoDup (map fst ts)
  | None => True
  end.

(** The value [v] of the field [k] after the transform declared for [k],
    if there is one. *)
Definition transformedBy (transforms : option (list (string * TransformFn)))
    (k v : string) : string :=
  match transforms with
  | Some ts =>
      match TrafficValidator.mapGet ts k with
      | Some transform => transform v
      | None => v
      end
  | None => v
  end.

(** The validator of a response definition: the cached one, else the one
    the loader builds. *)
Definition responseValidatorOf (rsp : Response) (loader : option LiveValidatorLoader)
    : option Validator :=
  match rsp_validate rsp with
  | Some validate => Some validate
  | None =>
      match loader with
      | Some ld => Some (getResponseValidator ld rsp)
      | None => None
      end
  end.

(** The context in which the schema issues of a response are classified. *)
Definition responseContextOf (response : LiveResponse) (operation : Operation)
    (includeErrors : option (list string)) : SchemaValidateContext :=
  {| SchemaValidator.isResponse := true;
     SchemaValidator.includeErrors := includeErrors;
     SchemaValidator.statusCode := Some (statusCode response);
     SchemaValidator.httpMethod := Some (_method operation) |}.

End Rules.

Module CoverageRules.
Import TrafficValidator.

Section Rules.
Context `{Host}.

(** The record, if any, that the callback of the rollup pushes for one
    entry of [operationSpecMapper]. *)
Definition reportEntry (st : State) (entry : string * list string)
    : list OperationCoverageInfo :=
  match trafficOperation st !! fst entry with
  | Some validatedOperations =>
      if negb (length (snd entry) =? 0)%nat
      then match coverageInfo (fst entry) (snd entry) validatedOperations
                   (match validationFailOperations st !! fst entry with
                    | None => O
                    | Some failed => length failed
                    end) with
           | Normal r => [r]
           | Throw _ => []
           end
      else []
  | None => []
  end.

(** The entry was matched by a sample and one of its operations that no
    sample covers has, before its first underscore, the name of a property
    that objects inherit. *)
Definition inheritedGroup (st : State) (entry : string * list string) : Prop :=
  exists validatedOperations element,
    trafficOperation st !! fst entry = Some validatedOperations
    /\ In element (unValidated (snd entry) validatedOperations)
    /\ Js.inherited (groupKey element) = true.

(** The sample of the file is read and matches no specification file. *)
Definition isUndefinedSample (mapper : list (string * list string)) (trafficFile : string)
    : bool :=
  match readSample trafficFile with
  | Normal s =>
      match matchingSwaggerFiles mapper s with
      | [] => true
      | _ :: _ => false
      end
  | Throw _ => false
  end.

(** The record that a failing sample leaves for one matching
    specification file. *)
Definition failureRecord (trafficFile : string) (s : Sample) (swaggerFile : string)
    : TrafficValidationIssue :=
  {| specFilePath := Some swaggerFile;
     payloadFilePath := Some trafficFile;
     payloadFilePathPosition := liveRequestResponsePosition s;
     errors := Some (collectErrors (validationResult s));
     runtimeExceptions := Some (collectRuntimeExceptions (validationResult s));
     operationInfo := vr_operationInfo (requestValidationResult (validationResult s)) |}.

(** Every operation recorded as failed for a specification file is
    recorded as covered for it, and no list holds an identifier twice. *)
Definition FailedAmongCovered (st : State) : Prop :=
  (forall swaggerFile opId,
      recorded (validationFailOperations st) swaggerFile opId ->
      recorded (trafficOperation st) swaggerFile opId)
  /\ (forall swaggerFile ids,
        validationFailOperations st !! swaggerFile = Some ids -> List.NoDup ids)
  /\ (forall swaggerFile ids,
        trafficOperation st !! swaggerFile = Some ids -> List.NoDup ids).

(** From [st] to [st'] no recorded operation is lost, and the bookkeeping
    invariant is kept. *)
Definition Grows (st st' : State) : Prop :=
  (forall swaggerFile opId,
      recorded (trafficOperation st) swaggerFile opId ->
      recorded (trafficOperation st') swaggerFile opId)
  /\ (forall swaggerFile opId,
        recorded (validationFailOperations st) swaggerFile opId ->
        recorded (validationFailOperations st') swaggerFile opId)
  /\ (FailedAmongCovered st -> FailedAmongCovered st').

End Rules.

End CoverageRules.

Module InitializeRules.
Import TrafficValidator Initialize.

Section Rules.
Context `{SpecLoader}.

(** The map holds, for the specification paths of [processed] that load,
    and for no other path, the operation identifiers visited in the loaded
    document, each once. *)
Definition Registered (processed : list string) (mapper : list (string * list string))
    : Prop :=
  List.NoDup (map fst mapper)
  /\ (forall swaggerPath ids,
        mapGet mapper swaggerPath = Some ids ->
        In swaggerPath processed
        /\ List.NoDup ids
        /\ exists doc,
             load swaggerPath = Normal doc
             /\ forall id, In id ids <-> In (Some id) (visitedOperationIds doc))
  /\ (forall swaggerPath doc,
        In swaggerPath processed ->
        load swaggerPath = Normal doc ->
        is_Some (mapGet mapper swaggerPath)).

End Rules.

End InitializeRules.

Module RequestRules.
Import Request.

(** The value [v] of the query field [k] after the transform declared for
    [k], if there is one: a string is transformed, an array is transformed
    element by element. *)
Definition transformedValue (transforms : option (list (string * TransformFn)))
    (k : string) (v : QueryValue) : QueryValue :=
  match transforms with
  | Some ts =>
      match TrafficValidator.mapGet ts k with
      | Some transform =>
          match v with
          | QString val => QString (transform val)
          | QArray val => QArray (map transform val)
          end
      | None => v
      end
  | None => v
  end.

Section Rules.
Context `{Builtins}.

(** The capture group at index [i] of the match, from index 1 on, has the
    name [name] in [keys] and the text [capture]. *)
Definition namedCapture (keys : list (option string)) (pathMatch : list string)
    (i : nat) (name capture : string) : Prop :=
  (1 <= i)%nat /\ keys !! i = Some (Some name) /\ pathMatch !! i = Some capture.

(** The named capture at index [i] is the first that [decodeURIComponent]
    rejects, and [e] is what it throws there. *)
Definition firstFailure (keys : list (option string)) (pathMatch : list string)
    (i : nat) (e : Js.Error) : Prop :=
  (exists name capture,
      namedCapture keys pathMatch i name capture
      /\ decodeURIComponent capture = Throw e)
  /\ (forall j name capture,
        (j < i)%nat ->
        namedCapture keys pathMatch j name capture ->
        exists value, decodeURIComponent capture = Normal value).

End Rules.

End RequestRules.

Module ReportingRules.
Import TrafficValidator.

(** Every specification file for which an operation is recorded as failed
    has a record in the result list that names it and a traffic file. *)
Definition FailuresReported (st : State) : Prop :=
  forall swaggerFile opId,
    recorded (validationFailOperations st) swaggerFile opId ->
    exists record,
      In record (trafficValidationResult st)
      /\ specFilePath record = Some swaggerFile
      /\ is_Some (payloadFilePath record).

End ReportingRules.

(** ** Example data for the request side and for [initialize] *)

Module ExtraFixture.

Definition uriError : Js.Error :=
  {| Js.errMessage := Some "URI malformed"; Js.errStack := None |}.

(** A decoder that rejects a lone percent sign and returns any other text
    as it is. *)
#[export] Instance builtins : Request.Builtins := {|
  Request.decodeURIComponent capture :=
    if String.eqb capture "%" then Throw uriError else Normal capture
|}.

Definition putOperation : Request.RequestOperation :=
  {| Request.shared := Fixture.operationOf "put" None;
     Request._validate := Some (fun _ _ => [Fixture.missingProperty ".body" "body"]);
     Request._queryTransform := None;
     Request._headerTransform := None;
     Request._bodyTransform := None |}.

Definition uncompiledOperation : Request.RequestOperation :=
  {| Request.shared := Fixture.operationOf "put" None;
     Request._validate := None;
     Request._queryTransform := None;
     Request._headerTransform := None;
     Request._bodyTransform := None |}.

(** A response definition whose validator is not compiled yet, and an
    operation that declares it for [200]. *)
Definition lazyResponse : Response :=
  {| schema := Some (JObj []); rsp_headerTransform := None; rsp_validate := None |}.

Definition lazyOperation : Operation :=
  {| x_ms_long_running_operation := None;
     _method := "get";
     responses := <["200" := lazyResponse]> ∅;
     consumes := ["application/json"];
     produces := ["application/json"];
     _filePath := "specification/compute/2020-06-01/compute.json" |}.

Definition matchOf (operation : Request.RequestOperation) (captures : list string)
    : Request.OperationMatch :=
  {| Request._keys := [None; Some "subscriptionId"; Some "vmName"];
     Request.pathMatch := captures;
     Request.matched := operation |}.

Definition captures : list string :=
  ["/subscriptions/s1/virtualMachines/vm1"; "s1"; "vm1"].

Definition requestOf (hs : RawHeaders) : Request.LiveRequest :=
  {| Request.liveQuery := None;
     Request.url := "https://management.azure.com/subscriptions/s1/virtualMachines/vm1";
     Request.method := "PUT";
     Request.liveHeaders := Some hs;
     Request.liveBody := None |}.

Definition upperCase : TransformFn := fun v => v +:+ "!".

Definition etagTransform : option (list (string * TransformFn)) :=
  Some [("etag", upperCase)].

Definition mixedHeaders : RawHeaders :=
  [("ETag", "a"); ("Content-Type", "application/json"); ("etag", "b")].

Definition networkSpec : string :=
  "specification/network/resource-manager/Microsoft.Network/stable/2020-06-01/network.json".

(** Two specification paths load, the second of them listed twice; the
    third does not load. *)
#[export] Instance specLoader : Initialize.SpecLoader := {|
  Initialize.load swaggerPath :=
    if String.eqb swaggerPath TrafficFixture.computeSpec then Normal (JStr "compute")
    else if String.eqb swaggerPath networkSpec then Normal (JStr "network")
    else Throw uriError;
  Initialize.visitedOperationIds doc :=
    match doc with
    | JStr "compute" => [Some "VirtualMachines_Get"; None; Some "VirtualMachines_Get";
                         Some "Disks_Get"; Some "Disks_List"]
    | JStr "network" => [Some "Subnets_List"]
    | _ => []
    end
|}.

Definition swaggerList : list string :=
  [TrafficFixture.computeSpec; networkSpec; "broken.json"; networkSpec].

Definition query : gmap string Request.QueryValue :=
  {[ "api-version" := Request.QString "2020-06-01";
     "tags" := Request.QArray ["a"; "b"] ]}.

Definition tagsTransform : option (list (string * TransformFn)) :=
  Some [("tags", upperCase); ("expand", upperCase)].

(** A state in which one operation is already recorded. *)
Definition resumed : TrafficValidator.State :=
  TrafficValidator.setTrafficOperation
    {[ TrafficFixture.computeSpec := ["Images_Get"] ]}
    TrafficFixture.complete.

(** A run over three samples, two of which the operation search does not
    match. *)
Definition unknownSpecs : TrafficValidator.State :=
  TrafficValidator.initialized ["unknown1.json"; "ok.json"; "unknown2.json"]
    TrafficFixture.mapper.

End ExtraFixture.

(** ** Properties of the JavaScript primitives *)

Section JsFacts.

Lemma arrayIncludes_In (l : list string) (x : string) :
  Js.arrayIncludes l x = true <-> In x l.
Proof.
  unfold Js.arrayIncludes. rewrite existsb_exists. split.
  - intros (y & Hy & Heq). apply String.eqb_eq in Heq. now subst.
  - intros Hin. exists x. split; [assumption | apply String.eqb_refl].
Qed.

Lemma arrayIncludes_not_In (l : list string) (x : string) :
  Js.arrayIncludes l x = false <-> ~ In x l.
Proof.
  rewrite <- arrayIncludes_In. destruct (Js.arrayIncludes l x); split; congruence.
Qed.

Lemma split_avoids (sep : ascii) (s : string) :
  Js.avoids sep s -> Js.split sep s = [s].
Proof.
  induction s as [|c s IH]; simpl; [reflexivity|].
  intros [Hc Hs]. apply Ascii.eqb_neq in Hc. rewrite Hc, (IH Hs). reflexivity.
Qed.

Lemma split_first (sep : ascii) (s rest : string) :
  Js.avoids sep s ->
  Js.split sep (s +:+ String sep rest) = s :: Js.split sep rest.
Proof.
  induction s as [|c s IH]; simpl.
  - intros _. now rewrite Ascii.eqb_refl.
  - intros [Hc Hs]. apply Ascii.eqb_neq in Hc. rewrite Hc, (IH Hs). reflexivity.
Qed.

Lemma split_nonempty (sep : ascii) (s : string) : Js.split sep s <> [].
Proof.
  destruct s as [|c s]; simpl; [discriminate|].
  destruct (Ascii.eqb c sep); [discriminate|].
  destruct (Js.split sep s); discriminate.
Qed.

(** *** [Array.prototype.sort] *)

Section SortFacts.
Context {A : Type} (cmp : A -> A -> Z).
Hypothesis cmp_total : forall a b, (0 < cmp a b)%Z -> (cmp b a <= 0)%Z.

Let le (a b : A) : Prop := (cmp a b <= 0)%Z.

Lemma insertSorted_HdRel y x l :
  le y x -> HdRel le y l -> HdRel le y (Js.insertSorted cmp x l).
Proof.
  intros Hyx Hyl. destruct l as [|z t]; simpl; [now constructor|].
  inversion_clear Hyl. destruct (0 <? cmp x z)%Z; now constructor.
Qed.

Lemma insertSorted_Sorted x l :
  Sorted le l -> Sorted le (Js.insertSorted cmp x l).
Proof.
  induction 1 as [|y t Ht IH Hhd]; simpl; [repeat constructor|].
  destruct (0 <? cmp x y)%Z eqn:E.
  - apply Z.ltb_lt in E. constructor; [exact IH|].
    apply insertSorted_HdRel; [now apply cmp_total | exact Hhd].
  - apply Z.ltb_ge in E. repeat constructor; assumption.
Qed.

Lemma sort_Sorted l : Sorted le (Js.sort cmp l).
Proof.
  induction l as [|x t IH]; simpl; [constructor | now apply insertSorted_Sorted].
Qed.

Lemma insertSorted_Permutation x l : Permutation (Js.insertSorted cmp x l) (x :: l).
Proof.
  induction l as [|y t IH]; simpl; [reflexivity|].
  destruct (0 <? cmp x y)%Z; [|reflexivity].
  rewrite IH. apply perm_swap.
Qed.

Lemma sort_Permutation l : Permutation (Js.sort cmp l) l.
Proof.
  induction l as [|x t IH]; simpl; [reflexivity|].
  now rewrite insertSorted_Permutation, IH.
Qed.
End SortFacts.

Lemma Sorted_map {A B : Type} (f : A -> B) (R : B -> B -> Prop) (l : list A) :
  Sorted (fun a b => R (f a) (f b)) l -> Sorted R (map f l).
Proof.
  induction 1 as [|x t Ht IH Hhd]; simpl; constructor; [exact IH|].
  destruct Hhd; simpl; now constructor.
Qed.

Lemma Sorted_weaken {A : Type} (R R' : A -> A -> Prop) (l : list A) :
  (forall a b, R a b -> R' a b) -> Sorted R l -> Sorted R' l.
Proof.
  intros Himp. induction 1 as [|x t Ht IH Hhd]; constructor; [exact IH|].
  destruct Hhd; constructor; auto.
Qed.

End JsFacts.

Example parseInt_503 : Js.parseInt "503" = Some 503%Z.
Proof. reflexivity. Qed.

Example parseInt_trailing : Js.parseInt " 404 Not Found" = Some 404%Z.
Proof. reflexivity. Qed.

Example parseInt_default : Js.parseInt "default" = None.
Proof. reflexivity. Qed.

Example split_charset :
  Js.split ";"%char "application/json; charset=utf-8" = ["application/json"; " charset=utf-8"].
Proof. reflexivity. Qed.

Example split_empty : Js.split ";"%char "" = [""].
Proof. reflexivity. Qed.

Example toLowerCase_ex : Js.toLowerCase "Azure-AsyncOperation" = "azure-asyncoperation".
Proof. reflexivity. Qed.

Example objectValues_ex :
  Js.objectValues [("b", 1%nat); ("10", 2%nat); ("a", 3%nat); ("9", 4%nat); ("01", 5%nat)]
  = [4%nat; 2%nat; 1%nat; 3%nat; 5%nat].
Proof. reflexivity. Qed.

(** ** Properties of the operation validator *)

Section OperationValidatorFacts.
Context `{Imports}.


Lemma undefinedOrEmpty_false (v : option string) :
  undefinedOrEmpty v = false <-> exists s, v = Some s /\ s <> "".
Proof.
  destruct v as [s|]; simpl.
  - rewrite String.eqb_neq. split; [eauto | intros (s' & [= <-] & Hs); exact Hs].
  - split; [discriminate | intros (s & [=] & _)].
Qed.

Lemma validateLroHeader_ok operation headers result :
  Spec.hasPollingHeader headers -> validateLroHeader operation headers result = result.
Proof.
  intros (name & value & Hin & Hget & Hne).
  assert (Hf : undefinedOrEmpty (headers !! name) = false)
    by (apply undefinedOrEmpty_false; eauto).
  unfold validateLroHeader.
  simpl in Hin. destruct Hin as [<-|[<-|[<-|[]]]]; rewrite Hf;
    rewrite ?andb_false_r; reflexivity.
Qed.

Lemma validateLroHeader_missing operation headers result :
  ~ Spec.hasPollingHeader headers ->
  validateLroHeader operation headers result = result ++ [Spec.lroResponseHeader operation].
Proof.
  intros Hno. unfold validateLroHeader.
  assert (Hk : forall name,
             In name ["location"; "azure-AsyncOperation"; "azure-asyncoperation"] ->
             undefinedOrEmpty (headers !! name) = true).
  { intros name Hin. destruct (undefinedOrEmpty (headers !! name)) eqn:E; [reflexivity|].
    apply undefinedOrEmpty_false in E as (s & Hs & Hne).
    exfalso. apply Hno. exists name, s. auto. }
  rewrite !Hk by (simpl; auto). reflexivity.
Qed.


(** C6. The header check emits nothing when [location],
    [azure-AsyncOperation] or [azure-asyncoperation] is present and not
    empty, and otherwise exactly one "LRO_RESPONSE_HEADER" issue whose
    message argument names "location or azure-AsyncOperation"; so a
    long-running delete answered 202 with a [location] header yields no
    issue, and with none of the three headers exactly that one issue. *)
Theorem lro_header_check operation headers result :
  (Spec.hasPollingHeader headers ->
     validateLroHeader operation headers result = result)
  /\ (~ Spec.hasPollingHeader headers ->
       validateLroHeader operation headers result
       = result ++ [issueFromErrorCode "LRO_RESPONSE_HEADER"
                      [("header", Some "location or azure-AsyncOperation")]
                      (Some (responses operation))])
  /\ (x_ms_long_running_operation operation = Some true ->
       _method operation = "delete" ->
       ((exists value, headers !! "location" = Some value /\ value <> "") ->
          validateLroOperation operation "202" headers [] = [])
       /\ (headers !! "location" = None ->
            headers !! "azure-AsyncOperation" = None ->
            headers !! "azure-asyncoperation" = None ->
            validateLroOperation operation "202" headers []
            = [issueFromErrorCode "LRO_RESPONSE_HEADER"
                 [("header", Some "location or azure-AsyncOperation")]
                 (Some (responses operation))])).
Proof.
  split; [apply validateLroHeader_ok|].
  split; [apply validateLroHeader_missing|].
  intros Hlro Hm. unfold validateLroOperation. rewrite Hlro, Hm. cbn.
  split.
  - intros (value & Hget & Hne). apply validateLroHeader_ok.
    exists "location", value. simpl; auto.
  - intros H1 H2 H3. apply (validateLroHeader_missing operation headers []).
    intros (name & value & Hin & Hget & _).
    simpl in Hin. destruct Hin as [<-|[<-|[<-|[]]]]; congruence.
Qed.

Lemma effectiveContentType_absent headers isRequest :
  headers !! "content-type" = None ->
  effectiveContentType headers isRequest
  = if isRequest then None else Some "application/octet-stream".
Proof. intros Hno. unfold effectiveContentType. now rewrite Hno. Qed.

Lemma effectiveContentType_first headers isRequest value ct :
  headers !! "content-type" = Some value ->
  ct <> "" ->
  Js.avoids ";" ct ->
  (value = ct \/ exists rest, value = ct +:+ String ";" rest) ->
  effectiveContentType headers isRequest = Some ct.
Proof.
  intros Hget Hne Hav Hval. unfold effectiveContentType. rewrite Hget.
  assert (Hs : exists t, Js.split ";" value = ct :: t).
  { destruct Hval as [->|(rest & ->)].
    - exists []. now apply split_avoids.
    - eexists. now apply split_first. }
  destruct Hs as (t & ->). apply String.eqb_neq in Hne. now rewrite Hne.
Qed.

Lemma validateContentType_decided allowed headers isRequest result ct :
  effectiveContentType headers isRequest = Some ct ->
  (In ct allowed -> validateContentType allowed headers isRequest result = result)
  /\ (~ In ct allowed ->
       validateContentType allowed headers isRequest result
       = result ++ [invalidContentType allowed ct]).
Proof.
  intros Heff. unfold validateContentType. rewrite Heff. split; intros Hin.
  - apply arrayIncludes_In in Hin. now rewrite Hin.
  - apply arrayIncludes_not_In in Hin. now rewrite Hin.
Qed.

(** C7. A request without a [content-type] header passes the gate; a
    response without one is checked as [application/octet-stream] and is
    reported exactly when that string is not among the allowed types; a
    header that is present contributes the text before its first [;],
    which is looked up in the allowed list by string equality. *)
Theorem content_type_gate allowed headers result :
  (headers !! "content-type" = None ->
     validateContentType allowed headers true result = result)
  /\ (headers !! "content-type" = None ->
       effectiveContentType headers false = Some "application/octet-stream"
       /\ (In "application/octet-stream" allowed ->
            validateContentType allowed headers false result = result)
       /\ (~ In "application/octet-stream" allowed ->
            validateContentType allowed headers false result
            = result ++ [invalidContentType allowed "application/octet-stream"]))
  /\ (forall value ct isRequest,
         headers !! "content-type" = Some value ->
         ct <> "" ->
         Js.avoids ";" ct ->
         (value = ct \/ exists rest, value = ct +:+ String ";" rest) ->
         effectiveContentType headers isRequest = Some ct
         /\ (In ct allowed ->
              validateContentType allowed headers isRequest result = result)
         /\ (~ In ct allowed ->
              validateContentType allowed headers isRequest result
              = result ++ [invalidContentType allowed ct])).
Proof.
  split; [|split].
  - intros Hno. unfold validateContentType.
    now rewrite (effectiveContentType_absent _ true Hno).
  - intros Hno. pose proof (effectiveContentType_absent _ false Hno) as Heff.
    split; [exact Heff|]. now apply validateContentType_decided.
  - intros value ct isRequest Hget Hne Hav Hval.
    pose proof (effectiveContentType_first _ isRequest _ _ Hget Hne Hav Hval) as Heff.
    split; [exact Heff|]. now apply validateContentType_decided.
Qed.

Lemma inRange_spec lo hi n :
  inRange lo hi n = true <-> exists v, n = Some v /\ (lo <= v <= hi)%Z.
Proof.
  destruct n as [v|]; simpl.
  - rewrite andb_true_iff, !Z.leb_le. split.
    + intros ?. exists v. auto.
    + intros (v' & [= <-] & ?). assumption.
  - split; [discriminate | intros (v & [=] & _)].
Qed.

Lemma getResponse_declared rspDef name :
  Js.inherited name = false -> getResponse rspDef name = rspDef !! name.
Proof. intros Hn. unfold getResponse. rewrite Hn. now destruct (rspDef !! name). Qed.

(** C4 (failing input). An operation declares only [200] and [default].
    The status code [constructor] is declared by no response definition and
    its parsed value is outside 400..599, so no definition resolves; yet
    the call does not return the "INVALID_RESPONSE_CODE" issue:
    [rspDef[statusCode]] reads the property that the object inherits from
    [Object.prototype], which is not [undefined] and has no validator, and
    without a loader the call throws. *)
Theorem inherited_status_code_throws :
  let op := Fixture.operationOf "get" None in
  responses op !! "constructor" = None
  /\ inRange 400 599 (Js.parseInt "constructor") = false
  /\ validateSwaggerLiveResponse (H := Fixture.imports)
       (Fixture.responseOf "constructor" []) (Fixture.contextOf op) None None None
     = Throw noLoader.
Proof. cbv zeta. split_and!; reflexivity. Qed.

(** X26. Response validation of a status code that names no property
    inherited from [Object.prototype] is decided by the declared
    definitions: the definition declared under the status code itself is
    the one the response is checked against, whatever the numeric code is
    (this holds of every status code with a declared definition); without
    one, the response is checked against the definition declared under
    [default] provided the parsed status code lies in 400..599; otherwise
    the call returns the single "INVALID_RESPONSE_CODE" issue whatever the
    loader, the headers and the body are. *)
Theorem response_resolution response info om loader includeErrors isArmCall :
  operationMatch info = Some om ->
  let op := operation om in
  let rspDef := responses op in
  let outcome := validateSwaggerLiveResponse response info loader includeErrors isArmCall in
  (forall rsp,
      rspDef !! statusCode response = Some rsp ->
      outcome = validateAgainst response op rsp loader includeErrors isArmCall)
  /\ (forall rsp,
        Js.inherited (statusCode response) = false ->
        rspDef !! statusCode response = None ->
        inRange 400 599 (Js.parseInt (statusCode response)) = true ->
        rspDef !! "default" = Some rsp ->
        outcome = validateAgainst response op rsp loader includeErrors isArmCall)
  /\ (Js.inherited (statusCode response) = false ->
      rspDef !! statusCode response = None ->
      inRange 400 599 (Js.parseInt (statusCode response)) = false
      \/ rspDef !! "default" = None ->
      outcome = Normal [issueFromErrorCode "INVALID_RESPONSE_CODE"
                          [("statusCode", Some (statusCode response))] (Some rspDef)]).
Proof.
  intros Hom op rspDef outcome. subst outcome.
  unfold validateSwaggerLiveResponse, resolveResponse. rewrite Hom. fold op rspDef.
  cbv zeta. split_and!.
  - intros rsp Hexact. unfold getResponse at 1. now rewrite Hexact.
  - intros rsp Hown Hexact Hrange Hdefault.
    rewrite (getResponse_declared _ _ Hown), Hexact, Hrange.
    unfold getResponse. now rewrite Hdefault.
  - intros Hown Hexact Hnone.
    rewrite (getResponse_declared _ _ Hown), Hexact.
    destruct (inRange 400 599 (Js.parseInt (statusCode response))); [|reflexivity].
    destruct Hnone as [Hr|Hd]; [discriminate|].
    unfold getResponse. rewrite Hd. reflexivity.
Qed.

(** *** The classifier *)

Lemma classifyPaths_app operation ctx st l1 l2 :
  fst (classifyPaths operation ctx st (l1 ++ l2))
  = fst (classifyPaths operation ctx (fst (classifyPaths operation ctx st l1)) l2).
Proof.
  revert st. induction l1 as [|p l1 IH]; intros st; simpl; [reflexivity|].
  destruct (classifyPath operation ctx st p) as [st1 entry].
  specialize (IH st1).
  destruct (classifyPaths operation ctx st1 (l1 ++ l2)) as [st2 entries].
  destruct (classifyPaths operation ctx st1 l1) as [st3 entries3].
  exact IH.
Qed.

Lemma classifyPaths_cons operation ctx st p l :
  fst (classifyPaths operation ctx st (p :: l))
  = fst (classifyPaths operation ctx (fst (classifyPath operation ctx st p)) l).
Proof.
  simpl. destruct (classifyPath operation ctx st p) as [st1 entry]. simpl.
  now destruct (classifyPaths operation ctx st1 l).
Qed.

Lemma classifyPath_below operation ctx st path :
  Spec.belowBodyRoot path = true ->
  fst (classifyPath operation ctx st path) = st.
Proof.
  unfold Spec.belowBodyRoot. intros [Hb Hl]%andb_true_iff.
  unfold classifyPath. destruct st as [issue skip]. rewrite Hb, Hl. reflexivity.
Qed.

Lemma classifyPaths_below operation ctx st paths :
  forallb Spec.belowBodyRoot paths = true ->
  fst (classifyPaths operation ctx st paths) = st.
Proof.
  induction paths as [|p l IH]; [reflexivity|].
  simpl forallb. intros [Hp Hl]%andb_true_iff.
  rewrite classifyPaths_cons, classifyPath_below by assumption. now apply IH.
Qed.

Lemma classifyPath_other operation ctx issue skip path :
  code issue <> "OBJECT_MISSING_REQUIRED_PROPERTY" ->
  fst (classifyPath operation ctx (issue, skip) path) = (issue, skip).
Proof.
  intros Hc%String.eqb_neq. unfold classifyPath. rewrite Hc.
  destruct (Js.startsWith path ".body" && _); reflexivity.
Qed.

Lemma classifyPaths_other operation ctx issue skip paths :
  code issue <> "OBJECT_MISSING_REQUIRED_PROPERTY" ->
  fst (classifyPaths operation ctx (issue, skip) paths) = (issue, skip).
Proof.
  intros Hc. induction paths as [|p l IH]; [reflexivity|].
  now rewrite classifyPaths_cons, classifyPath_other.
Qed.

Lemma classifyPath_skip operation ctx issue path :
  snd (fst (classifyPath operation ctx (issue, true) path)) = true.
Proof.
  unfold classifyPath.
  destruct (Js.startsWith path ".body" && _); [reflexivity|].
  destruct (String.eqb (code issue) _); [|reflexivity].
  destruct (SchemaValidator.isResponse ctx); [|reflexivity].
  destruct (Js.startsWith path ".body");
    [destruct (isLongRunningAccepted operation ctx); reflexivity|].
  destruct (Js.startsWith path ".headers"); reflexivity.
Qed.

Lemma classifyPaths_skip operation ctx issue paths :
  snd (fst (classifyPaths operation ctx (issue, true) paths)) = true.
Proof.
  revert issue. induction paths as [|p l IH]; intros issue; [reflexivity|].
  rewrite classifyPaths_cons.
  pose proof (classifyPath_skip operation ctx issue p) as Hs.
  destruct (fst (classifyPath operation ctx (issue, true) p)) as [issue1 skip1].
  simpl in Hs. subst skip1. apply IH.
Qed.

(** The issue and the flag that [classifyIssue] returns, read off the
    state in which the [map] over the paths ends. *)
Lemma classifyIssue_state operation ctx i :
  let final := fst (classifyPaths operation ctx (attachMetadata i operation, false)
                      (SchemaValidator.jsonPathsInPayload i)) in
  code (fst (classifyIssue operation ctx i)) = code (fst final)
  /\ message (fst (classifyIssue operation ctx i)) = message (fst final)
  /\ severity_ (fst (classifyIssue operation ctx i)) = severity_ (fst final)
  /\ snd (classifyIssue operation ctx i) = snd final.
Proof.
  unfold classifyIssue. cbn [jsonPathsInPayload attachMetadata].
  destruct (classifyPaths operation ctx _ _) as [[issue' skip'] entries].
  simpl. auto.
Qed.

Lemma classifier_app input1 input2 operation ctx output :
  schemaValidateIssueToLiveValidationIssue (input1 ++ input2) operation ctx output
  = schemaValidateIssueToLiveValidationIssue input2 operation ctx
      (schemaValidateIssueToLiveValidationIssue input1 operation ctx output).
Proof.
  revert output. induction input1 as [|i l IH]; intros output; simpl; [reflexivity|].
  destruct (classifyIssue operation ctx i) as [issue skip]. apply IH.
Qed.

Lemma classifier_filter input operation ctx output :
  schemaValidateIssueToLiveValidationIssue input operation ctx output
  = output ++ map fst (List.filter (fun r => negb (snd r))
                         (map (classifyIssue operation ctx) input)).
Proof.
  revert output. induction input as [|i l IH]; intros output; simpl.
  - now rewrite app_nil_r.
  - destruct (classifyIssue operation ctx i) as [issue skip]. rewrite IH.
    destruct skip; simpl; [reflexivity | now rewrite <- app_assoc].
Qed.

Lemma classifyIssue_suppressed operation ctx i :
  SchemaValidator.isResponse ctx = true ->
  isLongRunningAccepted operation ctx = true ->
  SchemaValidator.code i = "OBJECT_MISSING_REQUIRED_PROPERTY" ->
  head (SchemaValidator.jsonPathsInPayload i) = Some ".body" ->
  snd (classifyIssue operation ctx i) = true.
Proof.
  intros Hresp Hlro Hcode Hhead.
  destruct (classifyIssue_state operation ctx i) as (_ & _ & _ & ->).
  destruct (SchemaValidator.jsonPathsInPayload i) as [|p rest]; [discriminate|].
  injection Hhead as ->. rewrite classifyPaths_cons.
  unfold classifyPath at 1. cbn [attachMetadata code]. rewrite Hcode, Hresp, Hlro.
  cbn. apply classifyPaths_skip.
Qed.

(** C3. The classifier pushes the issues it keeps in input order, and it
    keeps none for a "missing required property" issue at the body root
    (first path [.body]) of a response with status 201 or 202 to a
    long-running operation: the output is the one obtained without that
    issue in the input. *)
Theorem lro_accepted_suppressed operation ctx :
  (forall input output,
      schemaValidateIssueToLiveValidationIssue input operation ctx output
      = output ++ map fst (List.filter (fun r => negb (snd r))
                             (map (classifyIssue operation ctx) input)))
  /\ (forall i before after output,
        SchemaValidator.isResponse ctx = true ->
        x_ms_long_running_operation operation = Some true ->
        (SchemaValidator.statusCode ctx = Some "201"
         \/ SchemaValidator.statusCode ctx = Some "202") ->
        SchemaValidator.code i = "OBJECT_MISSING_REQUIRED_PROPERTY" ->
        head (SchemaValidator.jsonPathsInPayload i) = Some ".body" ->
        schemaValidateIssueToLiveValidationIssue (before ++ i :: after) operation ctx output
        = schemaValidateIssueToLiveValidationIssue (before ++ after) operation ctx output).
Proof.
  split; [intros; apply classifier_filter|].
  intros i before after output Hresp Hlro Hstatus Hcode Hhead.
  assert (Hacc : isLongRunningAccepted operation ctx = true).
  { unfold isLongRunningAccepted. rewrite Hlro. now destruct Hstatus as [->| ->]. }
  pose proof (classifyIssue_suppressed operation ctx i Hresp Hacc Hcode Hhead) as Hskip.
  rewrite !classifier_app. simpl.
  destruct (classifyIssue operation ctx i) as [issue skip]. simpl in Hskip.
  now subst skip.
Qed.

Lemma startsWith_headers_not_body path :
  Js.startsWith path ".headers" = true -> Js.startsWith path ".body" = false.
Proof.
  destruct path as [|c1 [|c2 rest]]; simpl; try discriminate.
  - rewrite andb_false_r. discriminate.
  - intros [H1 [H2 _]%andb_true_iff]%andb_true_iff.
    apply Ascii.eqb_eq in H2. subst c2. rewrite H1. reflexivity.
Qed.

Lemma classifyIssue_reclassified operation ctx i before path after newCode :
  SchemaValidator.code i = "OBJECT_MISSING_REQUIRED_PROPERTY" ->
  SchemaValidator.jsonPathsInPayload i = before ++ path :: after ->
  forallb Spec.belowBodyRoot before = true ->
  newCode <> "OBJECT_MISSING_REQUIRED_PROPERTY" ->
  (forall skip,
      exists skip',
        fst (classifyPath operation ctx (attachMetadata i operation, skip) path)
        = (setSeverityMessage
             (severity (errorCodeToErrorMetadata newCode))
             (getValidateErrorMessage newCode
                [("missingProperty", head (SchemaValidator.params i))])
             (setCode newCode (attachMetadata i operation)), skip')) ->
  Spec.regenerated (fst (classifyIssue operation ctx i)) (head (SchemaValidator.params i)) newCode.
Proof.
  intros Hcode Hpaths Hbefore Hnew Hstep.
  destruct (classifyIssue_state operation ctx i) as (Hc & Hm & Hs & _).
  unfold Spec.regenerated. rewrite Hc, Hm, Hs. clear Hc Hm Hs.
  rewrite Hpaths, classifyPaths_app.
  rewrite (classifyPaths_below _ _ _ before) by assumption.
  rewrite classifyPaths_cons.
  destruct (Hstep false) as (skip' & ->).
  rewrite classifyPaths_other by (simpl; exact Hnew).
  simpl. auto.
Qed.

(** C2 (amended). A "missing required property" issue is reclassified at
    its first path that does not lie strictly below the body root: in a
    response the code becomes "INVALID_RESPONSE_BODY" when that path is
    the body root and "INVALID_RESPONSE_HEADER" when it lies under the
    headers; in a request it becomes "MISSING_REQUIRED_PARAMETER"; the
    message is regenerated from the new code with the missing property
    as argument and the severity is that of the new code. An issue all of
    whose paths lie strictly below the body root keeps its code. *)
Theorem missing_required_reclassified operation ctx i :
  SchemaValidator.code i = "OBJECT_MISSING_REQUIRED_PROPERTY" ->
  (forall before path after,
      SchemaValidator.jsonPathsInPayload i = before ++ path :: after ->
      forallb Spec.belowBodyRoot before = true ->
      let issue := fst (classifyIssue operation ctx i) in
      let missing := head (SchemaValidator.params i) in
      (SchemaValidator.isResponse ctx = true -> path = ".body" ->
         Spec.regenerated issue missing "INVALID_RESPONSE_BODY")
      /\ (SchemaValidator.isResponse ctx = true -> Js.startsWith path ".headers" = true ->
           Spec.regenerated issue missing "INVALID_RESPONSE_HEADER")
      /\ (SchemaValidator.isResponse ctx = false -> Spec.belowBodyRoot path = false ->
           Spec.regenerated issue missing "MISSING_REQUIRED_PARAMETER"))
  /\ (forallb Spec.belowBodyRoot (SchemaValidator.jsonPathsInPayload i) = true ->
       code (fst (classifyIssue operation ctx i)) = "OBJECT_MISSING_REQUIRED_PROPERTY").
Proof.
  intros Hcode. split.
  - intros before path after Hpaths Hbefore issue missing.
    split; [|split].
    + intros Hresp ->.
      apply (classifyIssue_reclassified operation ctx i before ".body" after);
        try assumption; [discriminate|].
      intros skip. unfold classifyPath. cbn [attachMetadata code].
      rewrite Hcode, Hresp. cbn. eauto.
    + intros Hresp Hh.
      apply (classifyIssue_reclassified operation ctx i before path after);
        try assumption; [discriminate|].
      intros skip. unfold classifyPath. cbn [attachMetadata code].
      rewrite Hcode, Hresp, Hh, (startsWith_headers_not_body _ Hh). cbn. eauto.
    + intros Hreq Hpath.
      apply (classifyIssue_reclassified operation ctx i before path after);
        try assumption; [discriminate|].
      intros skip. unfold classifyPath. cbn [attachMetadata code].
      rewrite Hcode, Hreq. unfold Spec.belowBodyRoot in Hpath.
      rewrite String.eqb_refl. cbn [negb].
      rewrite orb_false_r, Hpath. cbn. eauto.
  - intros Hall.
    destruct (classifyIssue_state operation ctx i) as (-> & _).
    rewrite classifyPaths_below by assumption. exact Hcode.
Qed.

(** *** Header normalization *)

Lemma toLowerChar_not_upper_A (c : ascii) : Js.toLowerChar c <> "A"%char.
Proof. destruct c as [[] [] [] [] [] [] [] []]; vm_compute; discriminate. Qed.

Lemma toLowerCase_not_AsyncOperation (name : string) :
  Js.toLowerCase name <> "azure-AsyncOperation".
Proof.
  destruct name as [|c0 [|c1 [|c2 [|c3 [|c4 [|c5 [|c6 rest]]]]]]]; simpl; try discriminate.
  intros [= _ _ _ _ _ _ Hc _]. exact (toLowerChar_not_upper_A c6 Hc).
Qed.

Lemma transformMapValue_keys data transforms k :
  is_Some (transformMapValue data transforms !! k) -> is_Some (data !! k).
Proof.
  destruct transforms as [ts|]; simpl; [|auto].
  revert data. induction ts as [|[name f] ts IH]; intros data; simpl; [auto|].
  intros Hk. apply IH in Hk.
  destruct (data !! name) as [val|] eqn:Hname; [|exact Hk].
  destruct (decide (name = k)) as [->|Hne].
  - rewrite Hname. eauto.
  - now rewrite lookup_insert_ne in Hk.
Qed.

Lemma assign_lookup name value (obj : gmap string string) k :
  Js.assign name value obj !! k
  = if decide (name = k /\ name <> "__proto__") then Some value else obj !! k.
Proof.
  unfold Js.assign. destruct (String.eqb_spec name "__proto__") as [->|Hne].
  - rewrite decide_False by tauto. reflexivity.
  - destruct (decide (name = k)) as [->|Hk].
    + rewrite decide_True by tauto. apply lookup_insert_eq.
    + rewrite decide_False by tauto. now apply lookup_insert_ne.
Qed.

Lemma lowerCaseKeys_fold (headers : RawHeaders) (m : gmap string string) k :
  is_Some (fold_left (fun r kv => Js.assign (Js.toLowerCase (fst kv)) (snd kv) r) headers m
           !! k) ->
  is_Some (m !! k) \/ exists name, In name (map fst headers) /\ k = Js.toLowerCase name.
Proof.
  revert m. induction headers as [|[name value] rest IH]; intros m; simpl; [auto|].
  intros Hm. destruct (IH _ Hm) as [Hins|(name' & Hin & ->)].
  - rewrite assign_lookup in Hins. case_decide as Hk.
    + right. exists name. destruct Hk as [<- _]. auto.
    + now left.
  - right. exists name'. auto.
Qed.

(** Every key of the normalized headers is the lower-case spelling of a
    header name of the message. *)
Lemma transformLiveHeader_keys (headers : RawHeaders) transforms k :
  is_Some (transformLiveHeader headers transforms !! k) ->
  exists name, In name (map fst headers) /\ k = Js.toLowerCase name.
Proof.
  unfold transformLiveHeader. intros Hk%transformMapValue_keys.
  destruct (lowerCaseKeys_fold _ _ _ Hk) as [Hempty|Hname]; [|exact Hname].
  rewrite lookup_empty in Hempty. now destruct Hempty.
Qed.

(** The mixed-case key that [validateLroHeader] also reads is never a key
    of the normalized headers. *)
Lemma transformLiveHeader_no_mixed_case (headers : RawHeaders) transforms :
  transformLiveHeader headers transforms !! "azure-AsyncOperation" = None.
Proof.
  destruct (transformLiveHeader headers transforms !! "azure-AsyncOperation") eqn:E;
    [|reflexivity].
  destruct (transformLiveHeader_keys headers transforms "azure-AsyncOperation")
    as (name & _ & Hname); [rewrite E; eauto|].
  symmetry in Hname. now apply toLowerCase_not_AsyncOperation in Hname.
Qed.

End OperationValidatorFacts.

(** The scenarios of the specification, on an operation that declares the
    responses [200] and [default]. *)

Example resolve_503 :
  resolveResponse (responses (Fixture.operationOf "get" None)) "503"
  = Some Fixture.errorResponse.
Proof. vm_compute. reflexivity. Qed.

Example resolve_301 :
  resolveResponse (responses (Fixture.operationOf "get" None)) "301" = None.
Proof. vm_compute. reflexivity. Qed.

Example resolve_200 :
  resolveResponse (responses (Fixture.operationOf "get" None)) "200"
  = Some Fixture.okResponse.
Proof. vm_compute. reflexivity. Qed.

Example content_type_is_case_sensitive :
  validateContentType (H := Fixture.imports) ["application/json"]
    {[ "content-type" := "Application/JSON" ]} true []
  = [invalidContentType (H := Fixture.imports) ["application/json"] "Application/JSON"].
Proof. vm_compute. reflexivity. Qed.

Example location_header_any_case :
  validateLroHeader (H := Fixture.imports) Fixture.deleteLro
    (transformLiveHeader [("Location", "https://management.azure.com/operations/1")] None) []
  = [].
Proof. vm_compute. reflexivity. Qed.

Example missing_body_in_request :
  map code
    (schemaValidateIssueToLiveValidationIssue (H := Fixture.imports)
       [Fixture.missingProperty ".body" "body"]
       (Fixture.operationOf "put" None) Fixture.requestContext [])
  = ["MISSING_REQUIRED_PARAMETER"].
Proof. vm_compute. reflexivity. Qed.

Example missing_body_in_response :
  map code
    (schemaValidateIssueToLiveValidationIssue (H := Fixture.imports)
       [Fixture.missingProperty ".body" "body"]
       (Fixture.operationOf "put" None) (Fixture.responseContext "200" "put") [])
  = ["INVALID_RESPONSE_BODY"].
Proof. vm_compute. reflexivity. Qed.

Example missing_body_in_accepted_response :
  schemaValidateIssueToLiveValidationIssue (H := Fixture.imports)
    [Fixture.missingProperty ".body" "body"]
    (Fixture.operationOf "put" (Some true)) (Fixture.responseContext "201" "put") []
  = [].
Proof. vm_compute. reflexivity. Qed.

(** ** Properties of the traffic validator *)

Module TrafficFacts.
Import TrafficValidator.

(** Closes a goal [exists added, l = l ++ added /\ Forall P added] when
    nothing was pushed. *)
Ltac nothing_added :=
  exists []; split; [symmetry; apply app_nil_r | constructor].

Section BubbleSort.
Context `{Host}.
Hypothesis locale_order : LocaleOrder.

Lemma batchLe_trans b1 b2 b3 : batchLe b1 b2 -> batchLe b2 b3 -> batchLe b1 b3.
Proof. unfold batchLe. destruct locale_order as [Ht _]. apply Ht. Qed.

Lemma batchLe_total b1 b2 :
  (0 < localeCompare (batchKey b1) (batchKey b2))%Z -> batchLe b2 b1.
Proof. unfold batchLe. destruct locale_order as [_ Ht]. apply Ht. Qed.

Lemma bubblePass_app bound l1 l2 :
  length l1 = S bound -> bubblePass bound (l1 ++ l2) = bubblePass bound l1 ++ l2.
Proof.
  revert l1. induction bound as [|m IH]; intros l1 Hlen; [reflexivity|].
  destruct l1 as [|x [|y t]]; simpl in Hlen; try lia.
  cbn [app bubblePass].
  destruct (0 <? localeCompare (batchKey x) (batchKey y))%Z; cbn [app]; f_equal.
  - apply (IH (x :: t)). simpl. lia.
  - apply (IH (y :: t)). simpl. lia.
Qed.

(** A pass over the whole list leaves a greatest element last. *)
Lemma bubblePass_last bound l :
  length l = S bound ->
  exists front last,
    bubblePass bound l = front ++ [last]
    /\ Permutation l (front ++ [last])
    /\ Forall (fun b => batchLe b last) l.
Proof.
  revert l. induction bound as [|m IH]; intros l Hlen.
  - destruct l as [|x [|y t]]; simpl in Hlen; try lia.
    exists [], x. repeat split; [reflexivity|].
    constructor; [|constructor].
    unfold batchLe. destruct locale_order as [_ Ht].
    destruct (Z_le_gt_dec (localeCompare (batchKey x) (batchKey x)) 0) as [Hle|Hgt];
      [exact Hle | apply Ht; lia].
  - destruct l as [|x [|y t]]; simpl in Hlen; try lia.
    cbn [bubblePass].
    destruct (0 <? localeCompare (batchKey x) (batchKey y))%Z eqn:E.
    + apply Z.ltb_lt in E.
      destruct (IH (x :: t)) as (front & last & Heq & Hperm & Hall); [simpl; lia|].
      exists (y :: front), last. rewrite Heq. split; [reflexivity|]. split.
      * rewrite perm_swap. simpl. now constructor.
      * inversion_clear Hall as [|? ? Hx Ht].
        repeat constructor; try assumption.
        eapply batchLe_trans; [apply batchLe_total; exact E | exact Hx].
    + apply Z.ltb_ge in E.
      destruct (IH (y :: t)) as (front & last & Heq & Hperm & Hall); [simpl; lia|].
      exists (x :: front), last. rewrite Heq. split; [reflexivity|]. split.
      * simpl. now constructor.
      * inversion_clear Hall as [|? ? Hy Ht].
        repeat constructor; try assumption.
        eapply batchLe_trans; [exact E | exact Hy].
Qed.

Lemma bubbleLoop_sorted remaining front back :
  length front = S remaining ->
  StronglySorted batchLe back ->
  Forall (fun b => Forall (batchLe b) back) front ->
  StronglySorted batchLe (bubbleLoop remaining (front ++ back))
  /\ Permutation (bubbleLoop remaining (front ++ back)) (front ++ back).
Proof.
  revert front back. induction remaining as [|k IH]; intros front back Hlen Hback Hfront.
  - destruct front as [|x [|y t]]; simpl in Hlen; try lia.
    simpl. split; [|reflexivity].
    constructor; [exact Hback | now inversion_clear Hfront].
  - cbn [bubbleLoop]. rewrite bubblePass_app by exact Hlen.
    destruct (bubblePass_last (S k) front Hlen) as (front' & last & -> & Hperm & Hall).
    rewrite <- app_assoc. cbn [app].
    assert (Hin : forall b, In b (front' ++ [last]) -> In b front).
    { intros b Hb. eapply Permutation_in; [symmetry; exact Hperm | exact Hb]. }
    rewrite List.Forall_forall in Hfront, Hall.
    destruct (IH front' (last :: back)) as [Hs Hp].
    + apply Permutation_length in Hperm. rewrite length_app in Hperm.
      simpl in Hperm. lia.
    + constructor; [exact Hback|]. apply Hfront, Hin, in_or_app. simpl; auto.
    + apply List.Forall_forall. intros b Hb. constructor.
      * apply Hall, Hin, in_or_app. auto.
      * apply Hfront, Hin, in_or_app. auto.
    + split; [exact Hs|]. rewrite Hp.
      change (last :: back) with ([last] ++ back). rewrite app_assoc.
      apply Permutation_app_tail. now symmetry.
Qed.

Lemma bubbleSort_sorted batches :
  StronglySorted batchLe (bubbleSort batches)
  /\ Permutation (bubbleSort batches) batches.
Proof.
  unfold bubbleSort. destruct batches as [|b t].
  - simpl. split; constructor.
  - pose proof (bubbleLoop_sorted (length t) (b :: t) []) as Hs.
    rewrite app_nil_r in Hs.
    replace (length (b :: t) - 1)%nat with (length t) by (simpl; lia).
    apply Hs; [reflexivity | constructor |].
    apply List.Forall_forall. intros; constructor.
Qed.

End BubbleSort.

Section Rollup.
Context `{Host}.

Lemma compareOperationId_total a b :
  (0 < compareOperationId a b)%Z -> (compareOperationId b a <= 0)%Z.
Proof.
  unfold compareOperationId, Js.lt, Js.gt.
  destruct (String.ltb a b) eqn:Hab; [lia|].
  destruct (String.ltb b a) eqn:Hba; lia.
Qed.

Lemma compareOperationId_le a b :
  (compareOperationId a b <= 0)%Z -> operationIdLe a b.
Proof.
  unfold compareOperationId, operationIdLe, Js.lt, Js.gt, String.ltb, String.leb.
  rewrite (String.compare_antisym a b).
  destruct (String.compare b a); simpl; intros; try reflexivity; lia.
Qed.

Lemma sorted_by_operationId {A : Type} (f : A -> string) (l : list A) :
  Sorted operationIdLe
    (map f (Js.sort (fun op1 op2 => compareOperationId (f op1) (f op2)) l)).
Proof.
  apply Sorted_map.
  eapply Sorted_weaken; [|apply sort_Sorted].
  - intros a b. apply compareOperationId_le.
  - intros a b. apply compareOperationId_total.
Qed.

Lemma pushItem_groups P res item :
  P item -> groupsOf P res -> groupsOf P (pushItem res item).
Proof.
  intros Hitem. induction 1 as [|[k items] rest [Hne Hitems] Hrest IH]; simpl.
  - repeat constructor; [discriminate | assumption].
  - destruct (String.eqb_spec k (key item)) as [->|Hk].
    + constructor; [|exact Hrest]. simpl in *. split.
      * now destruct items.
      * apply Forall_app. split; [exact Hitems | repeat constructor; assumption].
    + constructor; [split; assumption | exact IH].
Qed.

Lemma fold_pushItem_groups P items res :
  Forall P items -> groupsOf P res -> groupsOf P (fold_left pushItem items res).
Proof.
  intros Hitems. revert res.
  induction Hitems as [|item rest Hitem Hrest IH]; intros res Hres; simpl;
    [exact Hres|].
  apply IH. now apply pushItem_groups.
Qed.

(** When the reducer returns, it returns the object that pushing the
    items one by one builds. *)
Lemma groupItems_normal items res res' :
  groupItems items res = Normal res' -> res' = fold_left pushItem items res.
Proof.
  revert res. induction items as [|item rest IH]; intros res; cbn [groupItems fold_left].
  - now intros [= <-].
  - unfold groupPush. destruct (Js.inherited (key item) && _); [discriminate|]. apply IH.
Qed.

Lemma objectValues_In {V : Type} (props : list (string * V)) (v : V) :
  In v (Js.objectValues props) -> exists k, In (k, v) props.
Proof.
  unfold Js.objectValues. rewrite in_app_iff, !in_map_iff.
  intros [([n v'] & <- & Hin)|([k v'] & <- & Hin)].
  - eapply Permutation_in in Hin; [|apply sort_Permutation].
    unfold Js.indexedProps in Hin. apply in_flat_map in Hin as ([k v''] & Hin & Hv).
    simpl in Hv. destruct (Js.arrayIndex k); [|contradiction].
    destruct Hv as [[= <- <-]|[]]. eauto.
  - unfold Js.namedProps in Hin. apply filter_In in Hin as [Hin _]. eauto.
Qed.

Lemma bubblePass_Permutation bound batches :
  Permutation (bubblePass bound batches) batches.
Proof.
  revert batches. induction bound as [|m IH]; intros batches; [reflexivity|].
  destruct batches as [|x [|y t]]; try reflexivity.
  cbn [bubblePass].
  destruct (0 <? localeCompare (batchKey x) (batchKey y))%Z.
  - rewrite IH. apply perm_swap.
  - now rewrite IH.
Qed.

Lemma bubbleSort_Permutation batches : Permutation (bubbleSort batches) batches.
Proof.
  unfold bubbleSort. generalize (length batches - 1)%nat as k. intros k. revert batches.
  induction k as [|k IH]; intros batches; [reflexivity|].
  cbn [bubbleLoop]. rewrite IH. apply bubblePass_Permutation.
Qed.

Lemma objectValues_Permutation {V : Type} (props : list (string * V)) :
  Permutation (Js.objectValues props) (map snd props).
Proof.
  unfold Js.objectValues. induction props as [|[k v] rest IH]; [reflexivity|].
  unfold Js.indexedProps, Js.namedProps in *. cbn [flat_map List.filter fst snd map].
  destruct (Js.arrayIndex k) as [n|].
  - cbn [app Js.sort]. rewrite insertSorted_Permutation. cbn [map snd app].
    now constructor.
  - cbn [app map snd]. rewrite <- Permutation_middle. now constructor.
Qed.

Lemma pushItem_keys res item :
  map fst (pushItem res item)
  = if Js.arrayIncludes (map fst res) (key item) then map fst res
    else map fst res ++ [key item].
Proof.
  induction res as [|[k items] rest IH]; [reflexivity|].
  cbn [pushItem map fst Js.arrayIncludes existsb].
  rewrite (String.eqb_sym (key item) k).
  destruct (String.eqb k (key item)); [reflexivity|].
  cbn [orb map fst]. rewrite IH. fold (Js.arrayIncludes (map fst rest) (key item)).
  now destruct (Js.arrayIncludes (map fst rest) (key item)).
Qed.

Lemma fold_pushItem_NoDup items res :
  List.NoDup (map fst res) -> List.NoDup (map fst (fold_left pushItem items res)).
Proof.
  revert res. induction items as [|item rest IH]; intros res Hnd; [exact Hnd|].
  cbn [fold_left]. apply IH. rewrite pushItem_keys.
  destruct (Js.arrayIncludes (map fst res) (key item)) eqn:E; [exact Hnd|].
  apply arrayIncludes_not_In in E.
  eapply Permutation_NoDup; [apply Permutation_cons_append|]. now constructor.
Qed.

(** The record that [coverageInfo] returns, when it returns. *)
Lemma coverageInfo_normal specKey value validatedOperations n r :
  coverageInfo specKey value validatedOperations n = Normal r ->
  r = coverageRecord specKey value validatedOperations n
        (fold_left pushItem (map uncovered (unValidated value validatedOperations)) []).
Proof.
  unfold coverageInfo.
  destruct (groupItems _ []) as [res|e] eqn:Hg; [|discriminate].
  intros [= <-]. now rewrite (groupItems_normal _ _ _ Hg).
Qed.

Lemma coverageRecord_keys specKey value validatedOperations n :
  List.NoDup
    (map batchKey
       (unCoveredOperationsListGen
          (coverageRecord specKey value validatedOperations n
             (fold_left pushItem
                (map uncovered (unValidated value validatedOperations)) [])))).
Proof.
  cbn [coverageRecord unCoveredOperationsListGen].
  set (items := map uncovered _).
  assert (Hg : groupsOf (fun _ => True) (fold_left pushItem items [])).
  { apply fold_pushItem_groups; [|constructor].
    apply List.Forall_forall. auto. }
  pose proof (fold_pushItem_NoDup items [] (List.NoDup_nil _)) as Hnd.
  revert Hg Hnd. generalize (fold_left pushItem items []) as groups. intros groups Hg Hnd.
  eapply Permutation_NoDup; [|exact Hnd].
  rewrite bubbleSort_Permutation, objectValues_Permutation. rewrite !map_map.
  clear Hnd. induction Hg as [|[k inner] rest [Hne Hitems] Hrest IH]; [reflexivity|].
  destruct inner as [|first more]; [contradiction|].
  inversion_clear Hitems as [|? ? [Hfirst _] _]. simpl in Hfirst.
  cbn [map fst snd batchKey operationIdList]. rewrite Hfirst. now constructor.
Qed.

Lemma coverageRecord_groups specKey value validatedOperations n :
  Forall isGroup
    (unCoveredOperationsListGen
       (coverageRecord specKey value validatedOperations n
          (fold_left pushItem
             (map uncovered (unValidated value validatedOperations)) []))).
Proof.
  cbn [coverageRecord unCoveredOperationsListGen].
  set (items := map uncovered _).
  assert (Hg : groupsOf (fun item => key item = groupKey (inner_operationId item))
                 (fold_left pushItem items [])).
  { apply fold_pushItem_groups; [|constructor].
    subst items. apply List.Forall_forall. intros item Hin.
    apply in_map_iff in Hin as (e & <- & _). reflexivity. }
  apply List.Forall_forall. intros batch Hin.
  eapply Permutation_in in Hin; [|apply bubbleSort_Permutation].
  apply in_map_iff in Hin as (inner & <- & Hin).
  apply objectValues_In in Hin as (k & Hin).
  unfold groupsOf in Hg. rewrite List.Forall_forall in Hg.
  destruct (Hg _ Hin) as [Hne Hitems]. simpl in Hne, Hitems.
  unfold isGroup, batchKey. simpl.
  split; [exact Hne|].
  destruct inner as [|first rest]; [contradiction|].
  inversion Hitems as [|? ? [Hfirst _] _]; subst.
  eapply List.Forall_impl; [|exact Hitems].
  intros item [Hk Hp]. split; [congruence | exact Hp].
Qed.

Lemma rollupSpec_frame st entry :
  let st' := fst (rollupSpec st entry) in
  trafficValidationResult st' = trafficValidationResult st
  /\ trafficOperation st' = trafficOperation st
  /\ operationSpecMapper st' = operationSpecMapper st
  /\ validationFailOperations st' = validationFailOperations st
  /\ operationUndefinedResult st' = operationUndefinedResult st.
Proof.
  destruct entry as [key value]. unfold rollupSpec.
  destruct (trafficOperation st !! key); [|simpl; auto].
  destruct (negb _); [|simpl; auto].
  destruct (coverageInfo _ _ _ _); simpl; auto.
Qed.

Lemma rollupSpec_report st key value :
  exists added,
    operationCoverageResult (fst (rollupSpec st (key, value)))
    = operationCoverageResult st ++ added
    /\ Forall (reported st [(key, value)]) added.
Proof.
  unfold rollupSpec.
  destruct (trafficOperation st !! key) as [ids|] eqn:Hids;
    [|exists []; simpl; now rewrite app_nil_r].
  destruct value as [|v value]; [exists []; simpl; now rewrite app_nil_r|].
  cbn [length Nat.eqb negb].
  destruct (coverageInfo key (v :: value) ids _) as [r|e] eqn:Hinfo;
    [|exists []; simpl; now rewrite app_nil_r].
  exists [r]. split; [reflexivity|].
  repeat constructor. unfold reported.
  eexists key, (v :: value), ids, _.
  split_and!; [simpl; auto | exact Hids | discriminate | exact Hinfo].
Qed.

Lemma rollup_report mapper st :
  exists added,
    operationCoverageResult (fst (rollup mapper st))
    = operationCoverageResult st ++ added
    /\ Forall (reported st mapper) added.
Proof.
  revert st. induction mapper as [|[key value] rest IH]; intros st.
  - exists []. simpl. now rewrite app_nil_r.
  - cbn [rollup].
    destruct (rollupSpec_report st key value) as (added1 & Hres1 & Hall1).
    destruct (rollupSpec_frame st (key, value)) as (_ & Htop & _).
    assert (Hfirst : Forall (reported st ((key, value) :: rest)) added1).
    { eapply List.Forall_impl; [|exact Hall1].
      intros r (k & v & ids & n & Hin & Hrest).
      exists k, v, ids, n. split; [|exact Hrest].
      destruct Hin as [<-|[]]. now left. }
    destruct (rollupSpec st (key, value)) as [st1 [e|]]; cbn [fst] in *.
    + exists added1. split; [exact Hres1 | exact Hfirst].
    + destruct (IH st1) as (added2 & -> & Hall2).
      exists (added1 ++ added2). rewrite Hres1, app_assoc. split; [reflexivity|].
      apply Forall_app. split; [exact Hfirst|].
      eapply List.Forall_impl; [|exact Hall2].
      intros r (k & v & ids & n & Hin & Hget & Hrest).
      exists k, v, ids, n. rewrite Htop in Hget. split; [now right | auto].
Qed.

Lemma rollup_frame mapper st :
  let st' := fst (rollup mapper st) in
  trafficValidationResult st' = trafficValidationResult st
  /\ trafficOperation st' = trafficOperation st
  /\ validationFailOperations st' = validationFailOperations st
  /\ operationUndefinedResult st' = operationUndefinedResult st.
Proof.
  revert st. induction mapper as [|entry rest IH]; intros st; [simpl; auto|].
  cbn [rollup].
  destruct (rollupSpec_frame st entry) as (H1 & H2 & _ & H3 & H4).
  destruct (rollupSpec st entry) as [st1 [e|]]; cbn [fst] in *; [auto|].
  destruct (IH st1) as (K1 & K2 & K3 & K4). cbv zeta. split_and!; congruence.
Qed.

Lemma rollup_results mapper st :
  trafficValidationResult (fst (rollup mapper st)) = trafficValidationResult st.
Proof. apply rollup_frame. Qed.


End Rollup.

Section Loop.
Context `{Host}.

Lemma recordOperation_lookup m swaggerFile opId k :
  recordOperation m swaggerFile opId !! k
  = if decide (swaggerFile = k)
    then Some (let ids := default [] (m !! swaggerFile) in
               if Js.arrayIncludes ids opId then ids else ids ++ [opId])
    else m !! k.
Proof.
  unfold recordOperation.
  destruct (m !! swaggerFile) as [ids|] eqn:Hm.
  - rewrite Hm. simpl. destruct (Js.arrayIncludes ids opId).
    + case_decide; [now subst | reflexivity].
    + case_decide; [subst; apply lookup_insert_eq | now apply lookup_insert_ne].
  - rewrite lookup_insert_eq. simpl.
    rewrite insert_insert_eq.
    case_decide; [subst; apply lookup_insert_eq|].
    now rewrite lookup_insert_ne.
Qed.

Lemma recordOperation_recorded m swaggerFile opId :
  recorded (recordOperation m swaggerFile opId) swaggerFile opId.
Proof.
  unfold recorded. rewrite recordOperation_lookup. rewrite decide_True by reflexivity.
  eexists. split; [reflexivity|]. simpl.
  destruct (Js.arrayIncludes _ opId) eqn:E.
  - now apply arrayIncludes_In.
  - apply in_or_app. simpl. auto.
Qed.

Lemma recordOperation_mono m swaggerFile opId k x :
  recorded m k x -> recorded (recordOperation m swaggerFile opId) k x.
Proof.
  intros (ids & Hget & Hin). unfold recorded. rewrite recordOperation_lookup.
  case_decide; [subst k|eauto].
  rewrite Hget. simpl. eexists. split; [reflexivity|].
  destruct (Js.arrayIncludes ids opId); [assumption | apply in_or_app; auto].
Qed.


(** What one round of the loop over the matching files does. *)
Lemma visitSwaggerFile_spec trafficFile s st swaggerFile :
  let st' := fst (visitSwaggerFile trafficFile s st swaggerFile) in
  operationSpecMapper st' = operationSpecMapper st
  /\ operationCoverageResult st' = operationCoverageResult st
  /\ trafficFiles st' = trafficFiles st
  /\ trafficOperation st'
     = recordOperation (trafficOperation st) swaggerFile (operationId (opInfo s))
  /\ (exists added,
        trafficValidationResult st' = trafficValidationResult st ++ added
        /\ Forall (fun r => payloadFilePath r = Some trafficFile
                             /\ hasFailure (validationResult s) = true) added)
  /\ (hasFailure (validationResult s) = false ->
       visitSwaggerFile trafficFile s st swaggerFile
       = (setTrafficOperation
            (recordOperation (trafficOperation st) swaggerFile (operationId (opInfo s)))
            st, None)).
Proof.
  unfold visitSwaggerFile.
  destruct (hasFailure (validationResult s)) eqn:Hf.
  - destruct (locateOperation swaggerFile _); simpl.
    + repeat split; try discriminate.
      eexists [_]. split; [reflexivity|]. repeat constructor.
    + repeat split; try discriminate.
      nothing_added.
  - simpl. repeat split. nothing_added.
Qed.

Lemma visitSwaggerFiles_spec trafficFile s swaggerFiles st :
  let st' := fst (visitSwaggerFiles trafficFile s st swaggerFiles) in
  operationSpecMapper st' = operationSpecMapper st
  /\ operationCoverageResult st' = operationCoverageResult st
  /\ trafficFiles st' = trafficFiles st
  /\ (exists added,
        trafficValidationResult st' = trafficValidationResult st ++ added
        /\ Forall (fun r => payloadFilePath r = Some trafficFile
                             /\ hasFailure (validationResult s) = true) added)
  /\ (exists visited,
        incl visited swaggerFiles
        /\ trafficOperation st'
           = fold_left (fun m swaggerFile =>
                          recordOperation m swaggerFile (operationId (opInfo s)))
               visited (trafficOperation st))
  /\ (hasFailure (validationResult s) = false ->
       snd (visitSwaggerFiles trafficFile s st swaggerFiles) = None
       /\ trafficValidationResult st' = trafficValidationResult st
       /\ trafficOperation st'
          = fold_left (fun m swaggerFile =>
                         recordOperation m swaggerFile (operationId (opInfo s)))
              swaggerFiles (trafficOperation st)).
Proof.
  revert st. induction swaggerFiles as [|swaggerFile rest IH]; intros st.
  - simpl. split_and!; try reflexivity.
    + nothing_added.
    + exists []. split; [apply incl_nil_l | reflexivity].
    + intros _. auto.
  - cbn [visitSwaggerFiles].
    destruct (visitSwaggerFile_spec trafficFile s st swaggerFile)
      as (Hm & Hr & Hf & Hop & (added1 & Hres1 & Hall1) & Hok).
    destruct (visitSwaggerFile trafficFile s st swaggerFile) as [st1 [e|]] eqn:Hv;
      simpl in Hm, Hr, Hf, Hop, Hres1.
    + simpl. split_and!; try assumption.
      * exists added1. auto.
      * exists [swaggerFile]. split; [intros x [<-|[]]; now left | exact Hop].
      * intros Hno. specialize (Hok Hno). discriminate.
    + destruct (IH st1) as (Hm2 & Hr2 & Hf2 & (added2 & Hres2 & Hall2)
                            & (visited & Hincl & Hop2) & Hok2).
      split_and!; try congruence.
      * exists (added1 ++ added2). rewrite Hres2, Hres1, app_assoc.
        split; [reflexivity | now apply Forall_app].
      * exists (swaggerFile :: visited). split.
        -- intros x [<-|Hx]; [now left | right; now apply Hincl].
        -- rewrite Hop2, Hop. reflexivity.
      * intros Hno. destruct (Hok2 Hno) as (Hnone & Hsame & Hfold).
        specialize (Hok Hno). injection Hok as Hst1.
        split_and!;
          [exact Hnone | rewrite Hsame, Hst1; reflexivity
           | rewrite Hfold, Hop; reflexivity].
Qed.

Lemma processSample_steps st trafficFile :
  stepsTo trafficFile st (fst (processSample st trafficFile)).
Proof.
  unfold processSample, stepsTo.
  destruct (readSample trafficFile) as [s|e] eqn:Hread.
  - destruct (matchingSwaggerFiles (operationSpecMapper st) s) as [|f0 rest] eqn:Hmatch.
    + unfold reportUndefined. destruct (operationMatch (opInfo s));
        simpl; (repeat split; [|now left]); nothing_added.
    + destruct (visitSwaggerFiles_spec trafficFile s (f0 :: rest) st)
        as (Hm & Hr & Hf & (added & Hres & Hall) & (visited & Hincl & Hop) & _).
      repeat split; try assumption.
      * exists added. split; [exact Hres|].
        eapply List.Forall_impl; [|exact Hall].
        intros r [Hpath Hfail]. exists trafficFile, s. simpl. auto.
      * right. exists s, visited. rewrite Hmatch. auto.
  - simpl. repeat split; [|now left].
    nothing_added.
Qed.

Lemma matchingSwaggerFiles_declared mapper s swaggerFile :
  In swaggerFile (matchingSwaggerFiles mapper s) ->
  exists value,
    mapGet mapper swaggerFile = Some value /\ In (operationId (opInfo s)) value.
Proof.
  unfold matchingSwaggerFiles, findSwaggerByOperationInfo, findSwaggerByOperationId.
  destruct (Js.includes (liveRequestUrl s) "provider").
  - destruct (validationRequest (opInfo s)) as [vreq|]; [|intros []].
    intros [_ Hf]%filter_In.
    destruct (mapGet mapper swaggerFile) as [value|]; [|discriminate].
    apply andb_true_iff in Hf as [_ Hinc].
    exists value. split; [reflexivity | now apply arrayIncludes_In].
  - intros [_ Hf]%filter_In.
    destruct (mapGet mapper swaggerFile) as [value|]; [|discriminate].
    apply andb_true_iff in Hf as [Hinc _].
    exists value. split; [reflexivity | now apply arrayIncludes_In].
Qed.

Lemma recordOperation_consistent files mapper m trafficFile s swaggerFile :
  Consistent files mapper m ->
  In trafficFile files ->
  readSample trafficFile = Normal s ->
  In swaggerFile (matchingSwaggerFiles mapper s) ->
  Consistent files mapper (recordOperation m swaggerFile (operationId (opInfo s))).
Proof.
  intros Hc Hfile Hread Hmatch k ids. rewrite recordOperation_lookup.
  case_decide as Hk; [subst k | apply Hc].
  intros [= <-].
  destruct (matchingSwaggerFiles_declared _ _ _ Hmatch) as (value & Hget & Hdecl).
  assert (Hold : List.NoDup (default [] (m !! swaggerFile))
                 /\ incl (default [] (m !! swaggerFile)) value).
  { destruct (m !! swaggerFile) as [old|] eqn:Hm; simpl.
    - destruct (Hc _ _ Hm) as (Hnd & (value' & Hget' & Hincl) & _).
      rewrite Hget in Hget'. injection Hget' as <-. split; assumption.
    - split; [constructor | apply incl_nil_l]. }
  destruct Hold as [Hnd Hincl]. simpl.
  destruct (Js.arrayIncludes _ _) eqn:E; split_and!; try assumption; eauto.
  - apply arrayIncludes_not_In in E.
    eapply Permutation_NoDup; [apply Permutation_cons_append|].
    now constructor.
  - exists value. split; [exact Hget|].
    apply incl_app; [exact Hincl | intros x [<-|[]]; exact Hdecl].
Qed.

Lemma stepsTo_consistent files trafficFile st st' :
  stepsTo trafficFile st st' ->
  In trafficFile files ->
  Consistent files (operationSpecMapper st) (trafficOperation st) ->
  Consistent files (operationSpecMapper st) (trafficOperation st').
Proof.
  intros (_ & _ & _ & _ & [->|(s & visited & Hread & Hincl & ->)]) Hfile Hc;
    [exact Hc|].
  revert Hc Hincl. generalize (trafficOperation st) as m.
  induction visited as [|swaggerFile rest IH]; intros m Hc Hincl; [exact Hc|].
  cbn [fold_left]. apply IH.
  - eapply recordOperation_consistent; eauto. apply Hincl. now left.
  - intros x Hx. apply Hincl. now right.
Qed.

Lemma fromFailedSample_incl files files' r :
  incl files files' -> fromFailedSample files r -> fromFailedSample files' r.
Proof.
  intros Hincl (f & s & Hin & Hrest). exists f, s. split; [now apply Hincl | exact Hrest].
Qed.

(** What the loop over the traffic files does, whether or not it is cut
    short by an exception. *)
Lemma processFiles_steps files st :
  let st' := fst (processFiles st files) in
  operationSpecMapper st' = operationSpecMapper st
  /\ operationCoverageResult st' = operationCoverageResult st
  /\ trafficFiles st' = trafficFiles st
  /\ (exists added,
        trafficValidationResult st' = trafficValidationResult st ++ added
        /\ Forall (fromFailedSample files) added)
  /\ (forall all,
        incl files all ->
        Consistent all (operationSpecMapper st) (trafficOperation st) ->
        Consistent all (operationSpecMapper st) (trafficOperation st'))
  /\ (forall trafficFile err,
        snd (processFiles st files) = Some (trafficFile, err) -> In trafficFile files).
Proof.
  revert st. induction files as [|f rest IH]; intros st.
  - simpl. split_and!; try reflexivity; try discriminate.
    + nothing_added.
    + auto.
  - cbn [processFiles].
    pose proof (processSample_steps st f) as Hstep.
    destruct (processSample st f) as [st1 [e|]] eqn:Hp; simpl in Hstep.
    + pose proof Hstep as (Hm & Hr & Hf & (added & Hres & Hall) & _).
      simpl. split_and!; try assumption.
      * exists added. split; [exact Hres|].
        eapply List.Forall_impl; [|exact Hall].
        intros r. apply fromFailedSample_incl. intros x [<-|[]]. now left.
      * intros all Hincl Hc. eapply stepsTo_consistent; eauto. apply Hincl. now left.
      * intros trafficFile err [= <- _]. now left.
    + pose proof Hstep as (Hm & Hr & Hf & (added & Hres & Hall) & _).
      destruct (IH st1) as (Hm2 & Hr2 & Hf2 & (added2 & Hres2 & Hall2) & Hc2 & Hthrow).
      split_and!; try congruence.
      * exists (added ++ added2). rewrite Hres2, Hres, app_assoc.
        split; [reflexivity|]. apply Forall_app. split.
        -- eapply List.Forall_impl; [|exact Hall].
           intros r. apply fromFailedSample_incl. intros x [<-|[]]. now left.
        -- eapply List.Forall_impl; [|exact Hall2].
           intros r. apply fromFailedSample_incl. intros x Hx. now right.
      * intros all Hincl Hc. rewrite <- Hm. apply Hc2.
        -- intros x Hx. apply Hincl. now right.
        -- rewrite Hm. eapply stepsTo_consistent; eauto. apply Hincl. now left.
      * intros trafficFile err Hs. right. eapply Hthrow. exact Hs.
Qed.


Lemma validateSamples_spec st :
  let st' := validateSamples st in
  operationSpecMapper st' = operationSpecMapper st
  /\ operationCoverageResult st' = operationCoverageResult st
  /\ trafficOperation st' = trafficOperation (fst (processFiles st (trafficFiles st)))
  /\ (exists added,
        trafficValidationResult st' = trafficValidationResult st ++ added
        /\ Forall (fun r => fromFailedSample (trafficFiles st) r
                             \/ fromException (trafficFiles st) r) added).
Proof.
  unfold validateSamples.
  destruct (processFiles_steps (trafficFiles st) st)
    as (Hm & Hr & _ & (added & Hres & Hall) & _ & Hthrow).
  destruct (processFiles st (trafficFiles st)) as [st1 [[f e]|]];
    simpl in Hm, Hr, Hres, Hthrow |- *; split_and!; try assumption; try reflexivity.
  - exists (added ++ [exceptionRecord f e]). rewrite Hres, app_assoc.
    split; [reflexivity|]. apply Forall_app. split.
    + eapply List.Forall_impl; [|exact Hall]. intros r Hr'. now left.
    + constructor; [|constructor]. right. exists f, e. split; [|reflexivity].
      now apply (Hthrow f e).
  - exists added. split; [exact Hres|].
    eapply List.Forall_impl; [|exact Hall]. intros r Hr'. now left.
Qed.

Lemma mapGet_In {V : Type} (m : list (string * V)) (k : string) (v : V) :
  List.NoDup (map fst m) -> In (k, v) m -> mapGet m k = Some v.
Proof.
  induction m as [|[k' v'] rest IH]; simpl; [intros _ []|].
  intros Hnd [[= -> ->]|Hin].
  - now rewrite String.eqb_refl.
  - inversion_clear Hnd as [|? ? Hnotin Hrest].
    destruct (String.eqb_spec k' k) as [->|_]; [|now apply IH].
    exfalso. apply Hnotin. apply in_map_iff. now exists (k, v).
Qed.






End Loop.

Section Claims.
Context `{Host}.



(** C9 (amended). In every record that [validate] adds to the coverage
    report the covered and the uncovered operations are in ascending order
    of their identifiers under [<] on strings, the uncovered batches are in
    ascending order of their keys under [localeCompare], every batch holds
    operations whose identifiers share, before the first underscore, the
    key of the batch, and no two batches have the same key. *)
Theorem coverage_lists_sorted st :
  LocaleOrder ->
  exists added,
    operationCoverageResult (validate st) = operationCoverageResult st ++ added
    /\ Forall listsSorted added.
Proof.
  intros Horder. unfold validate, run. cbv zeta.
  destruct (validateSamples_spec st) as (_ & Hreport & _).
  destruct (rollup_report (operationSpecMapper (validateSamples st)) (validateSamples st))
    as (added & Heq & Hall).
  exists added. rewrite Heq, Hreport. split; [reflexivity|].
  eapply List.Forall_impl; [|exact Hall].
  intros r (specKey & value & ids & n & _ & _ & _ & ->%coverageInfo_normal).
  unfold listsSorted. split_and!.
  - apply (sorted_by_operationId meta_operationId).
  - apply (sorted_by_operationId inner_operationId).
  - apply (bubbleSort_sorted Horder).
  - apply coverageRecord_groups.
  - apply coverageRecord_keys.
Qed.

(** C8. Every record of the coverage report of a run reports a
    specification file that declares at least one operation and was
    matched by a sample; its covered count is at most its total, and its
    rate is the quotient of the two. A file that declares no operation,
    and a file that no sample matches, has no record. *)
Theorem coverage_rate_invariant files mapper :
  List.NoDup (map fst mapper) ->
  let report := operationCoverageResult (validate (initialized files mapper)) in
  (forall r,
      In r report ->
      (0 < totalOperations r)%nat
      /\ (0 <= coveredOperations r <= totalOperations r)%nat
      /\ (coverageRate r
           == inject_Z (Z.of_nat (coveredOperations r))
              / inject_Z (Z.of_nat (totalOperations r)))%Q
      /\ (exists value,
            In (cov_spec r, value) mapper /\ totalOperations r = length value)
      /\ (exists trafficFile s,
            In trafficFile files
            /\ readSample trafficFile = Normal s
            /\ In (cov_spec r) (matchingSwaggerFiles mapper s)))
  /\ (forall swaggerFile,
        In (swaggerFile, []) mapper ->
        forall r, In r report -> cov_spec r <> swaggerFile)
  /\ (forall swaggerFile,
        (forall trafficFile s,
            In trafficFile files -> readSample trafficFile = Normal s ->
            ~ In swaggerFile (matchingSwaggerFiles mapper s)) ->
        forall r, In r report -> cov_spec r <> swaggerFile).
Proof.
  intros Hnd report.
  assert (Hmain : forall r,
             In r report ->
             exists value ids n,
               In (cov_spec r, value) mapper /\ value <> []
               /\ r = coverageRecord (cov_spec r) value ids n
                       (fold_left pushItem (map uncovered (unValidated value ids)) [])
               /\ List.NoDup ids /\ incl ids value
               /\ (exists trafficFile s,
                     In trafficFile files
                     /\ readSample trafficFile = Normal s
                     /\ In (cov_spec r) (matchingSwaggerFiles mapper s))).
  { intros r Hin. subst report. unfold validate, run in Hin. cbv zeta in Hin.
    set (st0 := initialized files mapper) in *.
    destruct (validateSamples_spec st0) as (Hm & Hr & Hop & _).
    destruct (processFiles_steps (trafficFiles st0) st0) as (_ & _ & _ & _ & Hcons & _).
    specialize (Hcons files (incl_refl _)).
    rewrite <- Hop in Hcons.
    assert (Hc : Consistent files mapper (trafficOperation (validateSamples st0))).
    { apply Hcons. intros k ids Hk. simpl in Hk. now rewrite lookup_empty in Hk. }
    destruct (rollup_report (operationSpecMapper (validateSamples st0)) (validateSamples st0))
      as (added & Heq & Hall).
    rewrite Heq, Hr in Hin. simpl in Hin. rewrite Hm in Hall. simpl in Hall.
    rewrite List.Forall_forall in Hall.
    destruct (Hall r Hin)
      as (specKey & value & ids & n & Hmem & Hget & Hne & ->%coverageInfo_normal).
    destruct (Hc _ _ Hget) as (Hnodup & (value' & Hget' & Hincl) & Hmatched).
    rewrite (mapGet_In _ _ _ Hnd Hmem) in Hget'. injection Hget' as <-.
    exists value, ids, n. simpl. split_and!; auto. }
  split_and!.
  - intros r Hin.
    destruct (Hmain r Hin) as (value & ids & n & Hmem & Hne & Hr & Hnodup & Hincl & Hmatched).
    rewrite Hr. cbn [totalOperations coveredOperations coverageRate coverageRecord cov_spec].
    pose proof (NoDup_incl_length Hnodup Hincl) as Hle.
    split_and!.
    + destruct value; [contradiction | simpl; lia].
    + lia.
    + exact Hle.
    + reflexivity.
    + exists value. split; [|reflexivity]. now rewrite Hr in Hmem.
    + now rewrite Hr in Hmatched.
  - intros swaggerFile Hempty r Hin Heq.
    destruct (Hmain r Hin) as (value & ids & n & Hmem & Hne & _).
    rewrite Heq in Hmem.
    pose proof (mapGet_In _ _ _ Hnd Hmem) as H1.
    pose proof (mapGet_In _ _ _ Hnd Hempty) as H2.
    congruence.
  - intros swaggerFile Hnever r Hin Heq.
    destruct (Hmain r Hin) as (_ & _ & _ & _ & _ & _ & _ & _ & f & s & Hf & Hread & Hmatch).
    rewrite Heq in Hmatch. exact (Hnever f s Hf Hread Hmatch).
Qed.

End Claims.

End TrafficFacts.

(** ** The theorems at concrete inputs *)

Import Fixture (pollingHeaders, deleteLro).


Lemma lro_header_check_witness :
  validateLroOperation (H := Fixture.imports) deleteLro "202" pollingHeaders [] = []
  /\ validateLroOperation (H := Fixture.imports) deleteLro "202" ∅ []
     = [issueFromErrorCode (H := Fixture.imports) "LRO_RESPONSE_HEADER"
          [("header", Some "location or azure-AsyncOperation")]
          (Some (responses deleteLro))].
Proof.
  split.
  - apply (lro_header_check (H := Fixture.imports) deleteLro pollingHeaders []);
      try reflexivity.
    exists "https://management.azure.com/operations/1". split; [reflexivity | discriminate].
  - apply (lro_header_check (H := Fixture.imports) deleteLro ∅ []); reflexivity.
Defined.

Lemma content_type_gate_witness :
  validateContentType (H := Fixture.imports) ["application/json"] ∅ true [] = []
  /\ validateContentType (H := Fixture.imports) ["application/json"] ∅ false []
     = [invalidContentType (H := Fixture.imports) ["application/json"]
          "application/octet-stream"]
  /\ validateContentType (H := Fixture.imports) ["application/json"]
       {[ "content-type" := "application/json; charset=utf-8" ]} true []
     = [].
Proof.
  split_and!.
  - apply (content_type_gate (H := Fixture.imports)). reflexivity.
  - apply (content_type_gate (H := Fixture.imports)); [reflexivity|].
    intros [[=]|[]].
  - destruct (content_type_gate (H := Fixture.imports) ["application/json"]
                {[ "content-type" := "application/json; charset=utf-8" ]} [])
      as (_ & _ & Hpresent).
    apply (Hpresent "application/json; charset=utf-8" "application/json" true).
    + reflexivity.
    + discriminate.
    + simpl. repeat split; discriminate.
    + right. exists " charset=utf-8". reflexivity.
    + simpl. auto.
Defined.

Lemma response_resolution_witness :
  validateSwaggerLiveResponse (H := Fixture.imports)
    (Fixture.responseOf "301" []) (Fixture.contextOf (Fixture.operationOf "get" None))
    None None (Some true)
  = Normal [issueFromErrorCode (H := Fixture.imports) "INVALID_RESPONSE_CODE"
              [("statusCode", Some "301")]
              (Some (responses (Fixture.operationOf "get" None)))].
Proof.
  destruct (response_resolution (H := Fixture.imports)
              (Fixture.responseOf "301" []) (Fixture.contextOf (Fixture.operationOf "get" None))
              {| pathMatch := []; operation := Fixture.operationOf "get" None |}
              None None (Some true) eq_refl) as (_ & _ & Hnone).
  apply Hnone; [reflexivity | reflexivity | left; reflexivity].
Defined.


Lemma lro_accepted_suppressed_witness :
  schemaValidateIssueToLiveValidationIssue (H := Fixture.imports)
    [Fixture.invalidType ".body.name"; Fixture.missingProperty ".body" "body";
     Fixture.invalidType ".headers.etag"]
    deleteLro (Fixture.responseContext "202" "delete") []
  = schemaValidateIssueToLiveValidationIssue (H := Fixture.imports)
      [Fixture.invalidType ".body.name"; Fixture.invalidType ".headers.etag"]
      deleteLro (Fixture.responseContext "202" "delete") [].
Proof.
  destruct (lro_accepted_suppressed (H := Fixture.imports) deleteLro
              (Fixture.responseContext "202" "delete")) as [_ Hsuppressed].
  apply (Hsuppressed (Fixture.missingProperty ".body" "body")
           [Fixture.invalidType ".body.name"] [Fixture.invalidType ".headers.etag"] []);
    try reflexivity.
  right. reflexivity.
Defined.

Lemma missing_required_reclassified_witness :
  Spec.regenerated (H := Fixture.imports)
    (fst (classifyIssue (H := Fixture.imports) deleteLro Fixture.requestContext
            (Fixture.missingProperty ".query.api-version" "api-version")))
    (Some "api-version") "MISSING_REQUIRED_PARAMETER".
Proof.
  destruct (missing_required_reclassified (H := Fixture.imports) deleteLro
              Fixture.requestContext
              (Fixture.missingProperty ".query.api-version" "api-version") eq_refl)
    as [Hfirst _].
  destruct (Hfirst [] ".query.api-version" [] eq_refl eq_refl) as (_ & _ & Hrequest).
  apply Hrequest; reflexivity.
Defined.

(** C2, as stated, fails: a required property missing inside the body is
    reported at a path below the body root, and the classifier leaves its
    code alone, in a request as in a response. *)
Lemma nested_body_property_keeps_code :
  code (fst (classifyIssue (H := Fixture.imports) (Fixture.operationOf "put" None)
               Fixture.requestContext (Fixture.missingProperty ".body.name" "name")))
  <> "MISSING_REQUIRED_PARAMETER"
  /\ code (fst (classifyIssue (H := Fixture.imports) (Fixture.operationOf "put" None)
                  (Fixture.responseContext "200" "put")
                  (Fixture.missingProperty ".body.name" "name")))
     <> "INVALID_RESPONSE_BODY"
  /\ map code
       (schemaValidateIssueToLiveValidationIssue (H := Fixture.imports)
          [Fixture.missingProperty ".body.name" "name"]
          (Fixture.operationOf "put" None) Fixture.requestContext [])
     = ["OBJECT_MISSING_REQUIRED_PROPERTY"].
Proof. vm_compute. repeat split; discriminate. Qed.

Lemma string_compare_trans (a b c : string) :
  String.compare a b <> Gt -> String.compare b c <> Gt -> String.compare a c <> Gt.
Proof.
  revert b c. induction a as [|x a IH]; intros [|y b] [|z c]; simpl; try congruence.
  unfold Ascii.compare.
  destruct (N.compare_spec (N_of_ascii x) (N_of_ascii y)) as [E1|L1|G1];
    destruct (N.compare_spec (N_of_ascii y) (N_of_ascii z)) as [E2|L2|G2];
    destruct (N.compare_spec (N_of_ascii x) (N_of_ascii z)) as [E3|L3|G3];
    try congruence; try lia; eauto.
Qed.

Lemma compareStrings_order : TrafficValidator.LocaleOrder (H := TrafficFixture.host).
Proof.
  assert (Hle : forall a b,
             (TrafficFixture.compareStrings a b <= 0)%Z <-> String.compare a b <> Gt).
  { intros a b. unfold TrafficFixture.compareStrings.
    destruct (String.compare a b); split; intros; try congruence; lia. }
  split; simpl; unfold TrafficFixture.collate.
  - intros a b c. rewrite !Hle. apply string_compare_trans.
  - intros a b Hgt. apply Hle. intros Hba.
    assert (Hab : String.compare (Js.toLowerCase a) (Js.toLowerCase b) <> Gt).
    { rewrite String.compare_antisym, Hba. discriminate. }
    apply Hle in Hab. lia.
Qed.





(** A sample of an operation that the operation search matches but no
    loaded specification declares: building the message of line 272 throws,
    the [catch] block records the file, and the counter stays at zero. *)
Example undeclared_operation_ends_the_run :
  let st := TrafficValidator.validate (H := TrafficFixture.host)
              (TrafficValidator.initialized ["new.json"; "ok.json"] TrafficFixture.mapper) in
  TrafficValidator.trafficValidationResult st
  = [TrafficValidator.exceptionRecord (H := TrafficFixture.host) "new.json"
       TrafficFixture.circular]
  /\ TrafficValidator.operationUndefinedResult st = 0%nat
  /\ TrafficValidator.trafficOperation st !! TrafficFixture.computeSpec = None.
Proof. vm_compute. auto. Qed.

Lemma coverage_lists_sorted_witness :
  TrafficValidator.LocaleOrder (H := TrafficFixture.host)
  /\ exists added,
       TrafficValidator.operationCoverageResult
         (TrafficValidator.validate (H := TrafficFixture.host) TrafficFixture.complete)
       = [] ++ added
       /\ Forall (TrafficValidator.listsSorted (H := TrafficFixture.host)) added.
Proof.
  split; [exact compareStrings_order|].
  exact (TrafficFacts.coverage_lists_sorted (H := TrafficFixture.host)
           TrafficFixture.complete compareStrings_order).
Defined.

(** C9, as stated, fails: the uncovered operations are in the order of
    [<] on strings, which puts [Zeta] before [alpha], while the batches are
    in the order of [localeCompare], which puts [alpha] before [Zeta]: the
    batch keys are not in the order that the two lists are in. *)
Lemma batches_follow_locale_order :
  map (fun r => (map TrafficValidator.inner_operationId
                   (TrafficValidator.unCoveredOperationsList r),
                 map TrafficValidator.batchKey
                   (TrafficValidator.unCoveredOperationsListGen r)))
    (TrafficValidator.operationCoverageResult
       (TrafficValidator.validate (H := TrafficFixture.host) TrafficFixture.mixedCase))
  = [(["Zeta_Get"; "alpha_List"], ["alpha"; "Zeta"])]
  /\ ~ Sorted TrafficValidator.operationIdLe ["alpha"; "Zeta"]
  /\ Sorted TrafficValidator.operationIdLe ["Zeta_Get"; "alpha_List"].
Proof.
  split_and!.
  - vm_compute. reflexivity.
  - intros Hs. inversion_clear Hs as [|? ? _ Hhd]. inversion_clear Hhd as [|? ? Hle].
    discriminate Hle.
  - repeat constructor.
Qed.

(** A specification with an uncovered operation [constructor_Get]: the
    reducer of the rollup throws on its group key, outside the [try], so
    the call is rejected and the report has no record. *)
Example inherited_group_key_rejects_the_run :
  TrafficValidator.validateThrows (H := TrafficFixture.host) TrafficFixture.inheritedKey
  = Some TrafficValidator.notAFunction
  /\ TrafficValidator.operationCoverageResult
       (TrafficValidator.validate (H := TrafficFixture.host) TrafficFixture.inheritedKey)
     = [].
Proof. vm_compute. auto. Qed.

Lemma mapper_keys_distinct : List.NoDup (map fst TrafficFixture.mapper).
Proof.
  repeat constructor; simpl; [|intros []].
  intros [E|[]]. discriminate E.
Qed.

Lemma coverage_rate_invariant_witness :
  List.NoDup (map fst TrafficFixture.mapper)
  /\ Forall (fun r => (0 < TrafficValidator.totalOperations r)%nat
                      /\ (TrafficValidator.coveredOperations r
                          <= TrafficValidator.totalOperations r)%nat)
       (TrafficValidator.operationCoverageResult
          (TrafficValidator.validate (H := TrafficFixture.host) TrafficFixture.complete)).
Proof.
  split; [exact mapper_keys_distinct|].
  apply List.Forall_forall. intros r Hin.
  destruct (TrafficFacts.coverage_rate_invariant (H := TrafficFixture.host)
              ["a.json"; "ok.json"; "c.json"] TrafficFixture.mapper mapper_keys_distinct)
    as [Hmain _].
  destruct (Hmain r Hin) as (Hpos & Hle & _). split; [exact Hpos | apply Hle].
Defined.

(** A run over three samples of a specification that declares five
    operations: three are covered, two of them with a failing validation. *)
Example coverage_report_complete :
  map (fun r => (TrafficValidator.coveredOperations r,
                 TrafficValidator.totalOperations r,
                 TrafficValidator.cov_validationFailOperations r,
                 TrafficValidator.unCoveredOperations r,
                 TrafficValidator.coverageRate r,
                 map TrafficValidator.batchKey (TrafficValidator.unCoveredOperationsListGen r)))
    (TrafficValidator.operationCoverageResult
       (TrafficValidator.validate (H := TrafficFixture.host) TrafficFixture.complete))
  = [(3%nat, 5%nat, 2%nat, 2%Z, (3 # 5)%Q, ["Disks"; "Images"])].
Proof. vm_compute. reflexivity. Qed.

(** ** Further properties of the operation validator *)

Section ClassifierExtra.
Context `{Imports}.

Lemma classifyPath_entry operation ctx st path :
  let entry := snd (classifyPath operation ctx st path) in
  snd entry = jsonPathToPointer (fst entry) /\ Rules.entryOf path (fst entry).
Proof.
  unfold classifyPath, Rules.entryOf. destruct st as [issue skip].
  destruct (Js.startsWith path ".body") eqn:Hb; cbn [andb].
  - destruct ((5 <? String.length path)%nat || _); [simpl; auto|].
    destruct (String.eqb (code issue) _); [|simpl; auto].
    destruct (SchemaValidator.isResponse ctx); simpl; auto.
  - destruct (String.eqb (code issue) _); [|simpl; auto].
    destruct (SchemaValidator.isResponse ctx); [|simpl; auto].
    destruct (Js.startsWith path ".headers"); simpl; auto.
Qed.

Lemma classifyPaths_entries operation ctx st paths :
  let entries := snd (classifyPaths operation ctx st paths) in
  map snd entries = map jsonPathToPointer (map fst entries)
  /\ Forall2 Rules.entryOf paths (map fst entries).
Proof.
  revert st. induction paths as [|p rest IH]; intros st; simpl; [split; constructor|].
  pose proof (classifyPath_entry operation ctx st p) as [Hptr Hentry].
  destruct (classifyPath operation ctx st p) as [st1 entry].
  specialize (IH st1).
  destruct (classifyPaths operation ctx st1 rest) as [st2 entries].
  simpl in *. destruct IH as [IH1 IH2]. split.
  - now rewrite Hptr, IH1.
  - now constructor.
Qed.

Lemma classifyIssue_paths operation ctx i :
  let entries := snd (classifyPaths operation ctx (attachMetadata i operation, false)
                        (SchemaValidator.jsonPathsInPayload i)) in
  jsonPathsInPayload (fst (classifyIssue operation ctx i)) = map fst entries
  /\ pathsInPayload (fst (classifyIssue operation ctx i)) = map snd entries.
Proof.
  unfold classifyIssue. cbn [jsonPathsInPayload attachMetadata].
  destruct (classifyPaths operation ctx _ _) as [[issue' skip'] entries].
  simpl. auto.
Qed.

(** X1. In every issue that the classifier builds, the JSON pointers are the
    pointers of the paths it stores, index by index; a stored path is the
    raw path, or the raw path with its [.body] prefix replaced by [$]. *)
Theorem classified_pointers_follow_paths operation ctx i :
  let issue := fst (classifyIssue operation ctx i) in
  pathsInPayload issue = map jsonPathToPointer (jsonPathsInPayload issue)
  /\ Forall2 Rules.entryOf (SchemaValidator.jsonPathsInPayload i) (jsonPathsInPayload issue)
  /\ length (pathsInPayload issue) = length (SchemaValidator.jsonPathsInPayload i).
Proof.
  destruct (classifyIssue_paths operation ctx i) as [Hj Hp].
  destruct (classifyPaths_entries operation ctx (attachMetadata i operation, false)
              (SchemaValidator.jsonPathsInPayload i)) as [Hptr Hall].
  cbv zeta. rewrite Hj, Hp. split_and!; [exact Hptr | exact Hall|].
  apply Forall2_length in Hall. rewrite Hptr, !length_map in *. now symmetry.
Qed.

Lemma classifyPath_unclassified operation ctx issue skip path :
  code issue <> "OBJECT_MISSING_REQUIRED_PROPERTY" ->
  classifyPath operation ctx (issue, skip) path
  = ((issue, skip),
     (Rules.rootAnchored path, jsonPathToPointer (Rules.rootAnchored path))).
Proof.
  intros Hc%String.eqb_neq. unfold classifyPath, Rules.rootAnchored. rewrite Hc.
  cbn [negb]. rewrite orb_true_r, andb_true_r.
  destruct (Js.startsWith path ".body"); reflexivity.
Qed.

Lemma classifyPaths_unclassified operation ctx issue skip paths :
  code issue <> "OBJECT_MISSING_REQUIRED_PROPERTY" ->
  classifyPaths operation ctx (issue, skip) paths
  = ((issue, skip),
     map (fun p => (Rules.rootAnchored p, jsonPathToPointer (Rules.rootAnchored p))) paths).
Proof.
  intros Hc. induction paths as [|p rest IH]; [reflexivity|].
  cbn [classifyPaths map]. now rewrite classifyPath_unclassified, IH.
Qed.

(** X2. An issue whose raw code is not "missing required property" is never
    suppressed and keeps its code and message; the classifier only attaches
    the metadata of that code and anchors every path under the body at
    [$]. *)
Theorem other_codes_pass_through operation ctx i :
  SchemaValidator.code i <> "OBJECT_MISSING_REQUIRED_PROPERTY" ->
  classifyIssue operation ctx i
  = (setPaths
       (map Rules.rootAnchored (SchemaValidator.jsonPathsInPayload i))
       (map (fun p => jsonPathToPointer (Rules.rootAnchored p))
          (SchemaValidator.jsonPathsInPayload i))
       (attachMetadata i operation),
     false).
Proof.
  intros Hc. unfold classifyIssue. cbn [jsonPathsInPayload attachMetadata].
  rewrite classifyPaths_unclassified by exact Hc.
  now rewrite !map_map.
Qed.

Lemma classifyPath_keeps operation ctx st path :
  let issue' := fst (fst (classifyPath operation ctx st path)) in
  documentationUrl issue' = documentationUrl (fst st)
  /\ schemaPath issue' = schemaPath (fst st)
  /\ source issue' = source (fst st)
  /\ params issue' = params (fst st).
Proof.
  unfold classifyPath. destruct st as [issue skip].
  destruct (Js.startsWith path ".body" && _); [simpl; auto|].
  destruct (String.eqb (code issue) _); [|simpl; auto].
  destruct (SchemaValidator.isResponse ctx); [|simpl; auto].
  destruct (Js.startsWith path ".body"); [simpl; auto|].
  destruct (Js.startsWith path ".headers"); simpl; auto.
Qed.

Lemma classifyPaths_keeps operation ctx st paths :
  let issue' := fst (fst (classifyPaths operation ctx st paths)) in
  documentationUrl issue' = documentationUrl (fst st)
  /\ schemaPath issue' = schemaPath (fst st)
  /\ source issue' = source (fst st)
  /\ params issue' = params (fst st).
Proof.
  revert st. induction paths as [|p rest IH]; intros st; [simpl; auto|].
  cbv zeta. rewrite classifyPaths_cons.
  destruct (IH (fst (classifyPath operation ctx st p))) as (H1 & H2 & H3 & H4).
  destruct (classifyPath_keeps operation ctx st p) as (K1 & K2 & K3 & K4).
  split_and!; congruence.
Qed.

(** X3. Whatever the classifier does to the code of an issue, the
    documentation link stays the one of the raw code, the schema path and
    the message arguments stay those of the raw issue, and the source keeps
    its url unless that url is empty, in which case it becomes the file of
    the specification. *)
Theorem classification_keeps_origin operation ctx i :
  let issue := fst (classifyIssue operation ctx i) in
  documentationUrl issue = docUrl (errorCodeToErrorMetadata (SchemaValidator.code i))
  /\ schemaPath issue = SchemaValidator.schemaPath i
  /\ params issue = SchemaValidator.params i
  /\ url (source issue)
     = (if String.eqb (url (SchemaValidator.source i)) ""
        then _filePath operation else url (SchemaValidator.source i))
  /\ jsonRef (source issue) = jsonRef (SchemaValidator.source i)
  /\ position (source issue) = position (SchemaValidator.source i).
Proof.
  cbv zeta. unfold classifyIssue. cbn [jsonPathsInPayload attachMetadata].
  pose proof (classifyPaths_keeps operation ctx (attachMetadata i operation, false)
                (SchemaValidator.jsonPathsInPayload i)) as (H1 & H2 & H3 & H4).
  destruct (classifyPaths operation ctx _ _) as [[issue' skip'] entries].
  cbn [fst snd setPaths documentationUrl schemaPath source params] in *.
  rewrite H1, H2, H3, H4. cbn [attachMetadata documentationUrl schemaPath source params].
  split_and!; try reflexivity;
    destruct (String.eqb (url (SchemaValidator.source i)) ""); reflexivity.
Qed.

End ClassifierExtra.

Section ClassifierSuppression.
Context `{Imports}.

Lemma body_root path :
  Js.startsWith path ".body" = true ->
  (5 <? String.length path)%nat = false ->
  path = ".body".
Proof.
  intros Hs Hl. apply Nat.ltb_ge in Hl.
  destruct path as [|c0 [|c1 [|c2 [|c3 [|c4 rest]]]]]; simpl in Hs;
    rewrite ?andb_false_r in Hs; try discriminate.
  destruct rest; [|simpl in Hl; lia].
  repeat (apply andb_true_iff in Hs as [?%Ascii.eqb_eq Hs]). now subst.
Qed.

Lemma classifyPath_sets_skip operation ctx issue path :
  snd (fst (classifyPath operation ctx (issue, false) path)) = true ->
  SchemaValidator.isResponse ctx = true
  /\ isLongRunningAccepted operation ctx = true
  /\ code issue = "OBJECT_MISSING_REQUIRED_PROPERTY"
  /\ path = ".body".
Proof.
  unfold classifyPath.
  destruct (Js.startsWith path ".body") eqn:Hb; cbn [andb].
  - destruct (5 <? String.length path)%nat eqn:Hl; cbn [orb]; [discriminate|].
    destruct (String.eqb_spec (code issue) "OBJECT_MISSING_REQUIRED_PROPERTY") as [Hc|Hc];
      cbn [negb]; [|discriminate].
    destruct (SchemaValidator.isResponse ctx); [|discriminate].
    destruct (isLongRunningAccepted operation ctx); [|discriminate].
    intros _. split_and!; auto. now apply body_root.
  - destruct (String.eqb (code issue) _); [|discriminate].
    destruct (SchemaValidator.isResponse ctx); [|discriminate].
    destruct (Js.startsWith path ".headers"); discriminate.
Qed.

Lemma classifyPaths_sets_skip operation ctx issue paths :
  snd (fst (classifyPaths operation ctx (issue, false) paths)) = true ->
  SchemaValidator.isResponse ctx = true
  /\ isLongRunningAccepted operation ctx = true
  /\ code issue = "OBJECT_MISSING_REQUIRED_PROPERTY"
  /\ In ".body" paths.
Proof.
  revert issue. induction paths as [|p rest IH]; intros issue; [discriminate|].
  rewrite classifyPaths_cons.
  destruct (String.eqb_spec (code issue) "OBJECT_MISSING_REQUIRED_PROPERTY") as [Hc|Hc].
  - pose proof (classifyPath_sets_skip operation ctx issue p) as Hstep.
    destruct (fst (classifyPath operation ctx (issue, false) p)) as [issue1 [|]].
    + intros _. destruct (Hstep eq_refl) as (H1 & H2 & _ & ->). simpl. auto.
    + intros Hrest. destruct (IH _ Hrest) as (H1 & H2 & _ & Hin). simpl. auto.
  - rewrite classifyPath_other by exact Hc.
    rewrite classifyPaths_other by exact Hc. discriminate.
Qed.

(** X4. The classifier drops an issue only in a response to a long-running
    operation with status 201 or 202, and only an issue whose raw code is
    "missing required property" and one of whose paths is the body root. *)
Theorem suppression_only_for_accepted_lro operation ctx i :
  snd (classifyIssue operation ctx i) = true ->
  SchemaValidator.isResponse ctx = true
  /\ x_ms_long_running_operation operation = Some true
  /\ (SchemaValidator.statusCode ctx = Some "201"
      \/ SchemaValidator.statusCode ctx = Some "202")
  /\ SchemaValidator.code i = "OBJECT_MISSING_REQUIRED_PROPERTY"
  /\ In ".body" (SchemaValidator.jsonPathsInPayload i).
Proof.
  destruct (classifyIssue_state operation ctx i) as (_ & _ & _ & ->).
  intros Hskip. apply classifyPaths_sets_skip in Hskip as (Hresp & Hacc & Hcode & Hin).
  split_and!; try assumption.
  - unfold isLongRunningAccepted in Hacc.
    destruct (x_ms_long_running_operation operation) as [[|]|]; try discriminate.
    reflexivity.
  - unfold isLongRunningAccepted in Hacc.
    destruct (x_ms_long_running_operation operation) as [[|]|]; try discriminate.
    destruct (SchemaValidator.statusCode ctx) as [sc|]; [|discriminate].
    apply orb_true_iff in Hacc as [->%String.eqb_eq| ->%String.eqb_eq]; auto.
Qed.

Lemma validateLroOperation_cases operation statusCode headers result :
  validateLroOperation operation statusCode headers result = result
  \/ validateLroOperation operation statusCode headers result
     = result ++ [lroResponseCode operation statusCode]
  \/ validateLroOperation operation statusCode headers result
     = result ++ [Spec.lroResponseHeader operation].
Proof.
  unfold validateLroOperation, validateLroHeader, Spec.lroResponseHeader.
  destruct (x_ms_long_running_operation operation) as [[|]|]; auto.
  destruct (String.eqb (_method operation) "patch"),
           (String.eqb (_method operation) "post"),
           (String.eqb (_method operation) "delete"),
           (String.eqb (_method operation) "put"),
           (String.eqb statusCode "200"),
           (String.eqb statusCode "201"),
           (String.eqb statusCode "202"),
           (String.eqb statusCode "204"),
           (undefinedOrEmpty (headers !! "location")
            && undefinedOrEmpty (headers !! "azure-AsyncOperation")
            && undefinedOrEmpty (headers !! "azure-asyncoperation"));
    cbn [orb andb negb]; auto.
Qed.

(** X5. The long-running-operation check adds at most one issue to the
    result, an invalid-code or an invalid-header issue, never both, whatever
    the operation, the status code and the headers are. *)
Theorem lro_check_adds_at_most_one operation statusCode headers result :
  exists added,
    validateLroOperation operation statusCode headers result = result ++ added
    /\ (length added <= 1)%nat
    /\ Forall (fun issue => Rules.isLroCode (code issue)) added.
Proof.
  destruct (validateLroOperation_cases operation statusCode headers result)
    as [Heq|[Heq|Heq]]; rewrite Heq.
  - exists []. rewrite app_nil_r. split_and!; [reflexivity | simpl; lia | constructor].
  - eexists [_]. split_and!; [reflexivity | simpl; lia|].
    constructor; [left; reflexivity | constructor].
  - eexists [_]. split_and!; [reflexivity | simpl; lia|].
    constructor; [right; reflexivity | constructor].
Qed.

End ClassifierSuppression.

Section OrchestratorExtra.
Context `{Imports}.

Lemma validateContentType_cases allowed headers isRequest result :
  validateContentType allowed headers isRequest result = result
  \/ exists contentType,
       validateContentType allowed headers isRequest result
       = result ++ [invalidContentType allowed contentType].
Proof.
  unfold validateContentType.
  destruct (effectiveContentType headers isRequest) as [ct|]; [|now left].
  destruct (negb _); [right; eauto | now left].
Qed.

(** X6. Response validation throws in two situations only: the context
    carries no operation match; or the status code resolves to a value
    that has no compiled validator and no loader is supplied. That value is
    a declared definition or, for a status code that names a property
    inherited from [Object.prototype], the inherited value, which never has
    a validator. A status code that resolves to nothing never makes it
    throw, and neither do the headers or the body of the response. *)
Theorem response_throws_exactly response info loader includeErrors isArmCall e :
  validateSwaggerLiveResponse response info loader includeErrors isArmCall = Throw e
  <-> (operationMatch info = None /\ e = noOperationMatch)
      \/ (exists om rsp,
            operationMatch info = Some om
            /\ resolveResponse (responses (operation om)) (statusCode response) = Some rsp
            /\ Rules.responseValidatorOf rsp loader = None
            /\ e = noLoader).
Proof.
  unfold validateSwaggerLiveResponse, validateAgainst, Rules.responseValidatorOf.
  destruct (operationMatch info) as [om|] eqn:Hm.
  - destruct (resolveResponse _ _) as [rsp|] eqn:Hr.
    + destruct (rsp_validate rsp) as [v|] eqn:Hrv; [|destruct loader as [ld|]].
      * split; [discriminate|].
        intros [[Hn _]|(om' & rsp' & Hom & Hrsp & Hv & _)]; [discriminate|].
        simplify_eq. rewrite Hrv in Hv. discriminate.
      * split; [discriminate|].
        intros [[Hn _]|(om' & rsp' & Hom & Hrsp & Hv & _)]; [discriminate|].
        simplify_eq. rewrite Hrv in Hv. discriminate.
      * split.
        -- intros [= <-]. right. exists om, rsp.
           split_and!; [reflexivity | exact Hr | now rewrite Hrv | reflexivity].
        -- intros [[Hn _]|(om' & rsp' & _ & _ & _ & ->)]; [discriminate | reflexivity].
    + split; [discriminate|].
      intros [[Hn _]|(om' & rsp' & Hom & Hrsp & _)]; [discriminate|].
      simplify_eq.
  - split.
    + intros [= <-]. left. split; reflexivity.
    + intros [[_ ->]|(om' & rsp' & Hom & _)]; [reflexivity | discriminate].
Qed.

(** X7. The list that response validation returns is the classified schema
    issues preceded by at most two issues of the protocol checks: none when
    the response definition has no schema, and only a content-type issue
    when the call is not flagged as an ARM call or the status code is not
    in 200..299. *)
Theorem response_issue_layout response info om rsp loader validate includeErrors isArmCall :
  operationMatch info = Some om ->
  resolveResponse (responses (operation om)) (statusCode response) = Some rsp ->
  Rules.responseValidatorOf rsp loader = Some validate ->
  let op := operation om in
  let normalized :=
    transformLiveHeader (default [] (headers response)) (rsp_headerTransform rsp) in
  let ctx := Rules.responseContextOf response op includeErrors in
  exists protocol,
    validateSwaggerLiveResponse response info loader includeErrors isArmCall
    = Normal (protocol
              ++ schemaValidateIssueToLiveValidationIssue
                   (validate ctx {| payloadHeaders := normalized;
                                    payloadBody := body response |})
                   op ctx [])
    /\ Forall (fun issue => Rules.isProtocolCode (code issue)) protocol
    /\ (length protocol <= 2)%nat
    /\ (schema rsp = None -> protocol = [])
    /\ (isArmCall <> Some true
         \/ inRange 200 299 (Js.parseInt (statusCode response)) = false ->
         Forall (fun issue => code issue = "INVALID_CONTENT_TYPE") protocol).
Proof.
  intros Hom Hrsp Hval op normalized ctx.
  unfold validateSwaggerLiveResponse, validateAgainst. rewrite Hom, Hrsp.
  assert (Hv : match rsp_validate rsp with
               | Some v => Normal v
               | None => match loader with
                         | None => Throw noLoader
                         | Some ld => Normal (getResponseValidator ld rsp)
                         end
               end = Normal validate).
  { unfold Rules.responseValidatorOf in Hval.
    destruct (rsp_validate rsp); [congruence|].
    destruct loader; [congruence | discriminate]. }
  rewrite Hv. fold op normalized. cbv zeta.
  change {| SchemaValidator.isResponse := true;
            SchemaValidator.includeErrors := includeErrors;
            SchemaValidator.statusCode := Some (statusCode response);
            SchemaValidator.httpMethod := Some (_method op) |} with ctx.
  eexists. split.
  { rewrite classifier_filter.
    rewrite (classifier_filter _ op ctx []). cbn [app]. reflexivity. }
  destruct (schema rsp) as [sch|]; [|split_and!; simpl; auto; lia].
  destruct (validateContentType_cases (produces op) normalized false [])
    as [Hgate|(ct & Hgate)]; rewrite Hgate;
    destruct (bool_decide (isArmCall = Some true)) eqn:Harm;
    destruct (inRange 200 299 (Js.parseInt (statusCode response))) eqn:Hrange;
    cbn [andb];
    try (destruct (validateLroOperation_cases op (statusCode response) normalized [])
           as [Hl|[Hl|Hl]]; rewrite Hl);
    try (destruct (validateLroOperation_cases op (statusCode response) normalized
                     ([] ++ [invalidContentType (produces op) ct]))
           as [Hl|[Hl|Hl]]; rewrite Hl);
    cbn [app length];
    (split_and!;
     [ repeat first [ apply List.Forall_nil
                    | apply List.Forall_cons;
                      [unfold Rules.isProtocolCode, Rules.isLroCode; simpl; auto|] ]
     | lia
     | discriminate
     | intros [Hna|Hnr]; try discriminate;
       try (apply bool_decide_eq_true in Harm; contradiction);
       repeat first [ apply List.Forall_nil | apply List.Forall_cons; [reflexivity|] ] ]).
Qed.

End OrchestratorExtra.

Section HeaderExtra.
Context `{Imports}.

Lemma transformMapValue_lookup_some (ts : list (string * TransformFn))
    (data : gmap string string) k :
  List.NoDup (map fst ts) ->
  transformMapValue data (Some ts) !! k
  = Rules.transformedBy (Some ts) k <$> data !! k.
Proof.
  unfold transformMapValue, Rules.transformedBy.
  revert data. induction ts as [|[name f] rest IH]; intros data Hnd.
  - simpl. now destruct (data !! k).
  - inversion_clear Hnd as [|? ? Hnotin Hrest].
    cbn [fold_left fst snd TrafficValidator.mapGet].
    rewrite IH by exact Hrest.
    destruct (String.eqb_spec name k) as [->|Hne].
    + assert (Hnone : TrafficValidator.mapGet rest k = None).
      { clear -Hnotin. induction rest as [|[k' g] rest IH]; [reflexivity|].
        simpl in *. destruct (String.eqb_spec k' k) as [->|_]; [tauto|].
        apply IH. tauto. }
      rewrite Hnone. destruct (data !! k) as [v|] eqn:Hk.
      * now rewrite lookup_insert_eq.
      * rewrite ?Hk. reflexivity.
    + destruct (data !! name) as [v|]; [|reflexivity].
      now rewrite lookup_insert_ne.
Qed.

(** X8. A transform is applied once to the field it is declared for, a
    transform declared for an absent field adds nothing, and every other
    field keeps its value. *)
Theorem transform_applied_once transforms (data : gmap string string) k :
  Rules.distinctNames transforms ->
  transformMapValue data transforms !! k
  = Rules.transformedBy transforms k <$> data !! k.
Proof.
  destruct transforms as [ts|]; intros Hnd.
  - now apply transformMapValue_lookup_some.
  - simpl. now destruct (data !! k).
Qed.

Lemma lowerCase_fold_app (before after : RawHeaders) (m : gmap string string) :
  fold_left (fun r kv => Js.assign (Js.toLowerCase (fst kv)) (snd kv) r) (before ++ after) m
  = fold_left (fun r kv => Js.assign (Js.toLowerCase (fst kv)) (snd kv) r) after
      (fold_left (fun r kv => Js.assign (Js.toLowerCase (fst kv)) (snd kv) r) before m).
Proof. apply fold_left_app. Qed.

Lemma lowerCase_fold_other (after : RawHeaders) (m : gmap string string) k :
  Forall (fun kv => Js.toLowerCase (fst kv) <> k) after ->
  fold_left (fun r kv => Js.assign (Js.toLowerCase (fst kv)) (snd kv) r) after m !! k
  = m !! k.
Proof.
  intros Hall. revert m. induction Hall as [|[n v] rest Hne Hrest IH]; intros m;
    [reflexivity|].
  cbn [fold_left]. rewrite IH, assign_lookup. cbn [fst] in Hne.
  rewrite decide_False by tauto. reflexivity.
Qed.

Lemma lowerCase_fold_proto (headers : RawHeaders) (m : gmap string string) :
  fold_left (fun r kv => Js.assign (Js.toLowerCase (fst kv)) (snd kv) r) headers m
  !! "__proto__"
  = m !! "__proto__".
Proof.
  revert m. induction headers as [|[n v] rest IH]; intros m; [reflexivity|].
  cbn [fold_left]. rewrite IH, assign_lookup.
  rewrite decide_False by (intros [-> Hne]; now apply Hne). reflexivity.
Qed.

(** X9. A header of the message whose lower-case name is not [__proto__]
    is found in the normalized headers under the lower-case spelling of its
    name, with the transform declared for that spelling applied; when two
    names differ only in case, the one enumerated last wins. A header named
    [__proto__] in any spelling is dropped: the normalized headers never
    have that key. *)
Theorem header_lookup_last_wins (rawHeaders : RawHeaders) transforms :
  (forall before after name value,
      rawHeaders = before ++ (name, value) :: after ->
      Forall (fun kv => Js.toLowerCase (fst kv) <> Js.toLowerCase name) after ->
      Rules.distinctNames transforms ->
      Js.toLowerCase name <> "__proto__" ->
      transformLiveHeader rawHeaders transforms !! Js.toLowerCase name
      = Some (Rules.transformedBy transforms (Js.toLowerCase name) value))
  /\ transformLiveHeader rawHeaders transforms !! "__proto__" = None.
Proof.
  split.
  - intros before after name value -> Hafter Hnd Hproto. unfold transformLiveHeader.
    assert (Hraw : fold_left (fun r kv => Js.assign (Js.toLowerCase (fst kv)) (snd kv) r)
                     (before ++ (name, value) :: after) (∅ : gmap string string)
                   !! Js.toLowerCase name
                   = Some value).
    { rewrite lowerCase_fold_app. cbn [fold_left].
      rewrite lowerCase_fold_other by exact Hafter.
      rewrite assign_lookup. cbn [fst snd]. now rewrite decide_True by tauto. }
    destruct transforms as [ts|].
    + rewrite transformMapValue_lookup_some by exact Hnd. now rewrite Hraw.
    + simpl. exact Hraw.
  - destruct (transformLiveHeader rawHeaders transforms !! "__proto__") as [v|] eqn:E;
      [|reflexivity].
    assert (Hsome : is_Some (transformLiveHeader rawHeaders transforms !! "__proto__"))
      by (rewrite E; eauto).
    unfold transformLiveHeader in Hsome. apply transformMapValue_keys in Hsome.
    rewrite lowerCase_fold_proto, lookup_empty in Hsome. now destruct Hsome.
Qed.

Lemma toLowerChar_idempotent (c : ascii) : Js.toLowerChar (Js.toLowerChar c) = Js.toLowerChar c.
Proof. destruct c as [[] [] [] [] [] [] [] []]; vm_compute; reflexivity. Qed.

Lemma toLowerCase_idempotent (name : string) :
  Js.toLowerCase (Js.toLowerCase name) = Js.toLowerCase name.
Proof.
  induction name as [|c rest IH]; [reflexivity|].
  simpl. now rewrite toLowerChar_idempotent, IH.
Qed.

(** X10. Every key of the normalized headers is in lower case and is the
    lower-case spelling of a header name of the message; a header that the
    message does not carry under any spelling is absent; and the mixed-case
    key [azure-AsyncOperation] that the header check also reads is never
    present. *)
Theorem normalized_keys_lower_case (rawHeaders : RawHeaders) transforms :
  (forall k,
      is_Some (transformLiveHeader rawHeaders transforms !! k) ->
      Js.toLowerCase k = k
      /\ exists name, In name (map fst rawHeaders) /\ k = Js.toLowerCase name)
  /\ (forall k,
        (forall name, In name (map fst rawHeaders) -> Js.toLowerCase name <> k) ->
        transformLiveHeader rawHeaders transforms !! k = None)
  /\ transformLiveHeader rawHeaders transforms !! "azure-AsyncOperation" = None.
Proof.
  split_and!.
  - intros k Hk. destruct (transformLiveHeader_keys _ _ _ Hk) as (name & Hin & ->).
    split; [apply toLowerCase_idempotent | eauto].
  - intros k Hnone.
    destruct (transformLiveHeader rawHeaders transforms !! k) as [v|] eqn:E; [|reflexivity].
    destruct (transformLiveHeader_keys rawHeaders transforms k) as (name & Hin & Hk);
      [rewrite E; eauto|].
    exfalso. now apply (Hnone name Hin).
  - apply transformLiveHeader_no_mixed_case.
Qed.

End HeaderExtra.

(** ** Properties of the request orchestrator *)

Module RequestFacts.
Import Request.

Section Facts.
Context `{Imports} `{Builtins}.

Lemma pathParamsFrom_sound keys (pathMatch : list string) captures idx acc :
  drop idx pathMatch = captures ->
  match pathParamsFrom keys idx captures acc with
  | Normal pathParam =>
      forall name value,
        pathParam !! name = Some value ->
        acc !! name = Some value
        \/ exists i capture,
             (idx <= i)%nat
             /\ keys !! i = Some (Some name)
             /\ pathMatch !! i = Some capture
             /\ decodeURIComponent capture = Normal value
  | Throw e =>
      exists i name capture,
        (idx <= i)%nat
        /\ keys !! i = Some (Some name)
        /\ pathMatch !! i = Some capture
        /\ decodeURIComponent capture = Throw e
  end.
Proof.
  revert idx acc. induction captures as [|capture rest IH]; intros idx acc Hdrop.
  - simpl. auto.
  - assert (Hat : pathMatch !! idx = Some capture).
    { rewrite <- (Nat.add_0_r idx), <- lookup_drop, Hdrop. reflexivity. }
    assert (Hrest : drop (S idx) pathMatch = rest).
    { change (S idx) with (1 + idx)%nat. rewrite Nat.add_comm, <- drop_drop, Hdrop.
      reflexivity. }
    cbn [pathParamsFrom].
    destruct (keys !! idx) as [[name|]|] eqn:Hkey.
    + destruct (decodeURIComponent capture) as [decoded|e] eqn:Hdec.
      * specialize (IH (S idx) (Js.assign name decoded acc) Hrest).
        destruct (pathParamsFrom keys (S idx) rest _) as [pathParam|e].
        -- intros n v Hn. destruct (IH n v Hn) as [Hacc|(i & c & Hi & Hrest')].
           ++ rewrite assign_lookup in Hacc. case_decide as Hk.
              ** destruct Hk as [<- _]. injection Hacc as <-.
                 right. exists idx, capture. auto.
              ** now left.
           ++ right. exists i, c. split; [lia | exact Hrest'].
        -- destruct IH as (i & n & c & Hi & Hrest'). exists i, n, c. split; [lia | exact Hrest'].
      * exists idx, name, capture. auto.
    + specialize (IH (S idx) acc Hrest).
      destruct (pathParamsFrom keys (S idx) rest acc) as [pathParam|e].
      * intros n v Hn. destruct (IH n v Hn) as [Hacc|(i & c & Hi & Hrest')]; [now left|].
        right. exists i, c. split; [lia | exact Hrest'].
      * destruct IH as (i & n & c & Hi & Hrest'). exists i, n, c. split; [lia | exact Hrest'].
    + specialize (IH (S idx) acc Hrest).
      destruct (pathParamsFrom keys (S idx) rest acc) as [pathParam|e].
      * intros n v Hn. destruct (IH n v Hn) as [Hacc|(i & c & Hi & Hrest')]; [now left|].
        right. exists i, c. split; [lia | exact Hrest'].
      * destruct IH as (i & n & c & Hi & Hrest'). exists i, n, c. split; [lia | exact Hrest'].
Qed.

(** X11. Every path parameter passed to the validator is the decoded text of
    a capture group with a name in [_keys], at an index from 1 on: the whole
    match at index 0 is never a parameter. When the extraction throws, the
    thrown value is the one [decodeURIComponent] throws on such a capture. *)
Theorem path_params_from_named_captures keys (pathMatch : list string) :
  match extractPathParams keys pathMatch with
  | Normal pathParam =>
      forall name value,
        pathParam !! name = Some value ->
        exists i capture,
          (1 <= i)%nat
          /\ keys !! i = Some (Some name)
          /\ pathMatch !! i = Some capture
          /\ decodeURIComponent capture = Normal value
  | Throw e =>
      exists i name capture,
        (1 <= i)%nat
        /\ keys !! i = Some (Some name)
        /\ pathMatch !! i = Some capture
        /\ decodeURIComponent capture = Throw e
  end.
Proof.
  unfold extractPathParams.
  pose proof (pathParamsFrom_sound keys pathMatch (drop 1 pathMatch) 1 ∅ eq_refl) as Hs.
  destruct (pathParamsFrom keys 1 (drop 1 pathMatch) ∅) as [pathParam|e]; [|exact Hs].
  intros name value Hn. destruct (Hs name value Hn) as [Hempty|Hfound]; [|exact Hfound].
  now rewrite lookup_empty in Hempty.
Qed.

Lemma pathParamsFrom_throw keys (pathMatch : list string) e :
  forall captures idx pathParam,
    captures = drop idx pathMatch ->
    pathParamsFrom keys idx captures pathParam = Throw e
    <-> exists i,
          (idx <= i)%nat
          /\ (exists name capture,
                keys !! i = Some (Some name)
                /\ pathMatch !! i = Some capture
                /\ decodeURIComponent capture = Throw e)
          /\ (forall j name capture,
                (idx <= j < i)%nat ->
                keys !! j = Some (Some name) ->
                pathMatch !! j = Some capture ->
                exists value, decodeURIComponent capture = Normal value).
Proof.
  induction captures as [|capture rest IH]; intros idx pathParam Hdrop.
  - cbn [pathParamsFrom]. split; [discriminate|].
    intros (i & Hle & (name & capture & _ & Hc & _) & _).
    apply lookup_lt_Some in Hc.
    assert (Hlen : length (drop idx pathMatch) = 0%nat) by now rewrite <- Hdrop.
    rewrite length_drop in Hlen. lia.
  - assert (Hhere : pathMatch !! idx = Some capture).
    { rewrite <- (Nat.add_0_r idx), <- lookup_drop, <- Hdrop. reflexivity. }
    assert (Hrest : rest = drop (S idx) pathMatch).
    { change (S idx) with (1 + idx)%nat. rewrite Nat.add_comm, <- drop_drop, <- Hdrop.
      reflexivity. }
    specialize (IH (S idx)).
    assert (Hskip :
      (forall value, keys !! idx = Some (Some value) ->
         exists v, decodeURIComponent capture = Normal v) ->
      ((exists i,
          (S idx <= i)%nat
          /\ (exists name capture,
                keys !! i = Some (Some name)
                /\ pathMatch !! i = Some capture
                /\ decodeURIComponent capture = Throw e)
          /\ (forall j name capture,
                (S idx <= j < i)%nat ->
                keys !! j = Some (Some name) ->
                pathMatch !! j = Some capture ->
                exists value, decodeURIComponent capture = Normal value))
       <-> exists i,
          (idx <= i)%nat
          /\ (exists name capture,
                keys !! i = Some (Some name)
                /\ pathMatch !! i = Some capture
                /\ decodeURIComponent capture = Throw e)
          /\ (forall j name capture,
                (idx <= j < i)%nat ->
                keys !! j = Some (Some name) ->
                pathMatch !! j = Some capture ->
                exists value, decodeURIComponent capture = Normal value))).
    { intros Hok. split.
      - intros (i & Hle & Hat & Hbefore). exists i. split_and!; [lia | exact Hat|].
        intros j name c Hj Hk Hc.
        destruct (Nat.eq_dec j idx) as [->|Hne].
        + rewrite Hhere in Hc. injection Hc as <-. eapply Hok, Hk.
        + eapply Hbefore; [|exact Hk|exact Hc]. lia.
      - intros (i & Hle & Hat & Hbefore).
        destruct (Nat.eq_dec i idx) as [->|Hne].
        + destruct Hat as (name & c & Hk & Hc & Hthrow).
          rewrite Hhere in Hc. injection Hc as <-.
          destruct (Hok name Hk) as [v Hv]. congruence.
        + exists i. split_and!; [lia | exact Hat|].
          intros j name c Hj. apply Hbefore. lia. }
    cbn [pathParamsFrom].
    destruct (keys !! idx) as [[name|]|] eqn:Hkey.
    + destruct (decodeURIComponent capture) as [value|e'] eqn:Hdec.
      * rewrite (IH _ Hrest). apply Hskip. intros _ _. eauto.
      * split.
        -- intros [= <-]. exists idx. split_and!; [lia | eauto|].
           intros j ? ? Hj. lia.
        -- intros (i & Hle & (name' & c & Hk & Hc & Hthrow) & Hbefore).
           destruct (Nat.eq_dec i idx) as [->|Hne].
           ++ rewrite Hhere in Hc. injection Hc as <-. congruence.
           ++ destruct (Hbefore idx name capture) as [v Hv]; [lia | exact Hkey | exact Hhere|].
              congruence.
    + rewrite (IH _ Hrest). apply Hskip. intros ? [=].
    + rewrite (IH _ Hrest). apply Hskip. intros ? [=].
Qed.

Lemma extractPathParams_throw keys (pathMatch : list string) e :
  extractPathParams keys pathMatch = Throw e
  <-> exists i, RequestRules.firstFailure keys pathMatch i e.
Proof.
  unfold extractPathParams. rewrite (pathParamsFrom_throw keys pathMatch e _ 1 ∅ eq_refl).
  unfold RequestRules.firstFailure, RequestRules.namedCapture. split.
  - intros (i & Hle & (name & capture & Hk & Hc & Hthrow) & Hbefore).
    exists i. split.
    + exists name, capture. split_and!; assumption.
    + intros j n c Hj (Hj1 & Hk' & Hc'). eapply Hbefore; [|exact Hk'|exact Hc']. lia.
  - intros (i & (name & capture & (Hle & Hk & Hc) & Hthrow) & Hbefore).
    exists i. split_and!; [exact Hle | eauto|].
    intros j n c Hj Hk' Hc'. eapply (Hbefore j n c); [lia|]. split_and!; [lia | exact Hk' | exact Hc'].
Qed.

(** X12. Request validation looks for the validator first: without a
    compiled validator and without a loader it throws the loader error,
    whatever the captures of the path are. With a validator or a loader it
    throws exactly when a capture group with a name in [_keys] fails to
    decode, and what it throws is the error of the first such group; a
    capture without a name is never decoded and cannot make it throw. *)
Theorem request_failure_order request om loader includeErrors :
  (_validate (matched om) = None -> loader = None ->
     validateSwaggerLiveRequest request (Some om) loader includeErrors = Throw noLoader)
  /\ (is_Some (_validate (matched om)) \/ is_Some loader ->
      forall e,
        validateSwaggerLiveRequest request (Some om) loader includeErrors = Throw e
        <-> exists i, RequestRules.firstFailure (_keys om) (pathMatch om) i e).
Proof.
  unfold validateSwaggerLiveRequest, requestValidator. split.
  - intros -> ->. reflexivity.
  - intros Hsome e. rewrite <- extractPathParams_throw.
    destruct (_validate (matched om)) as [v|]; [|destruct loader as [ld|]].
    + destruct (extractPathParams _ _); split; (discriminate || congruence).
    + destruct (extractPathParams _ _); split; (discriminate || congruence).
    + destruct Hsome as [[? [=]]|[? [=]]].
Qed.

(** X13. The list that request validation returns is the classified schema
    issues, preceded by at most one issue, the content-type issue; a request
    that carries no content-type header under any spelling gets none. *)
Theorem request_issue_layout request om loader validate pathParam includeErrors :
  requestValidator (matched om) loader = Normal validate ->
  extractPathParams (_keys om) (pathMatch om) = Normal pathParam ->
  let operation := matched om in
  let normalized :=
    transformLiveHeader (default [] (liveHeaders request)) (_headerTransform operation) in
  let ctx := requestContext includeErrors in
  exists gate,
    validateSwaggerLiveRequest request (Some om) loader includeErrors
    = Normal (gate
              ++ schemaValidateIssueToLiveValidationIssue
                   (validate ctx
                      {| path := pathParam;
                         body := transformBodyValue (liveBody request) operation;
                         headers := normalized;
                         query := transformQuery (liveQuery request)
                                    (_queryTransform operation) |})
                   (shared operation) ctx [])
    /\ (length gate <= 1)%nat
    /\ Forall (fun issue => code issue = "INVALID_CONTENT_TYPE") gate
    /\ ((forall name,
            In name (map fst (default [] (liveHeaders request))) ->
            Js.toLowerCase name <> "content-type") ->
        gate = []).
Proof.
  intros Hv Hp operation normalized ctx.
  unfold validateSwaggerLiveRequest. rewrite Hv, Hp. fold operation normalized ctx.
  cbv zeta. eexists. split.
  { rewrite classifier_filter.
    rewrite (classifier_filter _ (shared operation) ctx []). cbn [app]. reflexivity. }
  split_and!.
  - destruct (validateContentType_cases (consumes (shared operation)) normalized true [])
      as [->|(ct & ->)]; simpl; lia.
  - destruct (validateContentType_cases (consumes (shared operation)) normalized true [])
      as [->|(ct & ->)]; repeat constructor.
  - intros Hno. unfold validateContentType, effectiveContentType.
    assert (Habsent : normalized !! "content-type" = None).
    { destruct (normalized !! "content-type") as [v|] eqn:E; [|reflexivity].
      destruct (transformLiveHeader_keys (default [] (liveHeaders request))
                  (_headerTransform operation) "content-type") as (name & Hin & Hname);
        [fold normalized; rewrite E; eauto|].
      exfalso. apply (Hno name Hin). now symmetry. }
    now rewrite Habsent.
Qed.

End Facts.

End RequestFacts.

(** ** Further properties of the traffic validator *)

Module TrafficExtra.
Import TrafficValidator TrafficFacts CoverageRules.

Section Finders.
Context `{Host}.

(** X14. A specification file is selected for a sample exactly when it is
    a key of the specification map, declares the operation of the sample,
    and mentions the API version in its path as written or in lower case;
    for a control-plane sample the lower-cased path must also contain the
    provider namespace, and without a validation request no file is
    selected. The selected files keep the order of the map. *)
Theorem finders_select_declaring_files mapper operationInfo :
  (forall key,
      In key (findSwaggerByOperationId mapper operationInfo) <->
      In key (map fst mapper)
      /\ exists value,
           mapGet mapper key = Some value
           /\ In (operationId operationInfo) value
           /\ (Js.includes key (apiVersion operationInfo)
               || Js.includes (Js.toLowerCase key) (apiVersion operationInfo)) = true)
  /\ (forall key,
        In key (findSwaggerByOperationInfo mapper operationInfo) <->
        In key (map fst mapper)
        /\ exists vreq value,
             validationRequest operationInfo = Some vreq
             /\ mapGet mapper key = Some value
             /\ In (operationId operationInfo) value
             /\ Js.includes (Js.toLowerCase key) (providerNamespace vreq) = true
             /\ (Js.includes key (apiVersion operationInfo)
                 || Js.includes (Js.toLowerCase key) (apiVersion operationInfo)) = true)
  /\ sublist (findSwaggerByOperationId mapper operationInfo) (map fst mapper)
  /\ sublist (findSwaggerByOperationInfo mapper operationInfo) (map fst mapper).
Proof.
  split_and!.
  - intros key. unfold findSwaggerByOperationId. rewrite filter_In.
    split; intros [Hin Hsel]; (split; [exact Hin|]).
    + destruct (mapGet mapper key) as [value|]; [|discriminate].
      apply andb_true_iff in Hsel as [Hdecl Hver].
      exists value. split_and!; [reflexivity | now apply arrayIncludes_In | exact Hver].
    + destruct Hsel as (value & -> & Hdecl & Hver).
      apply arrayIncludes_In in Hdecl. now rewrite Hdecl, Hver.
  - intros key. unfold findSwaggerByOperationInfo.
    destruct (validationRequest operationInfo) as [vreq|].
    + rewrite filter_In. split; intros [Hin Hsel]; (split; [exact Hin|]).
      * destruct (mapGet mapper key) as [value|]; [|discriminate].
        apply andb_true_iff in Hsel as [[Hns Hver]%andb_true_iff Hdecl].
        exists vreq, value.
        split_and!; [reflexivity | reflexivity | now apply arrayIncludes_In
                     | exact Hns | exact Hver].
      * destruct Hsel as (vreq' & value & [= <-] & -> & Hdecl & Hns & Hver).
        apply arrayIncludes_In in Hdecl. now rewrite Hdecl, Hns, Hver.
    + split; [intros [] | intros [_ (vreq & value & Hv & _)]; discriminate].
  - unfold findSwaggerByOperationId. generalize (map fst mapper) as keys.
    intros keys. induction keys as [|k rest IH]; simpl; [constructor|].
    destruct (match mapGet mapper k with Some _ => _ | None => false end);
      now constructor.
  - unfold findSwaggerByOperationInfo.
    destruct (validationRequest operationInfo) as [vreq|]; [|apply sublist_nil_l].
    generalize (map fst mapper) as keys.
    intros keys. induction keys as [|k rest IH]; simpl; [constructor|].
    destruct (match mapGet mapper k with Some _ => _ | None => false end);
      now constructor.
Qed.

End Finders.

Section Bookkeeping.
Context `{Host}.

Lemma recordOperation_inv m swaggerFile opId k x :
  recorded (recordOperation m swaggerFile opId) k x ->
  recorded m k x \/ (k = swaggerFile /\ x = opId).
Proof.
  unfold recorded. rewrite recordOperation_lookup.
  case_decide as Hk; [subst k|auto].
  intros (ids & [= <-] & Hin). simpl in Hin.
  destruct (m !! swaggerFile) as [old|] eqn:Hm; simpl in Hin.
  - destruct (Js.arrayIncludes old opId); [left; eauto|].
    apply in_app_or in Hin as [Hin|[<-|[]]]; [left; eauto | right; auto].
  - destruct Hin as [<-|[]]. right; auto.
Qed.

Lemma recordOperation_NoDup m swaggerFile opId :
  (forall k ids, m !! k = Some ids -> List.NoDup ids) ->
  forall k ids, recordOperation m swaggerFile opId !! k = Some ids -> List.NoDup ids.
Proof.
  intros Hnd k ids. rewrite recordOperation_lookup.
  case_decide as Hk; [subst k | apply Hnd].
  intros [= <-]. simpl.
  assert (Hold : List.NoDup (default [] (m !! swaggerFile))).
  { destruct (m !! swaggerFile) as [old|] eqn:Hm; simpl; [eauto | constructor]. }
  destruct (Js.arrayIncludes _ opId) eqn:E; [exact Hold|].
  apply arrayIncludes_not_In in E.
  eapply Permutation_NoDup; [apply Permutation_cons_append|]. now constructor.
Qed.

Lemma Grows_refl st : Grows st st.
Proof. unfold Grows. auto. Qed.

Lemma Grows_trans st1 st2 st3 : Grows st1 st2 -> Grows st2 st3 -> Grows st1 st3.
Proof. unfold Grows. intros (A1 & A2 & A3) (B1 & B2 & B3). split_and!; auto. Qed.

(** A state that differs from [st] outside the two maps only. *)
Lemma Grows_same_maps st st' :
  trafficOperation st' = trafficOperation st ->
  validationFailOperations st' = validationFailOperations st ->
  Grows st st'.
Proof.
  intros Ht Hf. unfold Grows, FailedAmongCovered. rewrite Ht, Hf. auto.
Qed.

Lemma visitSwaggerFile_maps trafficFile s st swaggerFile :
  let st' := fst (visitSwaggerFile trafficFile s st swaggerFile) in
  let opId := operationId (opInfo s) in
  trafficOperation st' = recordOperation (trafficOperation st) swaggerFile opId
  /\ validationFailOperations st'
     = (if hasFailure (validationResult s)
        then recordOperation (validationFailOperations st) swaggerFile opId
        else validationFailOperations st)
  /\ operationUndefinedResult st' = operationUndefinedResult st.
Proof.
  unfold visitSwaggerFile. destruct (hasFailure (validationResult s)); [|simpl; auto].
  destruct (locateOperation swaggerFile _); simpl; auto.
Qed.

Lemma visitSwaggerFile_grows trafficFile s st swaggerFile :
  Grows st (fst (visitSwaggerFile trafficFile s st swaggerFile)).
Proof.
  destruct (visitSwaggerFile_maps trafficFile s st swaggerFile) as (Ht & Hf & _).
  unfold Grows, FailedAmongCovered. rewrite Ht, Hf. split_and!.
  - intros k x. apply recordOperation_mono.
  - intros k x. destruct (hasFailure (validationResult s)); [apply recordOperation_mono | auto].
  - intros (Hsub & Hndf & Hndt). split_and!.
    + intros k x Hrec. destruct (hasFailure (validationResult s)).
      * apply recordOperation_inv in Hrec as [Hold|[-> ->]].
        -- now apply recordOperation_mono, Hsub.
        -- apply recordOperation_recorded.
      * now apply recordOperation_mono, Hsub.
    + destruct (hasFailure (validationResult s)); [now apply recordOperation_NoDup | exact Hndf].
    + now apply recordOperation_NoDup.
Qed.

Lemma visitSwaggerFiles_grows trafficFile s swaggerFiles st :
  Grows st (fst (visitSwaggerFiles trafficFile s st swaggerFiles))
  /\ operationUndefinedResult (fst (visitSwaggerFiles trafficFile s st swaggerFiles))
     = operationUndefinedResult st.
Proof.
  revert st. induction swaggerFiles as [|k rest IH]; intros st;
    [split; [apply Grows_refl | reflexivity]|].
  cbn [visitSwaggerFiles].
  pose proof (visitSwaggerFile_grows trafficFile s st k) as Hg.
  destruct (visitSwaggerFile_maps trafficFile s st k) as (_ & _ & Hu).
  destruct (visitSwaggerFile trafficFile s st k) as [st1 [e|]]; simpl in Hg, Hu |- *;
    [auto|].
  destruct (IH st1) as [Hg2 Hu2]. split; [eapply Grows_trans; eauto | congruence].
Qed.

Lemma processSample_grows st trafficFile :
  Grows st (fst (processSample st trafficFile)).
Proof.
  unfold processSample. destruct (readSample trafficFile) as [s|e]; [|apply Grows_refl].
  destruct (matchingSwaggerFiles (operationSpecMapper st) s) as [|k rest].
  - unfold reportUndefined.
    destruct (operationMatch (opInfo s)); [apply Grows_refl | now apply Grows_same_maps].
  - apply visitSwaggerFiles_grows.
Qed.

Lemma processFiles_grows files st : Grows st (fst (processFiles st files)).
Proof.
  revert st. induction files as [|f rest IH]; intros st; [apply Grows_refl|].
  cbn [processFiles]. pose proof (processSample_grows st f) as Hg.
  destruct (processSample st f) as [st1 [e|]]; simpl in Hg |- *; [exact Hg|].
  eapply Grows_trans; eauto.
Qed.

Lemma validateSamples_grows st : Grows st (validateSamples st).
Proof.
  unfold validateSamples. pose proof (processFiles_grows (trafficFiles st) st) as Hg.
  destruct (processFiles st (trafficFiles st)) as [st1 [[f e]|]]; simpl in Hg; [|exact Hg].
  eapply Grows_trans; [exact Hg | now apply Grows_same_maps].
Qed.

Lemma validate_grows st : Grows st (validate st).
Proof.
  unfold validate, run. cbv zeta. eapply Grows_trans; [apply validateSamples_grows|].
  destruct (rollup_frame (operationSpecMapper (validateSamples st)) (validateSamples st))
    as (_ & Ht & Hf & _).
  now apply Grows_same_maps.
Qed.

(** X15. A run never removes an operation from the covered set or from the
    failed set of a specification file: what was recorded before [validate]
    is recorded after it, also when a later sample of the same operation
    succeeds or the run is cut short by an exception. *)
Theorem coverage_only_grows st swaggerFile opId :
  (recorded (trafficOperation st) swaggerFile opId ->
     recorded (trafficOperation (validate st)) swaggerFile opId)
  /\ (recorded (validationFailOperations st) swaggerFile opId ->
       recorded (validationFailOperations (validate st)) swaggerFile opId).
Proof.
  destruct (validate_grows st) as (Ht & Hf & _). split; [apply Ht | apply Hf].
Qed.

Lemma initialized_invariant files mapper : FailedAmongCovered (initialized files mapper).
Proof.
  unfold FailedAmongCovered, recorded. simpl. split_and!.
  - intros k x (ids & Hk & _). now rewrite lookup_empty in Hk.
  - intros k ids Hk. now rewrite lookup_empty in Hk.
  - intros k ids Hk. now rewrite lookup_empty in Hk.
Qed.

(** The reducer throws exactly when an item has a key that names an
    inherited property, as long as the object has no such own property. *)
Lemma groupItems_throw items e :
  forall res,
    Forall (fun k => Js.inherited k = false) (map fst res) ->
    groupItems items res = Throw e
    <-> e = notAFunction /\ Exists (fun item => Js.inherited (key item) = true) items.
Proof.
  induction items as [|item rest IH]; intros res Hres; cbn [groupItems].
  - split; [discriminate | intros [_ Hex]; inversion Hex].
  - unfold groupPush. destruct (Js.inherited (key item)) eqn:Hinh; cbn [andb].
    + assert (Hnew : Js.arrayIncludes (map fst res) (key item) = false).
      { apply arrayIncludes_not_In. intros Hin.
        rewrite List.Forall_forall in Hres. specialize (Hres _ Hin). congruence. }
      rewrite Hnew. cbn [negb]. split.
      * intros [= <-]. split; [reflexivity | now constructor].
      * intros [-> _]. reflexivity.
    + rewrite IH.
      * split; intros [He Hex]; (split; [exact He|]).
        -- now constructor.
        -- inversion Hex as [? ? Hhead|? ? Htail]; subst; [congruence | exact Htail].
      * rewrite pushItem_keys.
        destruct (Js.arrayIncludes (map fst res) (key item)); [exact Hres|].
        apply Forall_app. split; [exact Hres | repeat constructor; exact Hinh].
Qed.

Lemma coverageInfo_throw specKey value validatedOperations n e :
  coverageInfo specKey value validatedOperations n = Throw e
  <-> e = notAFunction
      /\ exists element,
           In element (unValidated value validatedOperations)
           /\ Js.inherited (groupKey element) = true.
Proof.
  unfold coverageInfo.
  destruct (groupItems _ []) as [res|e'] eqn:Hg.
  - split; [discriminate|]. intros [He (element & Hin & Hinh)].
    assert (Hno : groupItems (map uncovered (unValidated value validatedOperations)) []
                  = Throw e); [|congruence].
    apply groupItems_throw; [constructor|]. split; [exact He|].
    apply List.Exists_exists. exists (uncovered element).
    split; [now apply in_map | exact Hinh].
  - apply groupItems_throw in Hg as [He' Hex]; [|constructor].
    apply List.Exists_exists in Hex as (item & Hin & Hinh).
    apply in_map_iff in Hin as (element & <- & Hin).
    split.
    + intros [= <-]. split; eauto.
    + intros [-> _]. now subst.
Qed.

Lemma reportEntry_same st st' entry :
  trafficOperation st' = trafficOperation st ->
  validationFailOperations st' = validationFailOperations st ->
  reportEntry st' entry = reportEntry st entry.
Proof. intros Ht Hf. unfold reportEntry. now rewrite Ht, Hf. Qed.

(** What the callback of the rollup does to the report for one entry. *)
Lemma rollupSpec_entry st entry :
  operationCoverageResult (fst (rollupSpec st entry))
  = operationCoverageResult st ++ reportEntry st entry
  /\ (length (reportEntry st entry) <= 1)%nat
  /\ Forall (fun r => cov_spec r = fst entry) (reportEntry st entry)
  /\ match snd (rollupSpec st entry) with
     | None =>
         reportEntry st entry <> [] <->
         is_Some (trafficOperation st !! fst entry) /\ snd entry <> []
     | Some e => e = notAFunction /\ snd entry <> [] /\ inheritedGroup st entry
     end.
Proof.
  destruct entry as [k value]. unfold rollupSpec, reportEntry, inheritedGroup. cbn [fst snd].
  destruct (trafficOperation st !! k) as [ids|] eqn:Hids.
  - destruct value as [|v value]; cbn [length Nat.eqb negb].
    + simpl. rewrite app_nil_r. split_and!; [reflexivity | lia | constructor|].
      split; [congruence | intros [_ Hne]; congruence].
    + cbv zeta. cbn [validationFailOperations setCoverageData].
      destruct (coverageInfo k (v :: value) ids _) as [r|e] eqn:Hinfo; simpl.
      * split_and!; [reflexivity | lia | |].
        -- constructor; [|constructor].
           apply coverageInfo_normal in Hinfo. now rewrite Hinfo.
        -- split; [intros _; split; [eauto | discriminate] | discriminate].
      * rewrite app_nil_r. do 3 (split; [first [reflexivity | lia | constructor]|]).
        apply coverageInfo_throw in Hinfo as [He (element & Hin & Hinh)].
        split_and!; [exact He | discriminate|]. exists ids, element. auto.
  - simpl. rewrite app_nil_r. split_and!; [reflexivity | lia | constructor|].
    split; [congruence | intros [[x Hx] _]; discriminate].
Qed.

(** The rollup pushes the records of the entries of the map in their
    order, up to the first entry at which the reducer throws. *)
Lemma rollup_prefix mapper st :
  exists processed rest,
    mapper = processed ++ rest
    /\ operationCoverageResult (fst (rollup mapper st))
       = operationCoverageResult st ++ flat_map (reportEntry st) processed
    /\ Forall (fun entry =>
                 reportEntry st entry <> [] <->
                 is_Some (trafficOperation st !! fst entry) /\ snd entry <> []) processed
    /\ match snd (rollup mapper st) with
       | None => rest = []
       | Some e =>
           e = notAFunction
           /\ exists entry rest',
                rest = entry :: rest' /\ snd entry <> [] /\ inheritedGroup st entry
       end.
Proof.
  revert st. induction mapper as [|entry mapper IH]; intros st.
  - exists [], []. simpl. rewrite app_nil_r. auto.
  - cbn [rollup].
    destruct (rollupSpec_entry st entry) as (Hreport & _ & _ & Hcase).
    destruct (rollupSpec_frame st entry) as (_ & Ht & _ & Hf & _).
    destruct (rollupSpec st entry) as [st1 [e|]]; cbn [fst snd] in *.
    + exists [], (entry :: mapper). simpl. rewrite app_nil_r.
      destruct Hcase as (He & Hne & Hgroup).
      split_and!; [reflexivity | | constructor | exact He|].
      * rewrite Hreport. destruct (reportEntry st entry) as [|r l] eqn:Hentry;
          [now rewrite app_nil_r|].
        exfalso. unfold reportEntry in Hentry.
        destruct Hgroup as (ids & element & Hids & Hin & Hinh). rewrite Hids in Hentry.
        destruct (negb _); [|discriminate].
        destruct (coverageInfo _ _ _ _) as [r'|e'] eqn:Hinfo; [|discriminate].
        assert (Hthrow : coverageInfo (fst entry) (snd entry) ids
                           match validationFailOperations st !! fst entry with
                           | Some failed => length failed
                           | None => 0%nat
                           end = Throw notAFunction)
          by (apply coverageInfo_throw; eauto).
        congruence.
      * exists entry, mapper. auto.
    + destruct (IH st1) as (processed & rest & -> & Hrest & Hall & Hend).
      exists (entry :: processed), rest. cbn [app flat_map].
      split_and!; [reflexivity | | |].
      * rewrite Hrest, Hreport, <- app_assoc. f_equal. f_equal.
        apply flat_map_ext. intros entry'. now apply reportEntry_same.
      * constructor; [exact Hcase|].
        eapply List.Forall_impl; [|exact Hall].
        intros entry'. cbv beta. now rewrite (reportEntry_same st st1 entry' Ht Hf), Ht.
      * destruct (snd (rollup (processed ++ rest) st1)) as [e|]; [|exact Hend].
        destruct Hend as (He & entry' & rest' & Hr & Hne & ids & element & Hids & Hrem).
        split; [exact He|]. exists entry', rest'. split_and!; [exact Hr | exact Hne|].
        exists ids, element. rewrite <- Ht. auto.
Qed.

Lemma reportEntry_failed st entry :
  FailedAmongCovered st ->
  Forall (fun r => (cov_validationFailOperations r <= coveredOperations r)%nat)
    (reportEntry st entry).
Proof.
  intros (Hsub & Hndf & _). unfold reportEntry.
  destruct (trafficOperation st !! fst entry) as [ids|] eqn:Hids; [|constructor].
  destruct (negb _); [|constructor].
  destruct (coverageInfo _ _ _ _) as [r|e] eqn:Hinfo; [|constructor].
  apply coverageInfo_normal in Hinfo. subst r.
  constructor; [|constructor].
  cbn [cov_validationFailOperations coveredOperations coverageRecord].
  destruct (validationFailOperations st !! fst entry) as [failed|] eqn:Hf; [|lia].
  apply NoDup_incl_length; [eauto|].
  intros x Hx. destruct (Hsub (fst entry) x) as (ids' & Hids' & Hin); [exists failed; auto|].
  congruence.
Qed.

(** X16. In every record of the coverage report of a run, the number of
    operations with a failing validation is at most the number of covered
    operations. *)
Theorem failed_at_most_covered files mapper :
  Forall (fun r => (cov_validationFailOperations r <= coveredOperations r)%nat)
    (operationCoverageResult (validate (initialized files mapper))).
Proof.
  unfold validate, run. cbv zeta.
  set (st1 := validateSamples (initialized files mapper)).
  assert (Hinv : FailedAmongCovered st1).
  { destruct (validateSamples_grows (initialized files mapper)) as (_ & _ & Hk).
    apply Hk, initialized_invariant. }
  destruct (rollup_prefix (operationSpecMapper st1) st1)
    as (processed & rest & _ & -> & _).
  destruct (validateSamples_spec (initialized files mapper)) as (_ & Hr & _).
  fold st1 in Hr. rewrite Hr. simpl.
  apply Forall_flat_map. apply List.Forall_forall. intros entry _.
  now apply reportEntry_failed.
Qed.

(** X17. The records that a run adds to the coverage report follow the
    order of the specification map, with at most one record for an entry:
    a record for an entry that was matched by a sample and declares an
    operation, none for any other entry. This goes on to the end of the
    map unless the reducer of the rollup throws: it throws at the first
    matched entry with an uncovered operation whose group key names a
    property inherited from [Object.prototype], the call is then rejected,
    and the report ends with the records of the entries before that one. *)
Theorem report_in_map_order st :
  let st1 := validateSamples st in
  exists processed rest,
    operationSpecMapper st = processed ++ rest
    /\ operationCoverageResult (validate st)
       = operationCoverageResult st ++ flat_map (reportEntry st1) processed
    /\ sublist (map cov_spec (flat_map (reportEntry st1) processed)) (map fst processed)
    /\ (forall entry,
          In entry processed ->
          (length (reportEntry st1 entry) <= 1)%nat
          /\ (reportEntry st1 entry <> [] <->
              is_Some (trafficOperation st1 !! fst entry) /\ snd entry <> []))
    /\ match validateThrows st with
       | None => rest = []
       | Some e =>
           e = notAFunction
           /\ exists entry rest',
                rest = entry :: rest' /\ snd entry <> [] /\ inheritedGroup st1 entry
       end.
Proof.
  cbv zeta. unfold validate, validateThrows, run. cbv zeta.
  destruct (rollup_prefix (operationSpecMapper (validateSamples st)) (validateSamples st))
    as (processed & rest & Hsplit & Hreport & Hall & Hend).
  destruct (validateSamples_spec st) as (Hm & Hr & _). rewrite Hm in Hsplit.
  exists processed, rest. rewrite Hreport, Hr.
  split_and!; [exact Hsplit | reflexivity | | | exact Hend].
  - clear. induction processed as [|entry rest IH]; [constructor|].
    cbn [flat_map map]. rewrite map_app.
    destruct (rollupSpec_entry (validateSamples st) entry) as (_ & Hlen & Hspec & _).
    destruct (reportEntry (validateSamples st) entry) as [|r [|r' l]];
      [now constructor | | simpl in Hlen; lia].
    inversion_clear Hspec as [|? ? Hr _]. cbn [map app]. rewrite Hr. now constructor.
  - intros entry Hin. rewrite List.Forall_forall in Hall.
    destruct (rollupSpec_entry (validateSamples st) entry) as (_ & Hlen & _).
    split; [exact Hlen | now apply Hall].
Qed.

End Bookkeeping.

Section Partition.
Context `{Host}.

Lemma spliceIndexOf_present arr element :
  In element arr -> Permutation arr (element :: spliceIndexOf arr element).
Proof.
  unfold spliceIndexOf. induction arr as [|y t IH]; [intros []|].
  intros Hin. cbn [Js.indexOf].
  destruct (String.eqb_spec y element) as [->|Hne]; [reflexivity|].
  destruct Hin as [->|Hin]; [contradiction|].
  specialize (IH Hin). destruct (Js.indexOf t element) as [i|] eqn:Hi; simpl in *.
  - rewrite perm_swap. now constructor.
  - exfalso. clear IH. induction t as [|z t IHt]; [contradiction|].
    simpl in Hi. destruct (String.eqb_spec z element) as [->|Hz]; [discriminate|].
    destruct Hin as [->|Hin]; [contradiction|].
    destruct (Js.indexOf t element); [discriminate | auto].
Qed.

Lemma fold_spliceIndexOf_partition ids value :
  List.NoDup ids -> incl ids value ->
  Permutation value (ids ++ fold_left spliceIndexOf ids value).
Proof.
  intros Hnd. revert value. induction Hnd as [|x rest Hnotin Hrest IH]; intros value Hincl;
    [reflexivity|].
  cbn [fold_left app].
  pose proof (spliceIndexOf_present value x (Hincl x (or_introl eq_refl))) as Hp.
  rewrite Hp at 1. constructor. apply IH.
  intros y Hy. assert (Hin : In y (x :: spliceIndexOf value x)).
  { eapply Permutation_in; [exact Hp|]. apply Hincl. now right. }
  destruct Hin as [<-|Hin]; [contradiction | exact Hin].
Qed.

Lemma report_record_shape files mapper r :
  List.NoDup (map fst mapper) ->
  In r (operationCoverageResult (validate (initialized files mapper))) ->
  exists value ids n,
    In (cov_spec r, value) mapper
    /\ r = coverageRecord (cov_spec r) value ids n
            (fold_left pushItem (map uncovered (unValidated value ids)) [])
    /\ List.NoDup ids /\ incl ids value.
Proof.
  intros Hnd Hin. unfold validate, run in Hin. cbv zeta in Hin.
  set (st0 := initialized files mapper) in *.
  destruct (validateSamples_spec st0) as (Hm & Hr & Hop & _).
  destruct (processFiles_steps (trafficFiles st0) st0) as (_ & _ & _ & _ & Hcons & _).
  specialize (Hcons files (incl_refl _)). rewrite <- Hop in Hcons.
  assert (Hc : Consistent files mapper (trafficOperation (validateSamples st0))).
  { apply Hcons. intros k ids Hk. simpl in Hk. now rewrite lookup_empty in Hk. }
  destruct (rollup_report (operationSpecMapper (validateSamples st0)) (validateSamples st0))
    as (added & Heq & Hall).
  rewrite Heq, Hr in Hin. simpl in Hin. rewrite Hm in Hall. simpl in Hall.
  rewrite List.Forall_forall in Hall.
  destruct (Hall r Hin)
    as (specKey & value & ids & n & Hmem & Hget & Hne & ->%coverageInfo_normal).
  destruct (Hc _ _ Hget) as (Hnodup & (value' & Hget' & Hincl) & _).
  rewrite (mapGet_In _ _ _ Hnd Hmem) in Hget'. injection Hget' as <-.
  exists value, ids, n. simpl. auto.
Qed.

(** X18. In every record of the coverage report of a run, the covered and
    the uncovered operations together are the operations that the
    specification file declares, each once, and the counts of the record
    are the lengths of its two lists. *)
Theorem covered_and_uncovered_partition files mapper r :
  List.NoDup (map fst mapper) ->
  In r (operationCoverageResult (validate (initialized files mapper))) ->
  exists value,
    In (cov_spec r, value) mapper
    /\ Permutation
         (map meta_operationId (coveredOperationsList r)
          ++ map inner_operationId (unCoveredOperationsList r))
         value
    /\ coveredOperations r = length (coveredOperationsList r)
    /\ unCoveredOperations r = Z.of_nat (length (unCoveredOperationsList r)).
Proof.
  intros Hnd Hin.
  destruct (report_record_shape files mapper r Hnd Hin)
    as (value & ids & n & Hmem & Hr & Hnodup & Hincl).
  exists value. split; [exact Hmem|]. rewrite Hr.
  cbn [coverageRecord coveredOperationsList unCoveredOperationsList coveredOperations
       unCoveredOperations]. unfold unValidated.
  pose proof (fold_spliceIndexOf_partition ids value Hnodup Hincl) as Hpart.
  split_and!.
  - rewrite !sort_Permutation, !map_map. cbn [meta_operationId uncovered inner_operationId].
    rewrite !map_id. now symmetry.
  - now rewrite (Permutation_length (sort_Permutation _ _)), length_map.
  - rewrite (Permutation_length (sort_Permutation _ _)), length_map.
    apply Permutation_length in Hpart. rewrite length_app in Hpart. lia.
Qed.

Lemma pushItem_items res item :
  Permutation (flat_map snd (pushItem res item)) (item :: flat_map snd res).
Proof.
  induction res as [|[k items] rest IH]; [reflexivity|].
  cbn [pushItem]. destruct (String.eqb k (key item)); cbn [flat_map snd].
  - rewrite <- app_assoc. cbn [app]. symmetry. apply Permutation_middle.
  - rewrite IH. symmetry. apply Permutation_middle.
Qed.

Lemma fold_pushItem_items items res :
  Permutation (flat_map snd (fold_left pushItem items res)) (flat_map snd res ++ items).
Proof.
  revert res. induction items as [|item rest IH]; intros res; cbn [fold_left].
  - now rewrite app_nil_r.
  - rewrite IH, pushItem_items. cbn [app]. apply Permutation_middle.
Qed.

Lemma coverageRecord_batches specKey value ids n :
  let r := coverageRecord specKey value ids n
             (fold_left pushItem (map uncovered (unValidated value ids)) []) in
  Permutation (flat_map operationIdList (unCoveredOperationsListGen r))
    (unCoveredOperationsList r).
Proof.
  cbn [coverageRecord unCoveredOperationsListGen unCoveredOperationsList].
  rewrite bubbleSort_Permutation, objectValues_Permutation, sort_Permutation.
  rewrite !flat_map_concat_map, !map_map. cbn [operationIdList].
  rewrite <- flat_map_concat_map, fold_pushItem_items. reflexivity.
Qed.

(** X19. In every record that a run adds to the coverage report, the
    batches hold the uncovered operations of the record, each in one
    batch. *)
Theorem batches_partition_uncovered st :
  exists added,
    operationCoverageResult (validate st) = operationCoverageResult st ++ added
    /\ Forall (fun r => Permutation (flat_map operationIdList (unCoveredOperationsListGen r))
                          (unCoveredOperationsList r)) added.
Proof.
  unfold validate, run. cbv zeta.
  destruct (validateSamples_spec st) as (_ & Hreport & _).
  destruct (rollup_report (operationSpecMapper (validateSamples st)) (validateSamples st))
    as (added & Heq & Hall).
  exists added. rewrite Heq, Hreport. split; [reflexivity|].
  eapply List.Forall_impl; [|exact Hall].
  intros r (specKey & value & ids & n & _ & _ & _ & ->%coverageInfo_normal).
  apply coverageRecord_batches.
Qed.

End Partition.

Section Records.
Context `{Host}.

Lemma visitSwaggerFiles_records trafficFile s swaggerFiles st :
  hasFailure (validationResult s) = true ->
  (forall swaggerFile,
      In swaggerFile swaggerFiles ->
      exists pos,
        locateOperation swaggerFile
          (vr_operationInfo (requestValidationResult (validationResult s)))
        = Normal pos) ->
  snd (visitSwaggerFiles trafficFile s st swaggerFiles) = None
  /\ trafficValidationResult (fst (visitSwaggerFiles trafficFile s st swaggerFiles))
     = trafficValidationResult st ++ map (failureRecord trafficFile s) swaggerFiles.
Proof.
  intros Hfail. revert st. induction swaggerFiles as [|k rest IH]; intros st Hloc.
  - simpl. now rewrite app_nil_r.
  - cbn [visitSwaggerFiles map]. unfold visitSwaggerFile. rewrite Hfail.
    destruct (Hloc k (or_introl eq_refl)) as (pos & ->).
    destruct (IH (pushResult (failureRecord trafficFile s k)
                    (setValidationFailOperations
                       (recordOperation
                          (validationFailOperations
                             (setTrafficOperation
                                (recordOperation (trafficOperation st) k
                                   (operationId (opInfo s))) st))
                          k (operationId (opInfo s)))
                       (setTrafficOperation
                          (recordOperation (trafficOperation st) k
                             (operationId (opInfo s))) st))))
      as [Hnone Hres]; [intros k' Hk'; apply Hloc; now right|].
    unfold failureRecord in *. split; [exact Hnone|].
    rewrite Hres. simpl. now rewrite <- app_assoc.
Qed.

(** X20. A sample with a failing validation or a runtime exception that
    matches at least one specification file, or else carries no operation
    match, leaves one record for each specification file it matches, in
    the order of the map, all with the same errors and exceptions, provided
    the position of the operation can be looked up in each of these
    files. *)
Theorem failing_sample_records st trafficFile s :
  readSample trafficFile = Normal s ->
  hasFailure (validationResult s) = true ->
  (matchingSwaggerFiles (operationSpecMapper st) s = [] ->
   operationMatch (opInfo s) = None) ->
  (forall swaggerFile,
      In swaggerFile (matchingSwaggerFiles (operationSpecMapper st) s) ->
      exists pos,
        locateOperation swaggerFile
          (vr_operationInfo (requestValidationResult (validationResult s)))
        = Normal pos) ->
  snd (processSample st trafficFile) = None
  /\ trafficValidationResult (fst (processSample st trafficFile))
     = trafficValidationResult st
       ++ map (failureRecord trafficFile s)
            (matchingSwaggerFiles (operationSpecMapper st) s).
Proof.
  intros Hread Hfail Hmatch Hloc. unfold processSample. rewrite Hread.
  destruct (matchingSwaggerFiles (operationSpecMapper st) s) as [|k rest] eqn:Hm.
  - unfold reportUndefined. rewrite (Hmatch eq_refl). simpl.
    now rewrite app_nil_r.
  - now apply visitSwaggerFiles_records.
Qed.

Lemma processSample_undefined st trafficFile :
  snd (processSample st trafficFile) = None ->
  operationUndefinedResult (fst (processSample st trafficFile))
  = (operationUndefinedResult st
     + (if isUndefinedSample (operationSpecMapper st) trafficFile then 1 else 0))%nat
  /\ (isUndefinedSample (operationSpecMapper st) trafficFile = true ->
      exists s, readSample trafficFile = Normal s /\ operationMatch (opInfo s) = None).
Proof.
  unfold processSample, isUndefinedSample.
  destruct (readSample trafficFile) as [s|e]; [|discriminate].
  destruct (matchingSwaggerFiles (operationSpecMapper st) s) as [|k rest].
  - unfold reportUndefined. destruct (operationMatch (opInfo s)) as [om|] eqn:Hom;
      [discriminate|].
    intros _. simpl. split; [lia | eauto].
  - intros _. destruct (visitSwaggerFiles_grows trafficFile s (k :: rest) st) as [_ ->].
    split; [lia | discriminate].
Qed.

Lemma processFiles_undefined files st :
  snd (processFiles st files) = None ->
  operationUndefinedResult (fst (processFiles st files))
  = (operationUndefinedResult st
     + length (List.filter (isUndefinedSample (operationSpecMapper st)) files))%nat
  /\ Forall (fun trafficFile =>
               isUndefinedSample (operationSpecMapper st) trafficFile = true ->
               exists s,
                 readSample trafficFile = Normal s /\ operationMatch (opInfo s) = None)
       files.
Proof.
  revert st. induction files as [|f rest IH]; intros st; [simpl; split; [lia | constructor]|].
  cbn [processFiles List.filter].
  pose proof (processSample_undefined st f) as Hu.
  pose proof (processSample_steps st f) as (Hm & _).
  destruct (processSample st f) as [st1 [e|]]; [discriminate|].
  simpl in Hu, Hm. intros Hnone.
  destruct (Hu eq_refl) as [Hcount Hmatch].
  destruct (IH st1 Hnone) as [Hrest Hall]. rewrite Hm in Hrest, Hall.
  split; [|constructor; assumption].
  rewrite Hrest, Hcount.
  destruct (isUndefinedSample (operationSpecMapper st) f); simpl; lia.
Qed.

(** X21. When no sample of a run throws, [operationUndefinedResult] grows
    by the number of traffic files whose sample matches no specification
    file, and each of these samples carries no operation match: a sample
    that carries one and matches no specification file makes the run
    throw. *)
Theorem undefined_samples_counted st :
  snd (processFiles st (trafficFiles st)) = None ->
  operationUndefinedResult (validate st)
  = (operationUndefinedResult st
     + length (List.filter (isUndefinedSample (operationSpecMapper st)) (trafficFiles st)))%nat
  /\ Forall (fun trafficFile =>
               isUndefinedSample (operationSpecMapper st) trafficFile = true ->
               exists s,
                 readSample trafficFile = Normal s /\ operationMatch (opInfo s) = None)
       (trafficFiles st).
Proof.
  intros Hnone. unfold validate, run. cbv zeta.
  destruct (rollup_frame (operationSpecMapper (validateSamples st)) (validateSamples st))
    as (_ & _ & _ & ->).
  unfold validateSamples.
  pose proof (processFiles_undefined (trafficFiles st) st Hnone) as Hu.
  destruct (processFiles st (trafficFiles st)) as [st1 [[f e]|]]; [discriminate|].
  exact Hu.
Qed.

End Records.

End TrafficExtra.

(** ** Properties of the specification map built by [initialize] *)

Module InitializeFacts.
Import TrafficValidator TrafficFacts Initialize InitializeRules.

Section Facts.
Context `{SpecLoader}.

Lemma mapGet_mapSet {V : Type} (m : list (string * V)) k v k' :
  mapGet (mapSet m k v) k' = if String.eqb k k' then Some v else mapGet m k'.
Proof.
  induction m as [|[k0 v0] rest IH]; simpl.
  - reflexivity.
  - destruct (String.eqb_spec k0 k) as [->|Hne]; simpl.
    + destruct (String.eqb k k'); reflexivity.
    + rewrite IH. destruct (String.eqb_spec k0 k') as [->|_]; [|reflexivity].
      destruct (String.eqb_spec k k') as [->|_]; [contradiction | reflexivity].
Qed.

Lemma mapSet_keys {V : Type} (m : list (string * V)) k v :
  map fst (mapSet m k v)
  = if Js.arrayIncludes (map fst m) k then map fst m else map fst m ++ [k].
Proof.
  induction m as [|[k0 v0] rest IH]; [reflexivity|].
  cbn [mapSet map fst Js.arrayIncludes existsb].
  rewrite (String.eqb_sym k k0).
  destruct (String.eqb k0 k) eqn:E; cbn [orb map fst].
  - apply String.eqb_eq in E. now subst.
  - rewrite IH. fold (Js.arrayIncludes (map fst rest) k).
    now destruct (Js.arrayIncludes (map fst rest) k).
Qed.

Lemma mapSet_NoDup {V : Type} (m : list (string * V)) k v :
  List.NoDup (map fst m) -> List.NoDup (map fst (mapSet m k v)).
Proof.
  intros Hnd. rewrite mapSet_keys.
  destruct (Js.arrayIncludes (map fst m) k) eqn:E; [exact Hnd|].
  apply arrayIncludes_not_In in E.
  eapply Permutation_NoDup; [apply Permutation_cons_append|]. now constructor.
Qed.

Lemma fold_onOperation ops ids :
  List.NoDup ids ->
  List.NoDup (fold_left onOperation ops ids)
  /\ forall id, In id (fold_left onOperation ops ids) <-> In id ids \/ In (Some id) ops.
Proof.
  revert ids. induction ops as [|[op|] rest IH]; intros ids Hnd; cbn [fold_left onOperation].
  - split; [exact Hnd | intros id; simpl; tauto].
  - destruct (Js.arrayIncludes ids op) eqn:E.
    + destruct (IH ids Hnd) as [H1 H2]. split; [exact H1|].
      intros id. rewrite H2. simpl. apply arrayIncludes_In in E.
      split; [tauto|]. intros [?|[[= ->]|?]]; auto.
    + apply arrayIncludes_not_In in E.
      destruct (IH (ids ++ [op])) as [H1 H2].
      { eapply Permutation_NoDup; [apply Permutation_cons_append|]. now constructor. }
      split; [exact H1|]. intros id. rewrite H2, in_app_iff. simpl.
      split; [intros [[?|[->|[]]]|?]; auto | intros [?|[[= ->]|?]]; auto].
  - destruct (IH ids Hnd) as [H1 H2]. split; [exact H1|].
    intros id. rewrite H2. simpl. split; [tauto|]. intros [?|[?|?]]; auto. discriminate.
Qed.

Lemma registerSpec_registered processed mapper swaggerPath :
  Registered processed mapper ->
  Registered (processed ++ [swaggerPath]) (registerSpec mapper swaggerPath).
Proof.
  intros (Hkeys & Hsound & Hcomplete). unfold registerSpec.
  destruct (load swaggerPath) as [doc|e] eqn:Hload.
  - set (old := match mapGet mapper swaggerPath with None => [] | Some ids => ids end).
    assert (Hold : List.NoDup old
                   /\ forall id, In id old -> In (Some id) (visitedOperationIds doc)).
    { subst old. destruct (mapGet mapper swaggerPath) as [ids|] eqn:Hget.
      - destruct (Hsound _ _ Hget) as (_ & Hnd & doc' & Hload' & Hids).
        rewrite Hload in Hload'. injection Hload' as <-.
        split; [exact Hnd | intros id; apply Hids].
      - split; [constructor | intros id []]. }
    destruct Hold as [Hnd Hin].
    destruct (fold_onOperation (visitedOperationIds doc) old Hnd) as [Hnd' Hin'].
    split_and!.
    + now apply mapSet_NoDup.
    + intros k ids. rewrite mapGet_mapSet.
      destruct (String.eqb_spec swaggerPath k) as [<-|Hne].
      * intros [= <-]. split_and!; [apply in_or_app; simpl; auto | exact Hnd'|].
        exists doc. split; [exact Hload|]. intros id. rewrite Hin'.
        split; [intros [?|?]; auto | auto].
      * intros Hget. destruct (Hsound _ _ Hget) as (Hp & Hrest).
        split; [apply in_or_app; auto | exact Hrest].
    + intros k doc' Hk Hload'. rewrite mapGet_mapSet.
      destruct (String.eqb_spec swaggerPath k) as [<-|Hne]; [eauto|].
      apply in_app_or in Hk as [Hk|[->|[]]]; [eauto | contradiction].
  - split_and!; [exact Hkeys| |].
    + intros k ids Hget. destruct (Hsound _ _ Hget) as (Hp & Hrest).
      split; [apply in_or_app; auto | exact Hrest].
    + intros k doc' Hk Hload'.
      apply in_app_or in Hk as [Hk|[->|[]]]; [eauto | congruence].
Qed.

Lemma buildOperationSpecMapper_registered swaggerList processed mapper :
  Registered processed mapper ->
  Registered (processed ++ swaggerList) (buildOperationSpecMapper swaggerList mapper).
Proof.
  unfold buildOperationSpecMapper.
  revert processed mapper. induction swaggerList as [|p rest IH]; intros processed mapper Hreg.
  - now rewrite app_nil_r.
  - cbn [fold_left]. change (p :: rest) with ([p] ++ rest). rewrite app_assoc.
    apply IH. now apply registerSpec_registered.
Qed.

(** X22. The specification map that [initialize] builds from an empty map
    has one entry for each specification path of the list that loads, and
    none for a path that fails to load; the entry of a path holds exactly
    the identifiers of the operations visited in its document, each once,
    however often the path occurs in the list. *)
Theorem initialize_registers_loaded_specs swaggerList :
  let mapper := buildOperationSpecMapper swaggerList [] in
  List.NoDup (map fst mapper)
  /\ (forall swaggerPath ids,
        mapGet mapper swaggerPath = Some ids ->
        In swaggerPath swaggerList
        /\ List.NoDup ids
        /\ exists doc,
             load swaggerPath = Normal doc
             /\ forall id, In id ids <-> In (Some id) (visitedOperationIds doc))
  /\ (forall swaggerPath doc,
        In swaggerPath swaggerList ->
        load swaggerPath = Normal doc ->
        is_Some (mapGet mapper swaggerPath))
  /\ (forall swaggerPath e,
        load swaggerPath = Throw e -> mapGet mapper swaggerPath = None).
Proof.
  cbv zeta.
  assert (Hempty : Registered [] []).
  { split_and!; [constructor | intros k ids [=] | intros k doc []]. }
  destruct (buildOperationSpecMapper_registered swaggerList [] [] Hempty)
    as (Hkeys & Hsound & Hcomplete).
  cbn [app] in *. split_and!; [exact Hkeys | exact Hsound | exact Hcomplete|].
  intros k e Hthrow.
  destruct (mapGet (buildOperationSpecMapper swaggerList []) k) as [ids|] eqn:Hget;
    [|reflexivity].
  destruct (Hsound _ _ Hget) as (_ & _ & doc & Hload & _). congruence.
Qed.

End Facts.

End InitializeFacts.

(** ** The query of a request *)

Module QueryFacts.
Import Request.

Section Facts.
Context `{Imports} `{Builtins}.

Lemma mapGet_not_declared {V : Type} (ts : list (string * V)) k :
  ~ In k (map fst ts) -> TrafficValidator.mapGet ts k = None.
Proof.
  induction ts as [|[k' g] rest IH]; [reflexivity|].
  simpl. intros Hnotin. destruct (String.eqb_spec k' k) as [->|_]; [tauto|].
  apply IH. tauto.
Qed.

Lemma transformQuery_lookup (ts : list (string * TransformFn)) :
  List.NoDup (map fst ts) ->
  forall d : gmap string QueryValue,
  exists d',
    transformQuery (Some d) (Some ts) = Some d'
    /\ forall k, d' !! k = RequestRules.transformedValue (Some ts) k <$> d !! k.
Proof.
  induction ts as [|[name f] rest IH]; intros Hnd d.
  - exists d. split; [reflexivity|]. intros k. simpl. now destruct (d !! k).
  - inversion_clear Hnd as [|? ? Hnotin Hrest].
    set (d1 := match d !! name with
               | Some (QString val) => <[name := QString (f val)]> d
               | Some (QArray val) => <[name := QArray (map f val)]> d
               | None => d
               end).
    destruct (IH Hrest d1) as (d' & Heq & Hlookup).
    exists d'. split; [exact Heq|].
    intros k. rewrite Hlookup. unfold RequestRules.transformedValue.
    cbn [TrafficValidator.mapGet].
    destruct (String.eqb_spec name k) as [->|Hne].
    + rewrite (mapGet_not_declared rest k Hnotin). subst d1.
      destruct (d !! k) as [[val|val]|] eqn:Hk.
      * now rewrite lookup_insert_eq.
      * now rewrite lookup_insert_eq.
      * rewrite Hk. reflexivity.
    + assert (Hsame : d1 !! k = d !! k).
      { subst d1. destruct (d !! name) as [[val|val]|]; [| |reflexivity];
          now rewrite lookup_insert_ne. }
      rewrite Hsame. now destruct (TrafficValidator.mapGet rest k), (d !! k).
Qed.

(** X23. The query that request validation passes to the validator has the
    fields of the query of the request, none added and none removed: a
    field with a declared transform holds the transformed string, or the
    array of the transformed elements in their order, and any other field
    is unchanged; an absent query stays absent. *)
Theorem query_transformed_by_name transforms data :
  Rules.distinctNames transforms ->
  match data with
  | None => transformQuery data transforms = None
  | Some d =>
      exists d',
        transformQuery data transforms = Some d'
        /\ forall k, d' !! k = RequestRules.transformedValue transforms k <$> d !! k
  end.
Proof.
  intros Hnd. destruct data as [d|]; [|now destruct transforms].
  destruct transforms as [ts|].
  - now apply transformQuery_lookup.
  - exists d. split; [reflexivity|]. intros k. simpl. now destruct (d !! k).
Qed.

End Facts.

End QueryFacts.

(** ** From [initialize] to the coverage report *)

Module EndToEndFacts.
Import TrafficValidator TrafficFacts Initialize InitializeRules.

Section Facts.
Context `{Host} `{SpecLoader}.

Lemma coverageRecord_partition specKey value ids n res :
  List.NoDup ids -> incl ids value ->
  Permutation
    (map meta_operationId (coveredOperationsList (coverageRecord specKey value ids n res))
     ++ map inner_operationId
          (unCoveredOperationsList (coverageRecord specKey value ids n res)))
    value.
Proof.
  intros Hnodup Hincl.
  cbn [coverageRecord coveredOperationsList unCoveredOperationsList]. unfold unValidated.
  rewrite !sort_Permutation, !map_map. cbn [meta_operationId uncovered inner_operationId].
  rewrite !map_id. symmetry. now apply TrafficExtra.fold_spliceIndexOf_partition.
Qed.

(** X24. After [initialize] and [validate], every record of the coverage
    report is for a specification path of the list that loads, and its
    covered and uncovered operations together are the operation identifiers
    visited in the loaded document, each once; [totalOperations] is their
    number. *)
Theorem report_follows_loaded_documents files swaggerList r :
  In r (operationCoverageResult
          (validate (initialized files (buildOperationSpecMapper swaggerList [])))) ->
  let listed :=
    map meta_operationId (coveredOperationsList r)
    ++ map inner_operationId (unCoveredOperationsList r) in
  In (cov_spec r) swaggerList
  /\ List.NoDup listed
  /\ totalOperations r = length listed
  /\ exists doc,
       load (cov_spec r) = Normal doc
       /\ forall id, In id listed <-> In (Some id) (visitedOperationIds doc).
Proof.
  intros Hin listed.
  assert (Hempty : Registered [] []).
  { split_and!; [constructor | intros k ids [=] | intros k doc []]. }
  destruct (InitializeFacts.buildOperationSpecMapper_registered swaggerList [] [] Hempty)
    as (Hkeys & Hsound & _).
  cbn [app] in Hkeys, Hsound.
  destruct (TrafficExtra.report_record_shape files _ r Hkeys Hin)
    as (value & ids & n & Hmem & Hr & Hnodup & Hincl).
  destruct (Hsound _ _ (mapGet_In _ _ _ Hkeys Hmem)) as (Hlisted & Hvalue & doc & Hload & Hids).
  assert (Hperm : Permutation listed value).
  { subst listed. rewrite Hr. now apply coverageRecord_partition. }
  split_and!.
  - exact Hlisted.
  - eapply Permutation_NoDup; [symmetry; exact Hperm | exact Hvalue].
  - rewrite (Permutation_length Hperm), Hr. reflexivity.
  - exists doc. split; [exact Hload|]. intros id. rewrite <- Hids. split.
    + apply Permutation_in. exact Hperm.
    + apply Permutation_in. symmetry. exact Hperm.
Qed.

End Facts.

End EndToEndFacts.

(** ** Failed operations and the returned records *)

Module ReportingFacts.
Import TrafficValidator TrafficFacts ReportingRules.

Section Facts.
Context `{Host}.

Lemma visitSwaggerFile_reported trafficFile s st swaggerFile st' :
  FailuresReported st ->
  visitSwaggerFile trafficFile s st swaggerFile = (st', None) ->
  FailuresReported st'.
Proof.
  intros Hrep Hv. unfold visitSwaggerFile in Hv.
  destruct (hasFailure (validationResult s)).
  - destruct (locateOperation _ _) as [pos|e]; [|discriminate].
    injection Hv as <-. intros f op Hrec. cbn in Hrec.
    apply TrafficExtra.recordOperation_inv in Hrec as [Hold|[-> ->]].
    + destruct (Hrep _ _ Hold) as (r & Hin & Hspec & Hfile).
      exists r. split; [|split; assumption].
      cbn. apply in_or_app. now left.
    + eexists. split; [cbn; apply in_or_app; right; left; reflexivity|].
      cbn. split; [reflexivity | eexists; reflexivity].
  - injection Hv as <-. intros f op Hrec. apply (Hrep f op Hrec).
Qed.

Lemma visitSwaggerFiles_reported trafficFile s swaggerFiles :
  forall st st',
    FailuresReported st ->
    visitSwaggerFiles trafficFile s st swaggerFiles = (st', None) ->
    FailuresReported st'.
Proof.
  induction swaggerFiles as [|f rest IH]; intros st st' Hrep Hv; cbn [visitSwaggerFiles] in Hv.
  - now injection Hv as <-.
  - destruct (visitSwaggerFile trafficFile s st f) as [st1 [e|]] eqn:Hone; [discriminate|].
    eapply IH; [|exact Hv]. eapply visitSwaggerFile_reported; eassumption.
Qed.

Lemma processSample_reported st trafficFile st' :
  FailuresReported st ->
  processSample st trafficFile = (st', None) ->
  FailuresReported st'.
Proof.
  intros Hrep Hp. unfold processSample in Hp.
  destruct (readSample trafficFile) as [s|e]; [|discriminate].
  destruct (matchingSwaggerFiles (operationSpecMapper st) s) as [|f rest] eqn:Hm.
  - unfold reportUndefined in Hp.
    destruct (operationMatch (opInfo s)); [discriminate|].
    injection Hp as <-. exact Hrep.
  - eapply visitSwaggerFiles_reported; eassumption.
Qed.

Lemma processFiles_reported files :
  forall st,
    FailuresReported st ->
    snd (processFiles st files) = None ->
    FailuresReported (fst (processFiles st files)).
Proof.
  induction files as [|f rest IH]; intros st Hrep Hnone; cbn [processFiles] in *.
  - exact Hrep.
  - destruct (processSample st f) as [st1 [e|]] eqn:Hone; [discriminate|].
    apply IH; [|exact Hnone]. eapply processSample_reported; eassumption.
Qed.

(** X25. When no sample of a run throws, every specification file for
    which the run records a failed operation has a record in the returned
    list that names this specification file and a traffic file: a count of
    failed operations in the coverage report is never without a record. *)
Theorem failed_operations_have_records files mapper swaggerFile opId :
  snd (processFiles (initialized files mapper) files) = None ->
  recorded (validationFailOperations (validate (initialized files mapper)))
    swaggerFile opId ->
  exists record,
    In record (trafficValidationResult (validate (initialized files mapper)))
    /\ specFilePath record = Some swaggerFile
    /\ is_Some (payloadFilePath record).
Proof.
  intros Hnone Hrec. unfold validate, run in *. cbv zeta in *.
  set (st0 := initialized files mapper) in *.
  destruct (rollup_frame (operationSpecMapper (validateSamples st0))
              (validateSamples st0)) as (_ & _ & Hfail & _).
  rewrite Hfail in Hrec. rewrite rollup_results.
  assert (Hrep0 : FailuresReported st0).
  { intros f op (ids & Hget & _). simpl in Hget. now rewrite lookup_empty in Hget. }
  pose proof (processFiles_reported files st0 Hrep0 Hnone) as Hrep.
  unfold validateSamples in *. change (trafficFiles st0) with files in *.
  destruct (processFiles st0 files) as [st1 [[f e]|]]; [discriminate|].
  exact (Hrep _ _ Hrec).
Qed.

End Facts.

End ReportingFacts.

(** ** The further properties at concrete inputs *)

Lemma other_codes_pass_through_witness :
  classifyIssue (H := Fixture.imports) deleteLro (Fixture.responseContext "202" "delete")
    (Fixture.invalidType ".body.name")
  = (setPaths ["$.name"] ["$.name"]
       (attachMetadata (H := Fixture.imports) (Fixture.invalidType ".body.name") deleteLro),
     false).
Proof.
  apply (other_codes_pass_through (H := Fixture.imports) deleteLro
           (Fixture.responseContext "202" "delete") (Fixture.invalidType ".body.name")).
  discriminate.
Defined.

Lemma suppression_only_for_accepted_lro_witness :
  snd (classifyIssue (H := Fixture.imports) deleteLro (Fixture.responseContext "202" "delete")
         (Fixture.missingProperty ".body" "properties")) = true
  /\ x_ms_long_running_operation deleteLro = Some true
  /\ In ".body" (SchemaValidator.jsonPathsInPayload (Fixture.missingProperty ".body" "properties")).
Proof.
  assert (Hskip : snd (classifyIssue (H := Fixture.imports) deleteLro
                         (Fixture.responseContext "202" "delete")
                         (Fixture.missingProperty ".body" "properties")) = true)
    by reflexivity.
  destruct (suppression_only_for_accepted_lro (H := Fixture.imports) deleteLro
              (Fixture.responseContext "202" "delete")
              (Fixture.missingProperty ".body" "properties") Hskip)
    as (_ & Hlro & _ & _ & Hin).
  split_and!; [exact Hskip | exact Hlro | exact Hin].
Defined.

Lemma response_throws_exactly_witness :
  validateSwaggerLiveResponse (H := Fixture.imports)
    (Fixture.responseOf "200" []) (Fixture.contextOf ExtraFixture.lazyOperation)
    None None (Some true)
  = Throw noLoader.
Proof.
  apply (response_throws_exactly (H := Fixture.imports)
           (Fixture.responseOf "200" []) (Fixture.contextOf ExtraFixture.lazyOperation)
           None None (Some true) noLoader).
  right. exists {| pathMatch := []; operation := ExtraFixture.lazyOperation |},
           ExtraFixture.lazyResponse.
  split_and!; reflexivity.
Defined.

Lemma response_issue_layout_witness :
  exists protocol,
    validateSwaggerLiveResponse (H := Fixture.imports)
      (Fixture.responseOf "404" [("Content-Type", "text/plain")])
      (Fixture.contextOf deleteLro) None None (Some true)
    = Normal (protocol ++ [])
    /\ protocol = [].
Proof.
  destruct (response_issue_layout (H := Fixture.imports)
              (Fixture.responseOf "404" [("Content-Type", "text/plain")])
              (Fixture.contextOf deleteLro)
              {| pathMatch := []; operation := deleteLro |}
              Fixture.errorResponse None (fun _ _ => []) None (Some true)
              eq_refl eq_refl eq_refl)
    as (protocol & Heq & _ & _ & Hnone & _).
  exists protocol. split; [exact Heq | apply Hnone; reflexivity].
Defined.

Lemma transform_applied_once_witness :
  transformMapValue {[ "etag" := "a"; "location" := "b" ]} ExtraFixture.etagTransform
    !! "etag"
  = Some "a!".
Proof.
  etrans.
  - apply (transform_applied_once ExtraFixture.etagTransform
             {[ "etag" := "a"; "location" := "b" ]} "etag").
    simpl. constructor; [intros [] | constructor].
  - reflexivity.
Defined.

Lemma header_lookup_last_wins_witness :
  transformLiveHeader ExtraFixture.mixedHeaders ExtraFixture.etagTransform !! "etag"
  = Some "b!".
Proof.
  destruct (header_lookup_last_wins ExtraFixture.mixedHeaders ExtraFixture.etagTransform)
    as [Hlast _].
  apply (Hlast [("ETag", "a"); ("Content-Type", "application/json")] [] "etag" "b").
  - reflexivity.
  - apply List.Forall_nil.
  - simpl. constructor; [intros [] | constructor].
  - discriminate.
Defined.

Lemma normalized_keys_lower_case_witness :
  transformLiveHeader ExtraFixture.mixedHeaders ExtraFixture.etagTransform !! "location"
  = None.
Proof.
  destruct (normalized_keys_lower_case ExtraFixture.mixedHeaders ExtraFixture.etagTransform)
    as (_ & Habsent & _).
  apply Habsent.
  intros name [<-|[<-|[<-|[]]]]; discriminate.
Defined.

Lemma path_params_from_named_captures_witness :
  exists i capture,
    (1 <= i)%nat
    /\ [None; Some "subscriptionId"; Some "vmName"] !! i = Some (Some "vmName")
    /\ ExtraFixture.captures !! i = Some capture
    /\ Request.decodeURIComponent (Builtins := ExtraFixture.builtins) capture = Normal "vm1".
Proof.
  pose proof (RequestFacts.path_params_from_named_captures (H0 := ExtraFixture.builtins)
                [None; Some "subscriptionId"; Some "vmName"] ExtraFixture.captures) as Hm.
  assert (Hx : Request.extractPathParams (H0 := ExtraFixture.builtins)
                 [None; Some "subscriptionId"; Some "vmName"] ExtraFixture.captures
               = Normal (<["vmName" := "vm1"]> (<["subscriptionId" := "s1"]> ∅)))
    by reflexivity.
  rewrite Hx in Hm. apply Hm. reflexivity.
Defined.

Lemma request_failure_order_witness :
  Request.validateSwaggerLiveRequest (H := Fixture.imports) (H0 := ExtraFixture.builtins)
    (ExtraFixture.requestOf [])
    (Some (ExtraFixture.matchOf ExtraFixture.putOperation ["/subscriptions/%/a%b"; "%"; "a%b"]))
    None None
  = Throw ExtraFixture.uriError.
Proof.
  destruct (RequestFacts.request_failure_order (H := Fixture.imports)
              (H0 := ExtraFixture.builtins) (ExtraFixture.requestOf [])
              (ExtraFixture.matchOf ExtraFixture.putOperation
                 ["/subscriptions/%/a%b"; "%"; "a%b"])
              None None) as [_ Hthrows].
  apply Hthrows.
  - left. eexists. reflexivity.
  - exists 1%nat. split.
    + exists "subscriptionId", "%". split; [|reflexivity].
      split_and!; [lia | reflexivity | reflexivity].
    + intros j name capture Hj (Hj1 & _). lia.
Defined.

Lemma request_issue_layout_witness :
  exists gate issues,
    Request.validateSwaggerLiveRequest (H := Fixture.imports) (H0 := ExtraFixture.builtins)
      (ExtraFixture.requestOf [("Accept", "application/json")])
      (Some (ExtraFixture.matchOf ExtraFixture.putOperation ExtraFixture.captures))
      None None
    = Normal (gate ++ issues)
    /\ gate = [].
Proof.
  destruct (RequestFacts.request_issue_layout (H := Fixture.imports)
              (H0 := ExtraFixture.builtins)
              (ExtraFixture.requestOf [("Accept", "application/json")])
              (ExtraFixture.matchOf ExtraFixture.putOperation ExtraFixture.captures)
              None (fun _ _ => [Fixture.missingProperty ".body" "body"])
              (<["vmName" := "vm1"]> (<["subscriptionId" := "s1"]> ∅)) None
              eq_refl eq_refl)
    as (gate & Heq & _ & _ & Hnone).
  exists gate. eexists. split; [exact Heq|].
  apply Hnone. intros name [<-|[]]. discriminate.
Defined.

Lemma finders_select_declaring_files_witness :
  exists value,
    TrafficValidator.mapGet TrafficFixture.mapper TrafficFixture.computeSpec = Some value
    /\ In "Disks_Get" value.
Proof.
  destruct (TrafficExtra.finders_select_declaring_files TrafficFixture.mapper
              (TrafficFixture.operationContext "Disks_Get")) as (_ & Hinfo & _).
  destruct (Hinfo TrafficFixture.computeSpec) as [Hselected _].
  destruct Hselected as (_ & vreq & value & _ & Hget & Hin & _).
  - left. reflexivity.
  - exists value. split; [exact Hget | exact Hin].
Defined.

Lemma coverage_only_grows_witness :
  TrafficValidator.recorded
    (TrafficValidator.trafficOperation
       (TrafficValidator.validate (H := TrafficFixture.host) ExtraFixture.resumed))
    TrafficFixture.computeSpec "Images_Get".
Proof.
  destruct (TrafficExtra.coverage_only_grows (H := TrafficFixture.host) ExtraFixture.resumed
              TrafficFixture.computeSpec "Images_Get") as [Hcovered _].
  apply Hcovered. exists ["Images_Get"]. split; [reflexivity | left; reflexivity].
Defined.

Lemma report_in_map_order_witness :
  exists processed,
    TrafficFixture.mapper = processed ++ []
    /\ TrafficValidator.operationCoverageResult
         (TrafficValidator.validate (H := TrafficFixture.host) TrafficFixture.complete)
       = flat_map
           (CoverageRules.reportEntry (H := TrafficFixture.host)
              (TrafficValidator.validateSamples (H := TrafficFixture.host)
                 TrafficFixture.complete))
           processed.
Proof.
  pose proof (TrafficExtra.report_in_map_order (H := TrafficFixture.host)
                TrafficFixture.complete) as Hreport.
  cbv zeta in Hreport.
  destruct Hreport as (processed & rest & Hsplit & Hreport & _ & _ & Hend).
  assert (Hnone : TrafficValidator.validateThrows (H := TrafficFixture.host)
                    TrafficFixture.complete = None) by reflexivity.
  rewrite Hnone in Hend. subst rest.
  exists processed. split; [exact Hsplit | exact Hreport].
Defined.

Lemma covered_and_uncovered_partition_witness :
  List.NoDup (map fst TrafficFixture.mapper)
  /\ Forall (fun r =>
               exists value,
                 In (TrafficValidator.cov_spec r, value) TrafficFixture.mapper
                 /\ Permutation
                      (map TrafficValidator.meta_operationId
                         (TrafficValidator.coveredOperationsList r)
                       ++ map TrafficValidator.inner_operationId
                            (TrafficValidator.unCoveredOperationsList r))
                      value)
       (TrafficValidator.operationCoverageResult
          (TrafficValidator.validate (H := TrafficFixture.host) TrafficFixture.complete)).
Proof.
  split; [exact mapper_keys_distinct|].
  apply List.Forall_forall. intros r Hin.
  destruct (TrafficExtra.covered_and_uncovered_partition (H := TrafficFixture.host)
              ["a.json"; "ok.json"; "c.json"] TrafficFixture.mapper r
              mapper_keys_distinct Hin) as (value & Hdecl & Hperm & _).
  exists value. split; [exact Hdecl | exact Hperm].
Defined.

Lemma failing_sample_records_witness :
  snd (TrafficValidator.processSample (H := TrafficFixture.host)
         TrafficFixture.complete "a.json") = None
  /\ map TrafficValidator.specFilePath
       (TrafficValidator.trafficValidationResult
          (fst (TrafficValidator.processSample (H := TrafficFixture.host)
                  TrafficFixture.complete "a.json")))
     = [Some TrafficFixture.computeSpec].
Proof.
  destruct (TrafficExtra.failing_sample_records (H := TrafficFixture.host)
              TrafficFixture.complete "a.json"
              (TrafficFixture.sampleOf "VirtualMachines_Get"
                 (TrafficFixture.failed "VirtualMachines_Get"))
              eq_refl eq_refl) as [Hnone Hrecords].
  - discriminate.
  - intros swaggerFile Hin. exists (Some (1%Z, 1%Z)).
    vm_compute in Hin. destruct Hin as [<-|[]]. reflexivity.
  - split; [exact Hnone|]. rewrite Hrecords. reflexivity.
Defined.

Lemma undefined_samples_counted_witness :
  TrafficValidator.operationUndefinedResult
    (TrafficValidator.validate (H := TrafficFixture.host) ExtraFixture.unknownSpecs)
  = 2%nat.
Proof.
  destruct (TrafficExtra.undefined_samples_counted (H := TrafficFixture.host)
              ExtraFixture.unknownSpecs eq_refl) as [Hcount _].
  rewrite Hcount. reflexivity.
Defined.

Lemma initialize_registers_loaded_specs_witness :
  TrafficValidator.mapGet
    (Initialize.buildOperationSpecMapper (H := ExtraFixture.specLoader)
       ExtraFixture.swaggerList [])
    "broken.json" = None
  /\ is_Some (TrafficValidator.mapGet
                (Initialize.buildOperationSpecMapper (H := ExtraFixture.specLoader)
                   ExtraFixture.swaggerList [])
                ExtraFixture.networkSpec).
Proof.
  destruct (InitializeFacts.initialize_registers_loaded_specs (H := ExtraFixture.specLoader)
              ExtraFixture.swaggerList) as (_ & _ & Hloaded & Hfailed).
  split.
  - apply (Hfailed "broken.json" ExtraFixture.uriError). reflexivity.
  - apply (Hloaded ExtraFixture.networkSpec (JStr "network")); [|reflexivity].
    right. left. reflexivity.
Defined.

Lemma query_transformed_by_name_witness :
  exists d',
    Request.transformQuery (Some ExtraFixture.query) ExtraFixture.tagsTransform = Some d'
    /\ d' !! "tags" = Some (Request.QArray ["a!"; "b!"])
    /\ d' !! "expand" = None.
Proof.
  destruct (QueryFacts.query_transformed_by_name ExtraFixture.tagsTransform
              (Some ExtraFixture.query)) as (d' & Heq & Hlookup).
  - simpl. constructor; [intros [[=]|[]] | constructor; [intros [] | constructor]].
  - exists d'. split_and!; [exact Heq | |]; rewrite Hlookup; reflexivity.
Defined.

Lemma report_follows_loaded_documents_witness :
  length (TrafficValidator.operationCoverageResult
            (TrafficValidator.validate (H := TrafficFixture.host)
               (TrafficValidator.initialized ["a.json"; "ok.json"]
                  (Initialize.buildOperationSpecMapper (H := ExtraFixture.specLoader)
                     ExtraFixture.swaggerList [])))) = 1%nat
  /\ Forall (fun r =>
               In (TrafficValidator.cov_spec r) ExtraFixture.swaggerList
               /\ TrafficValidator.totalOperations r
                  = length (map TrafficValidator.meta_operationId
                              (TrafficValidator.coveredOperationsList r)
                            ++ map TrafficValidator.inner_operationId
                                 (TrafficValidator.unCoveredOperationsList r)))
       (TrafficValidator.operationCoverageResult
          (TrafficValidator.validate (H := TrafficFixture.host)
             (TrafficValidator.initialized ["a.json"; "ok.json"]
                (Initialize.buildOperationSpecMapper (H := ExtraFixture.specLoader)
                   ExtraFixture.swaggerList [])))).
Proof.
  split; [reflexivity|].
  apply List.Forall_forall. intros r Hin.
  destruct (EndToEndFacts.report_follows_loaded_documents (H := TrafficFixture.host)
              (H0 := ExtraFixture.specLoader) ["a.json"; "ok.json"]
              ExtraFixture.swaggerList r Hin) as (Hlisted & _ & Htotal & _).
  split; [exact Hlisted | exact Htotal].
Defined.

Lemma failed_operations_have_records_witness :
  exists record,
    In record (TrafficValidator.trafficValidationResult
                 (TrafficValidator.validate (H := TrafficFixture.host)
                    TrafficFixture.complete))
    /\ TrafficValidator.specFilePath record = Some TrafficFixture.computeSpec.
Proof.
  destruct (ReportingFacts.failed_operations_have_records (H := TrafficFixture.host)
              ["a.json"; "ok.json"; "c.json"] TrafficFixture.mapper
              TrafficFixture.computeSpec "VirtualMachines_Delete")
    as (record & Hin & Hspec & _).
  - reflexivity.
  - exists ["VirtualMachines_Get"; "VirtualMachines_Delete"].
    split; [reflexivity | right; left; reflexivity].
  - exists record. split; [exact Hin | exact Hspec].
Defined.
